(** * BlinkDB: a shallow embedding of [blinkDB.cpp] and its properties

    The development follows the source file top-down: the [std::string]
    operations the code relies on, the four value classes, the LRU cache, the
    Bloom filter, the [BlinkDB] store with its commands and its persistence
    file, and the [CommandHandler] that turns a request line into a reply.
    Theorems come after the definitions. *)

From Stdlib Require Import ZArith Ascii String DecimalString Lia.
From Stdlib Require DecimalPos.
From stdpp Require Import base option list gmap sets strings.

Local Open Scope Z_scope.

(** ** Constants ([#define]s of the source) *)

Definition CACHE_SIZE : nat := 1000.
Definition BLOOM_FILTER_SIZE : N := 10000.

(** ** Exceptions

    [std::stoi] and [std::string::substr] are the operations of the source
    that throw: a computation either returns or throws. The [while] loops of
    the deserialisers, whose position may move backwards, run on fuel, and
    answer [None] when it runs out. *)

Inductive exn := invalid_argument | out_of_range.

Inductive outcome (A : Type) : Type :=
| Done (a : A)
| Threw (e : exn).
Arguments Done {A} a.
Arguments Threw {A} e.

Definition obind {A B} (m : outcome A) (f : A → outcome B) : outcome B :=
  match m with
  | Done a => f a
  | Threw e => Threw e
  end.

Notation "'try!' x ← m ; k" := (obind m (fun x => k))
  (at level 10, x name, m at level 100, k at level 200).

Definition fbind {A B} (m : option (outcome A)) (f : A → option (outcome B))
    : option (outcome B) :=
  match m with
  | Some (Done a) => f a
  | Some (Threw e) => Some (Threw e)
  | None => None
  end.

Notation "'run!' x ← m ; k" := (fbind m (fun x => k))
  (at level 10, x name, m at level 100, k at level 200).

(** The text of [e.what()] for the exceptions of [std::stoi] (libstdc++ puts
    the name of the function there). *)
Definition what (e : exn) : string := "stoi".

(** ** Characters and [std::string] *)

Definition CR : ascii := "013"%char.
Definition LF : ascii := "010"%char.
Definition CRLF : string := String CR (String LF "").

Definition string_size (s : string) : Z := Z.of_nat (String.length s).

(** [size_t] is 64 bits wide, [int] 32 bits. *)
Definition size_t (z : Z) : Z := z mod 2 ^ 64.
Definition npos : Z := 2 ^ 64 - 1.
Definition INT_MIN : Z := - 2 ^ 31.
Definition INT_MAX : Z := 2 ^ 31 - 1.
Definition to_int (z : Z) : Z := (z + 2 ^ 31) mod 2 ^ 32 - 2 ^ 31.

(** [isspace], [isdigit] and [tolower] in the "C" locale. *)
Definition isspace (c : ascii) : bool :=
  let n := N_of_ascii c in ((n =? 32) || ((9 <=? n) && (n <=? 13)))%N.

Definition isdigit (c : ascii) : bool :=
  let n := N_of_ascii c in ((48 <=? n) && (n <=? 57))%N.

Definition tolower (c : ascii) : ascii :=
  let n := N_of_ascii c in
  if ((65 <=? n) && (n <=? 90))%N then ascii_of_N (n + 32) else c.

Fixpoint transform (f : ascii → ascii) (s : string) : string :=
  match s with
  | EmptyString => EmptyString
  | String c s' => String (f c) (transform f s')
  end.

Fixpoint string_drop (n : nat) (s : string) : string :=
  match n, s with
  | O, _ => s
  | S n', String _ s' => string_drop n' s'
  | S _, EmptyString => EmptyString
  end.

Fixpoint string_take (n : nat) (s : string) : string :=
  match n, s with
  | S n', String c s' => String c (string_take n' s')
  | _, _ => EmptyString
  end.

Fixpoint index_from (c : ascii) (s : string) (i : Z) : Z :=
  match s with
  | EmptyString => npos
  | String a s' => if Ascii.eqb a c then i else index_from c s' (i + 1)
  end.

(** [s.find(c, pos)]: the first index [>= pos] holding [c], or [npos]. *)
Definition find (s : string) (c : ascii) (pos : Z) : Z :=
  if string_size s <=? pos then npos
  else index_from c (string_drop (Z.to_nat pos) s) pos.

(** [s.substr(pos, len)]: throws [std::out_of_range] when [pos > size()],
    and is cut at the end of the string. [pos] and [len] are [size_t]. *)
Definition substr (s : string) (pos len : Z) : outcome string :=
  if string_size s <? pos then Threw out_of_range
  else Done (string_take (Z.to_nat (Z.min len (string_size s - pos)))
                         (string_drop (Z.to_nat pos) s)).

(** [s.substr(0, n)], which cannot throw. *)
Definition prefix_of (n : nat) (s : string) : string := string_take n s.

(** [std::to_string] on an integer. *)
Definition to_string (n : Z) : string := NilZero.string_of_int (Z.to_int n).

(** [std::stoi]: skip white space, read an optional sign and the longest
    run of decimal digits; [std::invalid_argument] when there is no digit,
    [std::out_of_range] when the number does not fit an [int]. *)
Fixpoint skip_space (s : string) : string :=
  match s with
  | String c s' => if isspace c then skip_space s' else s
  | EmptyString => EmptyString
  end.

Fixpoint read_digits (s : string) (acc : option Z) : option Z :=
  match s with
  | String c s' =>
      if isdigit c
      then read_digits s' (Some (10 * default 0 acc + (Z.of_N (N_of_ascii c) - 48)))
      else acc
  | EmptyString => acc
  end.

Definition stoi (str : string) : outcome Z :=
  let s := skip_space str in
  let '(negative, s) :=
    match s with
    | String "-"%char s' => (true, s')
    | String "+"%char s' => (false, s')
    | _ => (false, s)
    end in
  match read_digits s None with
  | None => Threw invalid_argument
  | Some n =>
      let v := if negative then - n else n in
      if (INT_MIN <=? v) && (v <=? INT_MAX) then Done v else Threw out_of_range
  end.

(** The extraction loop [while (iss >> part)]: white-space separated,
    non-empty tokens. [cur] is the token being read. *)
Fixpoint split_tokens (s : string) (cur : string) : list string :=
  match s with
  | EmptyString => if String.eqb cur "" then [] else [cur]
  | String c s' =>
      if isspace c
      then (if String.eqb cur "" then split_tokens s' "" else cur :: split_tokens s' "")
      else split_tokens s' (cur +:+ String c "")
  end.

Definition tokenize (s : string) : list string := split_tokens s "".

(** [std::getline] in a loop: the lines of a file, without their newline; a
    final line needs no newline, and nothing follows a final newline. *)
Fixpoint split_lines (s : string) (cur : string) : list string :=
  match s with
  | EmptyString => if String.eqb cur "" then [] else [cur]
  | String c s' =>
      if Ascii.eqb c LF then cur :: split_lines s' ""
      else split_lines s' (cur +:+ String c "")
  end.

Definition getlines (file : string) : list string := split_lines file "".

(** ** The value classes *)

Inductive ValueType := STRING | LIST | SET | HASH.

(** [DataType] and its four subclasses. The [unordered_set] and
    [unordered_map] members are finite sets and maps; where the source
    iterates over one, the model iterates in the order of [elements] and
    [map_to_list]. *)
Inductive DataType :=
| StringType (value : string)
| ListType (elements : list string)
| SetType (elements : gset string)
| HashType (fields : gmap string string).

Definition get_type (v : DataType) : ValueType :=
  match v with
  | StringType _ => STRING
  | ListType _ => LIST
  | SetType _ => SET
  | HashType _ => HASH
  end.

Definition string_concat (l : list string) : string :=
  foldr String.append "" l.

(** *** [ListType] *)

Definition sized (element : string) : string :=
  to_string (string_size element) +:+ ":" +:+ element +:+ ",".

Definition ListType_serialize (elements : list string) : string :=
  "L" +:+ string_concat (map sized elements).

Fixpoint ListType_deserialize_loop (fuel : nat) (data : string) (pos : Z)
    (elements : list string) : option (outcome (list string)) :=
  match fuel with
  | O => None
  | S fuel' =>
      if pos <? string_size data then
        let colon_pos := find data ":" pos in
        if colon_pos =? npos then Some (Done elements)
        else
          run! digits ← Some (substr data pos (colon_pos - pos));
          run! len ← Some (stoi digits);
          run! element ← Some (substr data (colon_pos + 1) (size_t len));
          ListType_deserialize_loop fuel' data (size_t (colon_pos + len + 2))
            (elements ++ [element])
      else Some (Done elements)
  end.

(** [deserialize] clears the elements and gives up at once on a missing
    ['L'] tag. *)
Definition ListType_deserialize (fuel : nat) (data : string) : option (outcome (list string)) :=
  match data with
  | String "L"%char _ => ListType_deserialize_loop fuel data 1 []
  | _ => Some (Done [])
  end.

Definition ListType_lpush (value : string) (elements : list string) : list string :=
  value :: elements.

Definition ListType_rpush (value : string) (elements : list string) : list string :=
  elements ++ [value].

Definition ListType_lpop (elements : list string) : string * list string :=
  match elements with
  | [] => ("", [])
  | value :: rest => (value, rest)
  end.

Definition ListType_rpop (elements : list string) : string * list string :=
  match elements with
  | [] => ("", [])
  | _ => (default "" (last elements), removelast elements)
  end.

Definition ListType_llen (elements : list string) : Z :=
  to_int (Z.of_nat (length elements)).

Definition ListType_lindex (index : Z) (elements : list string) : string :=
  let index := if index <? 0 then to_int (Z.of_nat (length elements) + index) else index in
  if (index <? 0) || (ListType_llen elements <=? index) then ""
  else nth (Z.to_nat index) elements "".

Definition ListType_lrange (start end_ : Z) (elements : list string) : list string :=
  match elements with
  | [] => []
  | _ =>
      let start := if start <? 0 then to_int (Z.of_nat (length elements) + start) else start in
      let end_ := if end_ <? 0 then to_int (Z.of_nat (length elements) + end_) else end_ in
      let start := Z.max 0 start in
      let end_ := Z.min (to_int (ListType_llen elements - 1)) end_ in
      if end_ <? start then []
      else take (Z.to_nat (end_ + 1 - start)) (drop (Z.to_nat start) elements)
  end.

(** *** [SetType] *)

Definition SetType_serialize (elements : gset string) : string :=
  "S" +:+ string_concat (map sized (base.elements elements)).

Fixpoint SetType_deserialize_loop (fuel : nat) (data : string) (pos : Z)
    (elements : gset string) : option (outcome (gset string)) :=
  match fuel with
  | O => None
  | S fuel' =>
      if pos <? string_size data then
        let colon_pos := find data ":" pos in
        if colon_pos =? npos then Some (Done elements)
        else
          run! digits ← Some (substr data pos (colon_pos - pos));
          run! len ← Some (stoi digits);
          run! element ← Some (substr data (colon_pos + 1) (size_t len));
          SetType_deserialize_loop fuel' data (size_t (colon_pos + len + 2))
            ({[element]} ∪ elements)
      else Some (Done elements)
  end.

Definition SetType_deserialize (fuel : nat) (data : string) : option (outcome (gset string)) :=
  match data with
  | String "S"%char _ => SetType_deserialize_loop fuel data 1 ∅
  | _ => Some (Done ∅)
  end.

Definition SetType_sadd (value : string) (elements : gset string) : bool * gset string :=
  (bool_decide (value ∉ elements), {[value]} ∪ elements).

Definition SetType_sismember (value : string) (elements : gset string) : bool :=
  bool_decide (value ∈ elements).

Definition SetType_srem (value : string) (elements : gset string) : bool * gset string :=
  (bool_decide (value ∈ elements), elements ∖ {[value]}).

Definition SetType_scard (elements : gset string) : Z :=
  to_int (Z.of_nat (base.size elements)).

Definition SetType_smembers (elements : gset string) : list string :=
  base.elements elements.

(** *** [HashType] *)

Definition HashType_serialize (fields : gmap string string) : string :=
  "H" +:+ string_concat
    (map (fun '(field, value) =>
            to_string (string_size field) +:+ ":" +:+ field +:+ ":" +:+
            to_string (string_size value) +:+ ":" +:+ value +:+ ",")
         (map_to_list fields)).

Fixpoint HashType_deserialize_loop (fuel : nat) (data : string) (pos : Z)
    (fields : gmap string string) : option (outcome (gmap string string)) :=
  match fuel with
  | O => None
  | S fuel' =>
      if pos <? string_size data then
        let colon_pos1 := find data ":" pos in
        if colon_pos1 =? npos then Some (Done fields)
        else
          run! digits ← Some (substr data pos (colon_pos1 - pos));
          run! field_len ← Some (stoi digits);
          run! field ← Some (substr data (colon_pos1 + 1) (size_t field_len));
          let value_pos := size_t (colon_pos1 + field_len + 1) in
          let colon_pos2 := find data ":" value_pos in
          if colon_pos2 =? npos then Some (Done fields)
          else
            run! digits ← Some (substr data value_pos (size_t (colon_pos2 - value_pos)));
            run! value_len ← Some (stoi digits);
            run! value ← Some (substr data (colon_pos2 + 1) (size_t value_len));
            HashType_deserialize_loop fuel' data (size_t (colon_pos2 + value_len + 2))
              (<[field := value]> fields)
      else Some (Done fields)
  end.

Definition HashType_deserialize (fuel : nat) (data : string) : option (outcome (gmap string string)) :=
  match data with
  | String "H"%char _ => HashType_deserialize_loop fuel data 1 ∅
  | _ => Some (Done ∅)
  end.

Definition HashType_hset (field value : string) (fields : gmap string string)
    : bool * gmap string string :=
  (bool_decide (fields !! field = None), <[field := value]> fields).

Definition HashType_hget (field : string) (fields : gmap string string) : string :=
  default "" (fields !! field).

Definition HashType_hexists (field : string) (fields : gmap string string) : bool :=
  bool_decide (is_Some (fields !! field)).

Definition HashType_hdel (field : string) (fields : gmap string string)
    : bool * gmap string string :=
  (bool_decide (is_Some (fields !! field)), delete field fields).

Definition HashType_hlen (fields : gmap string string) : Z :=
  to_int (Z.of_nat (base.size fields)).

Definition HashType_hkeys (fields : gmap string string) : list string :=
  (map_to_list fields).*1.

Definition HashType_hvals (fields : gmap string string) : list string :=
  (map_to_list fields).*2.

Definition HashType_hgetall (fields : gmap string string) : list (string * string) :=
  map_to_list fields.

(** ** [LRUCache]

    [cache] is the list of keys, most recently used first. The source keeps
    beside it a [map] from each key to its node in the list; the model looks
    the key up in the list itself. *)

Record LRUCache := mkLRUCache {
  lru_cache : list string;
  max_size : nat
}.

(** [cache.erase(map[key])]: unlink the node of [key]. *)
Fixpoint erase (key : string) (l : list string) : list string :=
  match l with
  | [] => []
  | k :: l' => if String.eqb k key then l' else k :: erase key l'
  end.

Definition LRUCache_contains (key : string) (c : LRUCache) : bool :=
  bool_decide (key ∈ lru_cache c).

Definition LRUCache_access (key : string) (c : LRUCache) : LRUCache :=
  let l := if LRUCache_contains key c then erase key (lru_cache c) else lru_cache c in
  let l := key :: l in
  let l := if (max_size c <? length l)%nat then removelast l else l in
  mkLRUCache l (max_size c).

Definition LRUCache_remove (key : string) (c : LRUCache) : LRUCache :=
  if LRUCache_contains key c
  then mkLRUCache (erase key (lru_cache c)) (max_size c)
  else c.

(** [get_oldest] throws [std::runtime_error] on an empty cache: [None]. *)
Definition LRUCache_get_oldest (c : LRUCache) : option string :=
  last (lru_cache c).

Definition LRUCache_size (c : LRUCache) : nat := length (lru_cache c).

(** ** [BloomFilter]

    A [std::bitset] of [BLOOM_FILTER_SIZE] bits, here the bits of a number.
    [std::hash<std::string>] is left to the implementation by the language:
    it is the parameter [hasher] of everything below. *)

Section BlinkDB.

Variable hasher : string → N.

Definition BloomFilter_hash (key : string) : N :=
  (hasher key mod BLOOM_FILTER_SIZE)%N.

Definition BloomFilter_add (key : string) (filter : N) : N :=
  N.setbit filter (BloomFilter_hash key).

Definition BloomFilter_contains (key : string) (filter : N) : bool :=
  N.testbit filter (BloomFilter_hash key).

(** ** [BlinkDB] *)

Record BlinkDB := mkBlinkDB {
  store : gmap string DataType;
  cache : LRUCache;
  bloom_filter : N
}.

Definition with_store (f : gmap string DataType → gmap string DataType) (db : BlinkDB) :=
  mkBlinkDB (f (store db)) (cache db) (bloom_filter db).
Definition with_cache (f : LRUCache → LRUCache) (db : BlinkDB) :=
  mkBlinkDB (store db) (f (cache db)) (bloom_filter db).
Definition with_bloom_filter (f : N → N) (db : BlinkDB) :=
  mkBlinkDB (store db) (cache db) (f (bloom_filter db)).

(** The state the constructor starts from, before [load_from_disk]. *)
Definition BlinkDB_new : BlinkDB := mkBlinkDB ∅ (mkLRUCache [] CACHE_SIZE) 0%N.

Definition WRONGTYPE : string :=
  "WRONGTYPE Operation against a key holding the wrong kind of value".

Definition evict_if_needed (db : BlinkDB) : BlinkDB :=
  if (CACHE_SIZE <? LRUCache_size (cache db))%nat then
    match LRUCache_get_oldest (cache db) with
    | Some oldest_key =>
        with_store (delete oldest_key) (with_cache (LRUCache_remove oldest_key) db)
    | None => db (* [get_oldest] would throw; the cache is not empty here *)
    end
  else db.

Definition BlinkDB_set (key value : string) (db : BlinkDB) : BlinkDB :=
  let db := with_store <[key := StringType value]> db in
  let db := with_cache (LRUCache_access key) db in
  let db := evict_if_needed db in
  with_bloom_filter (BloomFilter_add key) db.

Definition BlinkDB_get (key : string) (db : BlinkDB) : string * BlinkDB :=
  if negb (BloomFilter_contains key (bloom_filter db))
     || bool_decide (store db !! key = None)
  then ("NULL", db)
  else
    let db := with_cache (LRUCache_access key) db in
    match store db !! key with
    | Some (StringType value) => (value, db)
    | _ => (WRONGTYPE, db)
    end.

Definition BlinkDB_del (key : string) (db : BlinkDB) : BlinkDB :=
  with_cache (LRUCache_remove key) (with_store (delete key) db).

Definition BlinkDB_type (key : string) (db : BlinkDB) : string :=
  if negb (BloomFilter_contains key (bloom_filter db))
     || bool_decide (store db !! key = None)
  then "none"
  else
    match store db !! key with
    | Some (StringType _) => "string"
    | Some (ListType _) => "list"
    | Some (SetType _) => "set"
    | Some (HashType _) => "hash"
    | None => "unknown"
    end.

(** The encoding of one bulk string and of an array of them, which the
    source spells out at each place it builds a reply. *)
Definition bulk (item : string) : string :=
  "$" +:+ to_string (string_size item) +:+ CRLF +:+ item +:+ CRLF.

Definition array_header (n : Z) : string := "*" +:+ to_string n +:+ CRLF.

Definition array_of (items : list string) : string :=
  array_header (Z.of_nat (length items)) +:+ string_concat (map bulk items).

Definition empty_array : string := "*0" +:+ CRLF.

(** *** List commands *)

Definition create_list_if_needed (key : string) (db : BlinkDB) : bool * BlinkDB :=
  match store db !! key with
  | None =>
      (true, with_bloom_filter (BloomFilter_add key)
               (with_store <[key := ListType []]> db))
  | Some (ListType _) => (true, db)
  | Some _ => (false, db)
  end.

(** After a [create_*_if_needed] that answered [true] the key holds a value
    of the wanted class; the last branch of the [match]es below is the null
    [dynamic_cast] that cannot happen. *)
Definition BlinkDB_lpush (key value : string) (db : BlinkDB) : string * BlinkDB :=
  let '(ok, db) := create_list_if_needed key db in
  if negb ok then (WRONGTYPE, db)
  else
    match store db !! key with
    | Some (ListType list) =>
        let list := ListType_lpush value list in
        let db := with_store <[key := ListType list]> db in
        let db := with_cache (LRUCache_access key) db in
        let db := evict_if_needed db in
        (to_string (ListType_llen list), db)
    | _ => (WRONGTYPE, db)
    end.

Definition BlinkDB_rpush (key value : string) (db : BlinkDB) : string * BlinkDB :=
  let '(ok, db) := create_list_if_needed key db in
  if negb ok then (WRONGTYPE, db)
  else
    match store db !! key with
    | Some (ListType list) =>
        let list := ListType_rpush value list in
        let db := with_store <[key := ListType list]> db in
        let db := with_cache (LRUCache_access key) db in
        let db := evict_if_needed db in
        (to_string (ListType_llen list), db)
    | _ => (WRONGTYPE, db)
    end.

Definition or_NULL (result : string) : string :=
  if String.eqb result "" then "NULL" else result.

Definition erase_key (key : string) (db : BlinkDB) : BlinkDB :=
  with_cache (LRUCache_remove key) (with_store (delete key) db).

Definition BlinkDB_lpop (key : string) (db : BlinkDB) : string * BlinkDB :=
  match store db !! key with
  | None => ("NULL", db)
  | Some (ListType list) =>
      let '(result, list) := ListType_lpop list in
      let db := with_store <[key := ListType list]> db in
      let db := with_cache (LRUCache_access key) db in
      let db := if ListType_llen list =? 0 then erase_key key db else db in
      (or_NULL result, db)
  | Some _ => (WRONGTYPE, db)
  end.

Definition BlinkDB_rpop (key : string) (db : BlinkDB) : string * BlinkDB :=
  match store db !! key with
  | None => ("NULL", db)
  | Some (ListType list) =>
      let '(result, list) := ListType_rpop list in
      let db := with_store <[key := ListType list]> db in
      let db := with_cache (LRUCache_access key) db in
      let db := if ListType_llen list =? 0 then erase_key key db else db in
      (or_NULL result, db)
  | Some _ => (WRONGTYPE, db)
  end.

Definition BlinkDB_lindex (key : string) (index : Z) (db : BlinkDB) : string * BlinkDB :=
  match store db !! key with
  | None => ("NULL", db)
  | Some (ListType list) =>
      let result := ListType_lindex index list in
      (or_NULL result, with_cache (LRUCache_access key) db)
  | Some _ => (WRONGTYPE, db)
  end.

Definition BlinkDB_llen (key : string) (db : BlinkDB) : string * BlinkDB :=
  match store db !! key with
  | None => ("0", db)
  | Some (ListType list) =>
      (to_string (ListType_llen list), with_cache (LRUCache_access key) db)
  | Some _ => (WRONGTYPE, db)
  end.

Definition BlinkDB_lrange (key : string) (start end_ : Z) (db : BlinkDB)
    : string * BlinkDB :=
  match store db !! key with
  | None => (empty_array, db)
  | Some (ListType list) =>
      let results := ListType_lrange start end_ list in
      (array_of results, with_cache (LRUCache_access key) db)
  | Some _ => (WRONGTYPE, db)
  end.

(** *** Set commands *)

Definition create_set_if_needed (key : string) (db : BlinkDB) : bool * BlinkDB :=
  match store db !! key with
  | None =>
      (true, with_bloom_filter (BloomFilter_add key)
               (with_store <[key := SetType ∅]> db))
  | Some (SetType _) => (true, db)
  | Some _ => (false, db)
  end.

Definition bit (b : bool) : string := if b then "1" else "0".

Definition BlinkDB_sadd (key value : string) (db : BlinkDB) : string * BlinkDB :=
  let '(ok, db) := create_set_if_needed key db in
  if negb ok then (WRONGTYPE, db)
  else
    match store db !! key with
    | Some (SetType set) =>
        let '(added, set) := SetType_sadd value set in
        let db := with_store <[key := SetType set]> db in
        let db := with_cache (LRUCache_access key) db in
        let db := evict_if_needed db in
        (bit added, db)
    | _ => (WRONGTYPE, db)
    end.

Definition BlinkDB_sismember (key value : string) (db : BlinkDB) : string * BlinkDB :=
  match store db !! key with
  | None => ("0", db)
  | Some (SetType set) =>
      (bit (SetType_sismember value set), with_cache (LRUCache_access key) db)
  | Some _ => (WRONGTYPE, db)
  end.

Definition BlinkDB_srem (key value : string) (db : BlinkDB) : string * BlinkDB :=
  match store db !! key with
  | None => ("0", db)
  | Some (SetType set) =>
      let '(removed, set) := SetType_srem value set in
      let db := with_store <[key := SetType set]> db in
      let db := with_cache (LRUCache_access key) db in
      let db := if SetType_scard set =? 0 then erase_key key db else db in
      (bit removed, db)
  | Some _ => (WRONGTYPE, db)
  end.

Definition BlinkDB_scard (key : string) (db : BlinkDB) : string * BlinkDB :=
  match store db !! key with
  | None => ("0", db)
  | Some (SetType set) =>
      (to_string (SetType_scard set), with_cache (LRUCache_access key) db)
  | Some _ => (WRONGTYPE, db)
  end.

Definition BlinkDB_smembers (key : string) (db : BlinkDB) : string * BlinkDB :=
  match store db !! key with
  | None => (empty_array, db)
  | Some (SetType set) =>
      (array_of (SetType_smembers set), with_cache (LRUCache_access key) db)
  | Some _ => (WRONGTYPE, db)
  end.

(** *** Hash commands *)

Definition create_hash_if_needed (key : string) (db : BlinkDB) : bool * BlinkDB :=
  match store db !! key with
  | None =>
      (true, with_bloom_filter (BloomFilter_add key)
               (with_store <[key := HashType ∅]> db))
  | Some (HashType _) => (true, db)
  | Some _ => (false, db)
  end.

Definition BlinkDB_hset (key field value : string) (db : BlinkDB) : string * BlinkDB :=
  let '(ok, db) := create_hash_if_needed key db in
  if negb ok then (WRONGTYPE, db)
  else
    match store db !! key with
    | Some (HashType hash) =>
        let '(added, hash) := HashType_hset field value hash in
        let db := with_store <[key := HashType hash]> db in
        let db := with_cache (LRUCache_access key) db in
        let db := evict_if_needed db in
        (bit added, db)
    | _ => (WRONGTYPE, db)
    end.

Definition BlinkDB_hget (key field : string) (db : BlinkDB) : string * BlinkDB :=
  match store db !! key with
  | None => ("NULL", db)
  | Some (HashType hash) =>
      (or_NULL (HashType_hget field hash), with_cache (LRUCache_access key) db)
  | Some _ => (WRONGTYPE, db)
  end.

Definition BlinkDB_hexists (key field : string) (db : BlinkDB) : string * BlinkDB :=
  match store db !! key with
  | None => ("0", db)
  | Some (HashType hash) =>
      (bit (HashType_hexists field hash), with_cache (LRUCache_access key) db)
  | Some _ => (WRONGTYPE, db)
  end.

Definition BlinkDB_hdel (key field : string) (db : BlinkDB) : string * BlinkDB :=
  match store db !! key with
  | None => ("0", db)
  | Some (HashType hash) =>
      let '(removed, hash) := HashType_hdel field hash in
      let db := with_store <[key := HashType hash]> db in
      let db := with_cache (LRUCache_access key) db in
      let db := if HashType_hlen hash =? 0 then erase_key key db else db in
      (bit removed, db)
  | Some _ => (WRONGTYPE, db)
  end.

Definition BlinkDB_hlen (key : string) (db : BlinkDB) : string * BlinkDB :=
  match store db !! key with
  | None => ("0", db)
  | Some (HashType hash) =>
      (to_string (HashType_hlen hash), with_cache (LRUCache_access key) db)
  | Some _ => (WRONGTYPE, db)
  end.

Definition BlinkDB_hkeys (key : string) (db : BlinkDB) : string * BlinkDB :=
  match store db !! key with
  | None => (empty_array, db)
  | Some (HashType hash) =>
      (array_of (HashType_hkeys hash), with_cache (LRUCache_access key) db)
  | Some _ => (WRONGTYPE, db)
  end.

Definition BlinkDB_hvals (key : string) (db : BlinkDB) : string * BlinkDB :=
  match store db !! key with
  | None => (empty_array, db)
  | Some (HashType hash) =>
      (array_of (HashType_hvals hash), with_cache (LRUCache_access key) db)
  | Some _ => (WRONGTYPE, db)
  end.

Definition BlinkDB_hgetall (key : string) (db : BlinkDB) : string * BlinkDB :=
  match store db !! key with
  | None => (empty_array, db)
  | Some (HashType hash) =>
      let fields := HashType_hgetall hash in
      (array_header (size_t (Z.of_nat (length fields) * 2)) +:+
         string_concat (map (fun '(field, value) => bulk field +:+ bulk value) fields),
       with_cache (LRUCache_access key) db)
  | Some _ => (WRONGTYPE, db)
  end.

(** *** Persistence

    The file is its text. [save_to_disk] writes one line per key;
    [load_from_disk] reads the lines back into the store it is given, and
    finds no file at all when [file] is [None]. *)

Definition serialize (value : DataType) : string :=
  match value with
  | StringType value => value
  | ListType elements => ListType_serialize elements
  | SetType elements => SetType_serialize elements
  | HashType fields => HashType_serialize fields
  end.

Definition type_char (value : DataType) : string :=
  match value with
  | StringType _ => "S"
  | ListType _ => "L"
  | SetType _ => "E"
  | HashType _ => "H"
  end.

Definition save_to_disk (db : BlinkDB) : string :=
  string_concat
    (map (fun '(key, value) =>
            type_char value +:+ " " +:+ key +:+ " " +:+ serialize value +:+ String LF "")
         (map_to_list (store db))).

Definition load_line (fuel : nat) (line : string) (db : BlinkDB) : option (outcome BlinkDB) :=
  if string_size line <? 3 then Some (Done db)
  else
    let first_space := find line " " 0 in
    let second_space := find line " " (size_t (first_space + 1)) in
    if (first_space =? npos) || (second_space =? npos) then Some (Done db)
    else
      run! key ← Some (substr line (first_space + 1) (size_t (second_space - first_space - 1)));
      run! data ← Some (substr line (second_space + 1) npos);
      run! value ←
        match line with
        | String "S"%char _ => Some (Done (Some (StringType data)))
        | String "L"%char _ =>
            run! elements ← ListType_deserialize fuel data; Some (Done (Some (ListType elements)))
        | String "E"%char _ =>
            run! elements ← SetType_deserialize fuel data; Some (Done (Some (SetType elements)))
        | String "H"%char _ =>
            run! fields ← HashType_deserialize fuel data; Some (Done (Some (HashType fields)))
        | _ => Some (Done None)
        end;
      match value with
      | None => Some (Done db)
      | Some value =>
          Some (Done (with_bloom_filter (BloomFilter_add key)
                        (with_cache (LRUCache_access key)
                           (with_store <[key := value]> db))))
      end.

Fixpoint load_lines (fuel : nat) (lines : list string) (db : BlinkDB) : option (outcome BlinkDB) :=
  match lines with
  | [] => Some (Done db)
  | line :: lines' => run! db ← load_line fuel line db; load_lines fuel lines' db
  end.

Definition load_from_disk (fuel : nat) (file : option string) (db : BlinkDB)
    : option (outcome BlinkDB) :=
  match file with
  | None => Some (Done db)
  | Some text => load_lines fuel (getlines text) db
  end.

(** ** [CommandHandler]

    The three ways [process_command] turns the string a [BlinkDB] command
    returned into a reply; the source repeats them in every branch. *)

Definition is_WRONGTYPE (result : string) : bool :=
  String.eqb (prefix_of 9 result) "WRONGTYPE".

Definition error_reply (result : string) : string := "-" +:+ result +:+ CRLF.

Definition bulk_reply (result : string) : string :=
  if String.eqb result "NULL" then "$-1" +:+ CRLF
  else if is_WRONGTYPE result then error_reply result
  else bulk result.

Definition integer_reply (result : string) : string :=
  if is_WRONGTYPE result then error_reply result
  else ":" +:+ result +:+ CRLF.

Definition array_reply (result : string) : string :=
  if is_WRONGTYPE result then error_reply result else result.

Definition reply (encode : string → string) (r : string * BlinkDB)
    : outcome (string * BlinkDB) :=
  Done (encode r.1, r.2).

Local Close Scope Z_scope.

(** The body of the [try] block: the chain of [else if]s on the command name
    and the number of tokens. *)
Definition dispatch (command_parts : list string) (db : BlinkDB)
    : outcome (string * BlinkDB) :=
  let part i := nth i command_parts "" in
  let n := length command_parts in
  let cmd := transform tolower (part 0) in
  if String.eqb cmd "set" && (3 <=? n) then
    Done ("+OK" +:+ CRLF, BlinkDB_set (part 1) (part 2) db)
  else if String.eqb cmd "get" && (2 <=? n) then
    reply bulk_reply (BlinkDB_get (part 1) db)
  else if String.eqb cmd "del" && (2 <=? n) then
    Done (":1" +:+ CRLF, BlinkDB_del (part 1) db)
  else if String.eqb cmd "type" && (2 <=? n) then
    Done ("+" +:+ BlinkDB_type (part 1) db +:+ CRLF, db)
  else if String.eqb cmd "lpush" && (3 <=? n) then
    reply integer_reply (BlinkDB_lpush (part 1) (part 2) db)
  else if String.eqb cmd "rpush" && (3 <=? n) then
    reply integer_reply (BlinkDB_rpush (part 1) (part 2) db)
  else if String.eqb cmd "lpop" && (2 <=? n) then
    reply bulk_reply (BlinkDB_lpop (part 1) db)
  else if String.eqb cmd "rpop" && (2 <=? n) then
    reply bulk_reply (BlinkDB_rpop (part 1) db)
  else if String.eqb cmd "lindex" && (3 <=? n) then
    try! index ← stoi (part 2);
    reply bulk_reply (BlinkDB_lindex (part 1) index db)
  else if String.eqb cmd "llen" && (2 <=? n) then
    reply integer_reply (BlinkDB_llen (part 1) db)
  else if String.eqb cmd "lrange" && (4 <=? n) then
    try! start ← stoi (part 2);
    try! end_ ← stoi (part 3);
    reply array_reply (BlinkDB_lrange (part 1) start end_ db)
  else if String.eqb cmd "sadd" && (3 <=? n) then
    reply integer_reply (BlinkDB_sadd (part 1) (part 2) db)
  else if String.eqb cmd "sismember" && (3 <=? n) then
    reply integer_reply (BlinkDB_sismember (part 1) (part 2) db)
  else if String.eqb cmd "srem" && (3 <=? n) then
    reply integer_reply (BlinkDB_srem (part 1) (part 2) db)
  else if String.eqb cmd "scard" && (2 <=? n) then
    reply integer_reply (BlinkDB_scard (part 1) db)
  else if String.eqb cmd "smembers" && (2 <=? n) then
    reply array_reply (BlinkDB_smembers (part 1) db)
  else if String.eqb cmd "hset" && (4 <=? n) then
    reply integer_reply (BlinkDB_hset (part 1) (part 2) (part 3) db)
  else if String.eqb cmd "hget" && (3 <=? n) then
    reply bulk_reply (BlinkDB_hget (part 1) (part 2) db)
  else if String.eqb cmd "hexists" && (3 <=? n) then
    reply integer_reply (BlinkDB_hexists (part 1) (part 2) db)
  else if String.eqb cmd "hdel" && (3 <=? n) then
    reply integer_reply (BlinkDB_hdel (part 1) (part 2) db)
  else if String.eqb cmd "hlen" && (2 <=? n) then
    reply integer_reply (BlinkDB_hlen (part 1) db)
  else if String.eqb cmd "hkeys" && (2 <=? n) then
    reply array_reply (BlinkDB_hkeys (part 1) db)
  else if String.eqb cmd "hvals" && (2 <=? n) then
    reply array_reply (BlinkDB_hvals (part 1) db)
  else if String.eqb cmd "hgetall" && (2 <=? n) then
    reply array_reply (BlinkDB_hgetall (part 1) db)
  else if String.eqb cmd "ping" then
    Done ("+PONG" +:+ CRLF, db)
  else
    Done ("-ERR unknown command '" +:+ cmd +:+ "'" +:+ CRLF, db).

(** What [process_command] does with the tokens of the line. *)
Definition process_parts (command_parts : list string) (db : BlinkDB)
    : string * BlinkDB :=
  match command_parts with
  | [] => ("-ERR empty command" +:+ CRLF, db)
  | _ =>
      match dispatch command_parts db with
      | Done r => r
      | Threw e => ("-ERR " +:+ what e +:+ CRLF, db)
      end
  end.

Definition process_command (command_str : string) (db : BlinkDB)
    : string * BlinkDB :=
  process_parts (tokenize command_str) db.

(** A session: the replies to a sequence of request lines, and the final
    state. *)
Fixpoint process_commands (lines : list string) (db : BlinkDB)
    : list string * BlinkDB :=
  match lines with
  | [] => ([], db)
  | line :: lines' =>
      let '(r, db) := process_command line db in
      let '(rs, db) := process_commands lines' db in
      (r :: rs, db)
  end.

Local Open Scope Z_scope.

End BlinkDB.

(** * The vocabulary of the properties *)

(** ** Request lines

    [request parts] is the line that holds the tokens [parts], one blank
    between two of them. A token is a non-empty string without white space. *)

Fixpoint no_space (s : string) : bool :=
  match s with
  | EmptyString => true
  | String c s' => negb (isspace c) && no_space s'
  end.

Definition is_token (s : string) : Prop := s ≠ "" ∧ no_space s = true.

Fixpoint request (parts : list string) : string :=
  match parts with
  | [] => ""
  | [p] => p
  | p :: parts' => p +:+ " " +:+ request parts'
  end.

(** ** Invariants of the state

    The tracker holds no key twice and no more keys than its bound. *)
Definition cache_ok (c : LRUCache) : Prop :=
  NoDup (lru_cache c) ∧ (length (lru_cache c) ≤ max_size c)%nat.

(** Every key of the store has been added to the filter. *)
Definition covered (hasher : string → N) (db : BlinkDB) : Prop :=
  ∀ key, is_Some (store db !! key) →
         BloomFilter_contains hasher key (bloom_filter db) = true.

(** The state invariant: the constructor's state has it and every command
    keeps it. *)
Definition db_inv (hasher : string → N) (db : BlinkDB) : Prop :=
  cache_ok (cache db) ∧ max_size (cache db) = CACHE_SIZE ∧ covered hasher db.

(** No key is bound to an empty list, set or hash. *)
Definition nonempty (value : DataType) : Prop :=
  match value with
  | StringType _ => True
  | ListType elements => elements ≠ []
  | SetType elements => elements ≠ ∅
  | HashType fields => fields ≠ ∅
  end.

Definition no_empty (db : BlinkDB) : Prop :=
  ∀ key value, store db !! key = Some value → nonempty value.

Definition store_no_empty (m : gmap string DataType) : Prop :=
  ∀ key value, m !! key = Some value → nonempty value.

(** Two states that the replies cannot tell apart: the same store and the
    same filter. *)
Definition same_data (db1 db2 : BlinkDB) : Prop :=
  store db1 = store db2 ∧ bloom_filter db1 = bloom_filter db2.

Definition same_result (r1 r2 : string * BlinkDB) : Prop :=
  r1.1 = r2.1 ∧ same_data r1.2 r2.2.

(** ** [LRANGE] as the specification words it

    Negative indices count from the end, and both bounds are clamped into
    [[0, len - 1]]. *)
Definition clamp (lo hi x : Z) : Z := Z.max lo (Z.min hi x).

Definition lrange_spec (start end_ : Z) (elements : list string) : list string :=
  let len := Z.of_nat (length elements) in
  let start := if start <? 0 then len + start else start in
  let end_ := if end_ <? 0 then len + end_ else end_ in
  let start := clamp 0 (len - 1) start in
  let end_ := clamp 0 (len - 1) end_ in
  if end_ <? start then []
  else take (Z.to_nat (end_ + 1 - start)) (drop (Z.to_nat start) elements).

Local Close Scope Z_scope.

(** ** The commands of the protocol

    Each command with the number of arguments it needs (the command name
    not counted). *)
Definition commands : list (string * nat) :=
  [("set", 2); ("get", 1); ("del", 1); ("type", 1);
   ("lpush", 2); ("rpush", 2); ("lpop", 1); ("rpop", 1); ("lindex", 2);
   ("llen", 1); ("lrange", 3);
   ("sadd", 2); ("sismember", 2); ("srem", 2); ("scard", 1); ("smembers", 1);
   ("hset", 3); ("hget", 2); ("hexists", 2); ("hdel", 2); ("hlen", 1);
   ("hkeys", 1); ("hvals", 1); ("hgetall", 1);
   ("ping", 0)].

Definition command_name (command_parts : list string) : string :=
  transform tolower (nth 0 command_parts "").

(** The kind of value each command works on; [SET], [DEL], [TYPE] and [PING]
    work on any. *)
Definition kinds : list (string * ValueType) :=
  [("get", STRING);
   ("lpush", LIST); ("rpush", LIST); ("lpop", LIST); ("rpop", LIST);
   ("lindex", LIST); ("llen", LIST); ("lrange", LIST);
   ("sadd", SET); ("sismember", SET); ("srem", SET); ("scard", SET);
   ("smembers", SET);
   ("hset", HASH); ("hget", HASH); ("hexists", HASH); ("hdel", HASH);
   ("hlen", HASH); ("hkeys", HASH); ("hvals", HASH); ("hgetall", HASH)].

Fixpoint assoc {A} (key : string) (l : list (string * A)) : option A :=
  match l with
  | [] => None
  | (k, a) :: l' => if String.eqb k key then Some a else assoc key l'
  end.

Definition required_kind (cmd : string) : option ValueType := assoc cmd kinds.

(** The arguments that must be numbers are numbers: the index of [LINDEX]
    and the bounds of [LRANGE]. *)
Definition numeric (command_parts : list string) (i : nat) : Prop :=
  ∃ z, stoi (nth i command_parts "") = Done z.

Definition numbers_ok (command_parts : list string) : Prop :=
  (command_name command_parts = "lindex" → numeric command_parts 2)
  ∧ (command_name command_parts = "lrange" →
     numeric command_parts 2 ∧ numeric command_parts 3).

(** The texts a bulk reply carries as they are: not the word [NULL], by
    which the commands report absence, and not a text that begins with
    [WRONGTYPE], which is sent as an error. *)
Definition plain (text : string) : Prop :=
  text ≠ "NULL" ∧ is_WRONGTYPE text = false.

(** An index of [LINDEX] or a bound of [LRANGE] that [std::stoi] rejects. *)
Definition rejected (command_parts : list string) (i : nat) : Prop :=
  ∃ e, stoi (nth i command_parts "") = Threw e.

Definition bad_number (command_parts : list string) : Prop :=
  (command_name command_parts = "lindex" ∧ rejected command_parts 2)
  ∨ (command_name command_parts = "lrange"
     ∧ (rejected command_parts 2 ∨ rejected command_parts 3)).

(** The number of elements of a value, and what the four removing commands
    leave of a value of their kind. *)
Definition count (value : DataType) : nat :=
  match value with
  | StringType _ => 1
  | ListType elements => length elements
  | SetType elements => base.size elements
  | HashType fields => base.size fields
  end.

Definition removal (cmd arg : string) (value : DataType) : option DataType :=
  match value with
  | ListType elements =>
      if String.eqb cmd "lpop" then Some (ListType (tail elements))
      else if String.eqb cmd "rpop" then Some (ListType (removelast elements))
      else None
  | SetType elements =>
      if String.eqb cmd "srem" then Some (SetType (elements ∖ {[arg]})) else None
  | HashType fields =>
      if String.eqb cmd "hdel" then Some (HashType (delete arg fields)) else None
  | StringType _ => None
  end.

(** ** A session that overflows the cache

    [SET]s of [CACHE_SIZE + 1] distinct keys. *)
Definition overflow_keys : list string :=
  (λ i, to_string (Z.of_nat i)) <$> seq 0 (S CACHE_SIZE).

Definition overflow_session : list string :=
  (λ key, request ["SET"; key; "v"]) <$> overflow_keys.

(** ** The tracker and the store

    Every key of the tracker is a key of the store. *)
Definition tracked_stored (db : BlinkDB) : Prop :=
  ∀ key, key ∈ lru_cache (cache db) → is_Some (store db !! key).

(** The list, set or hash a command of that kind finds at a key: the stored
    one, the empty one when the key is absent, none when the key holds a
    value of another kind. *)
Definition list_at (db : BlinkDB) (key : string) : option (list string) :=
  match store db !! key with
  | None => Some []
  | Some (ListType elements) => Some elements
  | Some _ => None
  end.

Definition set_at (db : BlinkDB) (key : string) : option (gset string) :=
  match store db !! key with
  | None => Some ∅
  | Some (SetType elements) => Some elements
  | Some _ => None
  end.

Definition hash_at (db : BlinkDB) (key : string) : option (gmap string string) :=
  match store db !! key with
  | None => Some ∅
  | Some (HashType fields) => Some fields
  | Some _ => None
  end.

(** The name [TYPE] gives to the kind of a value. *)
Definition kind_name (value : DataType) : string :=
  match value with
  | StringType _ => "string"
  | ListType _ => "list"
  | SetType _ => "set"
  | HashType _ => "hash"
  end.

(** ** The persistence file

    [lacks c s]: the character [c] does not occur in [s]. *)
Fixpoint lacks (c : ascii) (s : string) : bool :=
  match s with
  | EmptyString => true
  | String a s' => negb (Ascii.eqb a c) && lacks c s'
  end.

(** The line [save_to_disk] writes for an entry, without its newline. *)
Definition entry_line (key : string) (value : DataType) : string :=
  type_char value +:+ " " +:+ key +:+ " " +:+ serialize value.

(** The entries that [load_from_disk] can read back: the key holds neither a
    blank nor a newline, the value no newline, the lengths fit the integer
    types of the parser, and the value is no hash. *)
Definition text_ok (text : string) : Prop :=
  lacks LF text = true ∧ (string_size text ≤ INT_MAX)%Z.

Definition savable (key : string) (value : DataType) : Prop :=
  lacks " " key = true ∧ lacks LF key = true
  ∧ (string_size (entry_line key value) < npos)%Z
  ∧ match value with
    | StringType value => lacks LF value = true
    | ListType elements => Forall text_ok elements
    | SetType elements => set_Forall text_ok elements
    | HashType _ => False
    end.

(** The rounds the deserialiser of a value needs. *)
Definition rounds (value : DataType) : nat :=
  match value with
  | StringType _ => 0
  | ListType elements => length elements
  | SetType elements => base.size elements
  | HashType fields => base.size fields
  end.

(** The commands that change the store or the filter. *)
Definition writers : list string :=
  ["set"; "del"; "lpush"; "rpush"; "lpop"; "rpop"; "sadd"; "srem"; "hset"; "hdel"].

(** ** The buffer of a client ([main])

    The bytes read from a client are appended to its buffer; [main] then
    takes the commands that are complete, each one ended by ["\r\n"], off
    the front of the buffer, hands the non-empty ones to [process_command]
    and writes the replies. [find_CRLF] is [buffer.find("\r\n")]; the
    [while] loop runs on fuel. *)
Fixpoint find_CRLF (s : string) : option nat :=
  match s with
  | EmptyString => None
  | String c s' =>
      match s' with
      | String d _ =>
          if Ascii.eqb c CR && Ascii.eqb d LF then Some 0
          else option_map S (find_CRLF s')
      | EmptyString => None
      end
  end.

Fixpoint drain (hasher : string → N) (fuel : nat) (buffer : string) (db : BlinkDB)
    : option (list string * string * BlinkDB) :=
  match fuel with
  | O => None
  | S fuel' =>
      match find_CRLF buffer with
      | None => Some ([], buffer, db)
      | Some pos =>
          let command := string_take pos buffer in
          let buffer := string_drop (pos + 2) buffer in
          if String.eqb command "" then drain hasher fuel' buffer db
          else
            let '(response, db) := process_command hasher command db in
            match drain hasher fuel' buffer db with
            | Some (responses, buffer, db) => Some (response :: responses, buffer, db)
            | None => None
            end
      end
  end.

(** ** The texts of the store

    Every key and every text stored under it is a token. *)
Definition texts_ok (value : DataType) : Prop :=
  match value with
  | StringType value => is_token value
  | ListType elements => Forall is_token elements
  | SetType elements => set_Forall is_token elements
  | HashType fields => map_Forall (λ field value, is_token field ∧ is_token value) fields
  end.

Definition store_tokens (db : BlinkDB) : Prop :=
  map_Forall (λ key value, is_token key ∧ texts_ok value) (store db).

Local Open Scope Z_scope.

(** * Properties *)

(** ** Strings and tokens *)

Lemma append_nil (b : string) : "" +:+ b = b.
Proof. reflexivity. Qed.

Lemma append_cons (x : ascii) (a b : string) :
  String x a +:+ b = String x (a +:+ b).
Proof. reflexivity. Qed.

Lemma append_assoc (a b c : string) : (a +:+ b) +:+ c = a +:+ (b +:+ c).
Proof.
  induction a as [|x a IH]; [done |].
  rewrite !append_cons. by rewrite IH.
Qed.

Lemma append_empty_r (a : string) : a +:+ "" = a.
Proof.
  induction a as [|x a IH]; [done |].
  rewrite append_cons. by rewrite IH.
Qed.

Lemma split_tokens_token (t s cur : string) :
  no_space t = true →
  split_tokens (t +:+ s) cur = split_tokens s (cur +:+ t).
Proof.
  revert cur. induction t as [|c t IH]; intros cur Ht.
  - by rewrite append_nil, append_empty_r.
  - simpl in Ht. apply andb_prop in Ht as [Hc Ht].
    apply negb_true_iff in Hc.
    rewrite append_cons. simpl. rewrite Hc, IH by done.
    by rewrite append_assoc.
Qed.

Lemma split_tokens_blank (s cur : string) :
  cur ≠ "" → split_tokens (String " " s) cur = cur :: split_tokens s "".
Proof.
  intros Hcur. simpl.
  destruct (String.eqb_spec cur ""); [done | done].
Qed.

Lemma tokenize_request (parts : list string) :
  Forall is_token parts → tokenize (request parts) = parts.
Proof.
  unfold tokenize. induction 1 as [|p parts [Hne Hp] Hparts IH]; [done |].
  destruct parts as [|q parts].
  - simpl. rewrite <- (append_empty_r p) at 1.
    rewrite split_tokens_token by done. rewrite append_nil. simpl.
    destruct (String.eqb_spec p ""); done.
  - change (request (p :: q :: parts)) with (p +:+ String " " (request (q :: parts))).
    rewrite split_tokens_token by done. rewrite append_nil.
    rewrite split_tokens_blank by done. by rewrite IH.
Qed.

Lemma process_command_request (hasher : string → N) (parts : list string) db :
  Forall is_token parts →
  process_command hasher (request parts) db = process_parts hasher parts db.
Proof. intros H. unfold process_command. by rewrite tokenize_request. Qed.

(** ** The LRU cache *)

Lemma erase_subseteq key l : erase key l ⊆ l.
Proof.
  induction l as [|k l IH]; simpl; [done |].
  destruct (String.eqb k key); intros x Hx.
  - apply elem_of_cons. by right.
  - apply elem_of_cons in Hx as [->|Hx]; apply elem_of_cons; [by left |].
    right. by apply IH.
Qed.

Lemma erase_length key l : (length (erase key l) ≤ length l)%nat.
Proof.
  induction l as [|k l IH]; simpl; [done |].
  destruct (String.eqb k key); simpl; lia.
Qed.

Lemma erase_length_elem key l :
  key ∈ l → length (erase key l) = pred (length l).
Proof.
  induction l as [|k l IH]; simpl; [by intros ?%elem_of_nil |].
  destruct (String.eqb_spec k key) as [->|Hne]; [done |].
  intros [?|Hin]%elem_of_cons; [congruence |].
  simpl. rewrite IH by done. destruct l; [by apply elem_of_nil in Hin | done].
Qed.

Lemma erase_NoDup key l : NoDup l → NoDup (erase key l) ∧ key ∉ erase key l.
Proof.
  induction 1 as [|k l Hk Hl IH]; simpl.
  - split; [constructor | apply not_elem_of_nil].
  - destruct (String.eqb_spec k key) as [->|Hne]; [done |].
    destruct IH as [IH1 IH2]. split.
    + constructor; [|done]. intros Hin. by apply Hk, (erase_subseteq key).
    + intros [E|E]%elem_of_cons; [congruence | done].
Qed.

Lemma erase_not_elem key l : key ∉ l → erase key l = l.
Proof.
  induction l as [|k l IH]; simpl; [done |].
  rewrite not_elem_of_cons. intros [Hne Hin].
  destruct (String.eqb_spec k key); [congruence | by rewrite IH].
Qed.

Lemma removelast_subseteq {A} (l : list A) : removelast l ⊆ l.
Proof.
  induction l as [|x [|y l] IH]; [done | |].
  - intros z Hz. by apply elem_of_nil in Hz.
  - intros z Hz. change (removelast (x :: y :: l)) with (x :: removelast (y :: l)) in Hz.
    apply elem_of_cons in Hz as [->|Hz]; apply elem_of_cons; [by left |].
    right. by apply IH.
Qed.

Lemma removelast_NoDup {A} (l : list A) : NoDup l → NoDup (removelast l).
Proof.
  induction 1 as [|x l Hx Hl IH]; simpl; [constructor |].
  destruct l as [|y l]; [constructor |].
  constructor; [|done]. intros Hin. by apply Hx, removelast_subseteq.
Qed.

Lemma removelast_length {A} (l : list A) : length (removelast l) = pred (length l).
Proof.
  induction l as [|x [|y l] IH]; simpl in *; [done | done | by rewrite IH].
Qed.

Lemma LRUCache_access_max_size key c :
  max_size (LRUCache_access key c) = max_size c.
Proof. done. Qed.

Lemma LRUCache_access_ok key c : cache_ok c → cache_ok (LRUCache_access key c).
Proof.
  intros [Hnd Hlen]. unfold cache_ok, LRUCache_access, LRUCache_contains.
  cbn [lru_cache max_size].
  set (l := if bool_decide (key ∈ lru_cache c)
            then erase key (lru_cache c) else lru_cache c).
  assert (NoDup (key :: l) ∧ (length l ≤ max_size c)%nat) as [Hnd' Hlen'].
  { subst l. case_bool_decide as Hin.
    - destruct (erase_NoDup key _ Hnd). split; [by constructor |].
      pose proof (erase_length key (lru_cache c)). lia.
    - split; [by constructor | done]. }
  destruct (Nat.ltb_spec (max_size c) (length (key :: l))) as [Hlt|Hge].
  - split; [by apply removelast_NoDup |].
    rewrite removelast_length. simpl in *. lia.
  - split; [done | simpl in *; lia].
Qed.

Lemma LRUCache_access_size key c :
  cache_ok c → (LRUCache_size (LRUCache_access key c) ≤ max_size c)%nat.
Proof. intros H. by destruct (LRUCache_access_ok key c H). Qed.

Lemma LRUCache_remove_ok key c : cache_ok c → cache_ok (LRUCache_remove key c).
Proof.
  intros [Hnd Hlen]. unfold LRUCache_remove, LRUCache_contains.
  case_bool_decide; [|done]. split; simpl.
  - by apply erase_NoDup.
  - pose proof (erase_length key (lru_cache c)). lia.
Qed.

Lemma LRUCache_remove_not_elem key c :
  cache_ok c → key ∉ lru_cache (LRUCache_remove key c).
Proof.
  intros [Hnd Hlen]. unfold LRUCache_remove, LRUCache_contains.
  case_bool_decide; [|done]. simpl. by apply erase_NoDup.
Qed.

(** ** The Bloom filter *)

Section Invariants.

Variable hasher : string → N.

Abbreviation filter_contains := (BloomFilter_contains hasher).
Abbreviation filter_add := (BloomFilter_add hasher).

Lemma BloomFilter_contains_add key filter :
  filter_contains key (filter_add key filter) = true.
Proof. apply N.setbit_eq. Qed.

Lemma BloomFilter_contains_mono key key' filter :
  filter_contains key filter = true →
  filter_contains key (filter_add key' filter) = true.
Proof.
  unfold BloomFilter_contains, BloomFilter_add. intros H.
  apply N.setbit_iff. by right.
Qed.

(** ** The state invariant *)

Lemma BlinkDB_new_inv : db_inv hasher BlinkDB_new.
Proof.
  split; [split; [constructor | simpl; lia] | split; [done |]].
  intros key [v Hv]. simpl in Hv. by rewrite lookup_empty in Hv.
Qed.

Lemma BlinkDB_new_no_empty : no_empty BlinkDB_new.
Proof. intros key v Hv. simpl in Hv. by rewrite lookup_empty in Hv. Qed.

Lemma evict_if_needed_id db :
  (LRUCache_size (cache db) ≤ CACHE_SIZE)%nat → evict_if_needed db = db.
Proof.
  intros H. unfold evict_if_needed.
  destruct (Nat.ltb_spec CACHE_SIZE (LRUCache_size (cache db))); [lia | done].
Qed.

Lemma evict_if_needed_touch key db :
  cache_ok (cache db) → max_size (cache db) = CACHE_SIZE →
  evict_if_needed (with_cache (LRUCache_access key) db)
  = with_cache (LRUCache_access key) db.
Proof.
  intros Hok Hmax. apply evict_if_needed_id. simpl.
  rewrite <- Hmax. by apply LRUCache_access_size.
Qed.

Lemma db_inv_touch key db :
  db_inv hasher db → db_inv hasher (with_cache (LRUCache_access key) db).
Proof.
  intros (Hok & Hmax & Hcov). split; [by apply LRUCache_access_ok |].
  split; [done | done].
Qed.

Lemma db_inv_update key value db :
  db_inv hasher db → is_Some (store db !! key) →
  db_inv hasher (with_store <[key := value]> db).
Proof.
  intros (Hok & Hmax & Hcov) Hkey. split; [done | split; [done |]].
  intros k. simpl. rewrite lookup_insert.
  case_decide as Hk; [subst; intros _; by apply Hcov | apply Hcov].
Qed.

Lemma db_inv_create key value db :
  db_inv hasher db →
  db_inv hasher (with_bloom_filter (filter_add key)
            (with_store <[key := value]> db)).
Proof.
  intros (Hok & Hmax & Hcov). split; [done | split; [done |]].
  intros k. simpl. rewrite lookup_insert.
  case_decide as Hk; [subst; intros _; apply BloomFilter_contains_add |].
  intros H. by apply BloomFilter_contains_mono, Hcov.
Qed.

Lemma db_inv_erase key db : db_inv hasher db → db_inv hasher (erase_key key db).
Proof.
  intros (Hok & Hmax & Hcov). split; [by apply LRUCache_remove_ok |].
  split.
  - simpl. unfold LRUCache_remove. by case_match.
  - intros k. simpl. rewrite lookup_delete.
    case_decide; [by intros [? ?] | apply Hcov].
Qed.

(** Under the invariant [evict_if_needed] finds nothing to do: the tracker
    has already dropped its oldest key inside [access]. *)
Lemma evict_if_needed_inv db : db_inv hasher db → evict_if_needed db = db.
Proof.
  intros ([_ Hlen] & Hmax & _). apply evict_if_needed_id.
  unfold LRUCache_size. lia.
Qed.

Lemma db_inv_set key value db : db_inv hasher db → db_inv hasher (BlinkDB_set hasher key value db).
Proof.
  intros (Hok & Hmax & Hcov). unfold BlinkDB_set.
  rewrite evict_if_needed_touch by done.
  split; [by apply LRUCache_access_ok | split; [done |]].
  intros k. simpl. rewrite lookup_insert.
  case_decide as Hk; [subst; intros _; apply BloomFilter_contains_add |].
  intros H. by apply BloomFilter_contains_mono, Hcov.
Qed.

Ltac db_inv_step :=
  first
    [ assumption
    | apply db_inv_touch
    | apply db_inv_erase
    | apply db_inv_create
    | apply db_inv_update; [| simpl; rewrite ?lookup_insert_eq; by eauto ]
    | rewrite evict_if_needed_inv ].

Ltac db_inv_op :=
  intros Hinv;
  repeat match goal with
         | |- context [store ?db !! ?k] =>
             is_var db; destruct (store db !! k) as [[]|] eqn:?; simpl
         end;
  simpl; rewrite ?lookup_insert_eq; simpl;
  repeat case_match; simpl;
  repeat db_inv_step.

Lemma db_inv_get key db : db_inv hasher db → db_inv hasher (BlinkDB_get hasher key db).2.
Proof. unfold BlinkDB_get. db_inv_op. Qed.

Lemma db_inv_del key db : db_inv hasher db → db_inv hasher (BlinkDB_del key db).
Proof. intros. by apply db_inv_erase. Qed.

Lemma db_inv_lpush key value db :
  db_inv hasher db → db_inv hasher (BlinkDB_lpush hasher key value db).2.
Proof. unfold BlinkDB_lpush, create_list_if_needed. db_inv_op. Qed.

Lemma db_inv_rpush key value db :
  db_inv hasher db → db_inv hasher (BlinkDB_rpush hasher key value db).2.
Proof. unfold BlinkDB_rpush, create_list_if_needed. db_inv_op. Qed.

Lemma db_inv_lpop key db : db_inv hasher db → db_inv hasher (BlinkDB_lpop key db).2.
Proof. unfold BlinkDB_lpop. db_inv_op. Qed.

Lemma db_inv_rpop key db : db_inv hasher db → db_inv hasher (BlinkDB_rpop key db).2.
Proof. unfold BlinkDB_rpop. db_inv_op. Qed.

Lemma db_inv_lindex key index db : db_inv hasher db → db_inv hasher (BlinkDB_lindex key index db).2.
Proof. unfold BlinkDB_lindex. db_inv_op. Qed.

Lemma db_inv_llen key db : db_inv hasher db → db_inv hasher (BlinkDB_llen key db).2.
Proof. unfold BlinkDB_llen. db_inv_op. Qed.

Lemma db_inv_lrange key start end_ db :
  db_inv hasher db → db_inv hasher (BlinkDB_lrange key start end_ db).2.
Proof. unfold BlinkDB_lrange. db_inv_op. Qed.

Lemma db_inv_sadd key value db :
  db_inv hasher db → db_inv hasher (BlinkDB_sadd hasher key value db).2.
Proof. unfold BlinkDB_sadd, create_set_if_needed. db_inv_op. Qed.

Lemma db_inv_sismember key value db :
  db_inv hasher db → db_inv hasher (BlinkDB_sismember key value db).2.
Proof. unfold BlinkDB_sismember. db_inv_op. Qed.

Lemma db_inv_srem key value db : db_inv hasher db → db_inv hasher (BlinkDB_srem key value db).2.
Proof. unfold BlinkDB_srem. db_inv_op. Qed.

Lemma db_inv_scard key db : db_inv hasher db → db_inv hasher (BlinkDB_scard key db).2.
Proof. unfold BlinkDB_scard. db_inv_op. Qed.

Lemma db_inv_smembers key db : db_inv hasher db → db_inv hasher (BlinkDB_smembers key db).2.
Proof. unfold BlinkDB_smembers. db_inv_op. Qed.

Lemma db_inv_hset key field value db :
  db_inv hasher db → db_inv hasher (BlinkDB_hset hasher key field value db).2.
Proof. unfold BlinkDB_hset, create_hash_if_needed. db_inv_op. Qed.

Lemma db_inv_hget key field db : db_inv hasher db → db_inv hasher (BlinkDB_hget key field db).2.
Proof. unfold BlinkDB_hget. db_inv_op. Qed.

Lemma db_inv_hexists key field db :
  db_inv hasher db → db_inv hasher (BlinkDB_hexists key field db).2.
Proof. unfold BlinkDB_hexists. db_inv_op. Qed.

Lemma db_inv_hdel key field db : db_inv hasher db → db_inv hasher (BlinkDB_hdel key field db).2.
Proof. unfold BlinkDB_hdel. db_inv_op. Qed.

Lemma db_inv_hlen key db : db_inv hasher db → db_inv hasher (BlinkDB_hlen key db).2.
Proof. unfold BlinkDB_hlen. db_inv_op. Qed.

Lemma db_inv_hkeys key db : db_inv hasher db → db_inv hasher (BlinkDB_hkeys key db).2.
Proof. unfold BlinkDB_hkeys. db_inv_op. Qed.

Lemma db_inv_hvals key db : db_inv hasher db → db_inv hasher (BlinkDB_hvals key db).2.
Proof. unfold BlinkDB_hvals. db_inv_op. Qed.

Lemma db_inv_hgetall key db : db_inv hasher db → db_inv hasher (BlinkDB_hgetall key db).2.
Proof. unfold BlinkDB_hgetall. db_inv_op. Qed.

Local Hint Resolve db_inv_set db_inv_get db_inv_del db_inv_lpush db_inv_rpush
  db_inv_lpop db_inv_rpop db_inv_lindex db_inv_llen db_inv_lrange db_inv_sadd
  db_inv_sismember db_inv_srem db_inv_scard db_inv_smembers db_inv_hset
  db_inv_hget db_inv_hexists db_inv_hdel db_inv_hlen db_inv_hkeys db_inv_hvals
  db_inv_hgetall : core.

(** Case analysis on the chain of tests of [dispatch]. *)
Ltac dispatch_cases :=
  unfold dispatch, reply;
  repeat match goal with
         | |- context [if ?c then _ else _] => destruct c
         | |- context [obind ?m _] => destruct m; simpl
         end.

Lemma db_inv_dispatch parts db r :
  db_inv hasher db → dispatch hasher parts db = Done r → db_inv hasher r.2.
Proof.
  intros Hinv. dispatch_cases; intros [= <-]; simpl; auto.
Qed.

Lemma db_inv_process_parts parts db :
  db_inv hasher db → db_inv hasher (process_parts hasher parts db).2.
Proof.
  intros Hinv. unfold process_parts. destruct parts as [|p parts]; [done |].
  destruct (dispatch _ _ _) eqn:Hd; [by eapply db_inv_dispatch | done].
Qed.

Lemma db_inv_process_command line db :
  db_inv hasher db → db_inv hasher (process_command hasher line db).2.
Proof. apply db_inv_process_parts. Qed.

Lemma db_inv_process_commands lines db :
  db_inv hasher db → db_inv hasher (process_commands hasher lines db).2.
Proof.
  revert db. induction lines as [|line lines IH]; intros db Hinv; [done |].
  simpl. destruct (process_command _ line db) as [r db1] eqn:H1.
  destruct (process_commands _ lines db1) as [rs db2] eqn:H2. simpl.
  change db2 with (rs, db2).2. rewrite <- H2. apply IH.
  change db1 with (r, db1).2. rewrite <- H1. by apply db_inv_process_command.
Qed.

(** A state that [load_from_disk] returns has the invariant too. *)
Lemma db_inv_loaded key value db :
  db_inv hasher db →
  db_inv hasher (with_bloom_filter (filter_add key)
                   (with_cache (LRUCache_access key)
                      (with_store <[key := value]> db))).
Proof.
  intros (Hok & Hmax & Hcov).
  split; [by apply LRUCache_access_ok | split; [done |]].
  intros k. simpl. rewrite lookup_insert.
  case_decide as Hk; [subst; intros _; apply BloomFilter_contains_add |].
  intros H. by apply BloomFilter_contains_mono, Hcov.
Qed.

Lemma db_inv_load_line fuel line db db' :
  db_inv hasher db → load_line hasher fuel line db = Some (Done db') →
  db_inv hasher db'.
Proof.
  intros Hinv. unfold load_line, fbind.
  repeat case_match; intros [= <-]; try done; by apply db_inv_loaded.
Qed.

Lemma db_inv_load_lines fuel lines db db' :
  db_inv hasher db → load_lines hasher fuel lines db = Some (Done db') →
  db_inv hasher db'.
Proof.
  revert db. induction lines as [|line lines IH]; intros db Hinv; simpl.
  - by intros [= <-].
  - destruct (load_line hasher fuel line db) as [[db1|e]|] eqn:Hline; simpl; [|done..].
    intros Hrest. eapply IH; [|done]. by eapply db_inv_load_line.
Qed.

Lemma db_inv_load_from_disk fuel file db' :
  load_from_disk hasher fuel file BlinkDB_new = Some (Done db') →
  db_inv hasher db'.
Proof.
  destruct file as [text|]; simpl.
  - apply db_inv_load_lines, BlinkDB_new_inv.
  - intros [= <-]. apply BlinkDB_new_inv.
Qed.

(** ** No key bound to an empty collection *)

Lemma store_no_empty_insert key value m :
  store_no_empty m → nonempty value → store_no_empty (<[key := value]> m).
Proof.
  intros Hm Hv k v. rewrite lookup_insert.
  case_decide; [by intros [= <-] | apply Hm].
Qed.

Lemma store_no_empty_delete key m :
  store_no_empty m → store_no_empty (delete key m).
Proof.
  intros Hm k v. rewrite lookup_delete. case_decide; [done | apply Hm].
Qed.

Lemma to_int_0 : to_int 0 = 0.
Proof. reflexivity. Qed.

Lemma llen_nonzero l : (ListType_llen l =? 0) = false → nonempty (ListType l).
Proof. intros H ->. by rewrite Z.eqb_neq in H. Qed.

Lemma scard_nonzero s : (SetType_scard s =? 0) = false → nonempty (SetType s).
Proof.
  intros H ->. apply Z.eqb_neq in H. apply H.
  unfold SetType_scard. by rewrite size_empty.
Qed.

Lemma hlen_nonzero m : (HashType_hlen m =? 0) = false → nonempty (HashType m).
Proof.
  intros H ->. apply Z.eqb_neq in H. apply H.
  unfold HashType_hlen. by rewrite map_size_empty.
Qed.

Lemma nonempty_lpush value l : nonempty (ListType (ListType_lpush value l)).
Proof. done. Qed.

Lemma nonempty_rpush value l : nonempty (ListType (ListType_rpush value l)).
Proof. by destruct l. Qed.

Lemma nonempty_sadd value (s : gset string) : nonempty (SetType ({[value]} ∪ s)).
Proof.
  simpl. intros H. apply (not_elem_of_empty (C := gset string) value).
  rewrite <- H. apply elem_of_union. left. by apply elem_of_singleton.
Qed.

Lemma nonempty_hset field value (m : gmap string string) :
  nonempty (HashType (<[field := value]> m)).
Proof. apply insert_non_empty. Qed.

Ltac no_empty_op :=
  intros Hinv Hne;
  repeat match goal with
         | |- context [store ?db !! ?k] =>
             is_var db; destruct (store db !! k) as [[]|] eqn:?; simpl
         end;
  simpl; rewrite ?lookup_insert_eq; simpl;
  repeat case_match; simpl;
  rewrite ?evict_if_needed_inv by (repeat db_inv_step);
  try assumption;
  unfold no_empty; simpl;
  rewrite ?insert_insert_eq, ?delete_insert_eq;
  repeat first
    [ assumption
    | apply store_no_empty_delete
    | apply store_no_empty_insert ];
  eauto using llen_nonzero, scard_nonzero, hlen_nonzero, nonempty_lpush,
    nonempty_rpush, nonempty_sadd, nonempty_hset.

Lemma no_empty_set key value db :
  db_inv hasher db → no_empty db → no_empty (BlinkDB_set hasher key value db).
Proof.
  intros (Hok & Hmax & _) Hne. unfold BlinkDB_set.
  rewrite evict_if_needed_touch by done.
  by apply store_no_empty_insert.
Qed.

Lemma no_empty_get key db :
  db_inv hasher db → no_empty db → no_empty (BlinkDB_get hasher key db).2.
Proof. unfold BlinkDB_get. no_empty_op. Qed.

Lemma no_empty_del key db : no_empty db → no_empty (BlinkDB_del key db).
Proof. intros. by apply store_no_empty_delete. Qed.

Lemma no_empty_lpush key value db :
  db_inv hasher db → no_empty db → no_empty (BlinkDB_lpush hasher key value db).2.
Proof. unfold BlinkDB_lpush, create_list_if_needed. no_empty_op. Qed.

Lemma no_empty_rpush key value db :
  db_inv hasher db → no_empty db → no_empty (BlinkDB_rpush hasher key value db).2.
Proof. unfold BlinkDB_rpush, create_list_if_needed. no_empty_op. Qed.

Lemma no_empty_lpop key db :
  db_inv hasher db → no_empty db → no_empty (BlinkDB_lpop key db).2.
Proof. unfold BlinkDB_lpop, ListType_lpop. no_empty_op. Qed.

Lemma no_empty_rpop key db :
  db_inv hasher db → no_empty db → no_empty (BlinkDB_rpop key db).2.
Proof. unfold BlinkDB_rpop, ListType_rpop. no_empty_op. Qed.

Lemma no_empty_lindex key index db :
  db_inv hasher db → no_empty db → no_empty (BlinkDB_lindex key index db).2.
Proof. unfold BlinkDB_lindex. no_empty_op. Qed.

Lemma no_empty_llen key db :
  db_inv hasher db → no_empty db → no_empty (BlinkDB_llen key db).2.
Proof. unfold BlinkDB_llen. no_empty_op. Qed.

Lemma no_empty_lrange key start end_ db :
  db_inv hasher db → no_empty db → no_empty (BlinkDB_lrange key start end_ db).2.
Proof. unfold BlinkDB_lrange. no_empty_op. Qed.

Lemma no_empty_sadd key value db :
  db_inv hasher db → no_empty db → no_empty (BlinkDB_sadd hasher key value db).2.
Proof. unfold BlinkDB_sadd, create_set_if_needed. no_empty_op. Qed.

Lemma no_empty_sismember key value db :
  db_inv hasher db → no_empty db → no_empty (BlinkDB_sismember key value db).2.
Proof. unfold BlinkDB_sismember. no_empty_op. Qed.

Lemma no_empty_srem key value db :
  db_inv hasher db → no_empty db → no_empty (BlinkDB_srem key value db).2.
Proof. unfold BlinkDB_srem. no_empty_op. Qed.

Lemma no_empty_scard key db :
  db_inv hasher db → no_empty db → no_empty (BlinkDB_scard key db).2.
Proof. unfold BlinkDB_scard. no_empty_op. Qed.

Lemma no_empty_smembers key db :
  db_inv hasher db → no_empty db → no_empty (BlinkDB_smembers key db).2.
Proof. unfold BlinkDB_smembers. no_empty_op. Qed.

Lemma no_empty_hset key field value db :
  db_inv hasher db → no_empty db → no_empty (BlinkDB_hset hasher key field value db).2.
Proof. unfold BlinkDB_hset, create_hash_if_needed. no_empty_op. Qed.

Lemma no_empty_hget key field db :
  db_inv hasher db → no_empty db → no_empty (BlinkDB_hget key field db).2.
Proof. unfold BlinkDB_hget. no_empty_op. Qed.

Lemma no_empty_hexists key field db :
  db_inv hasher db → no_empty db → no_empty (BlinkDB_hexists key field db).2.
Proof. unfold BlinkDB_hexists. no_empty_op. Qed.

Lemma no_empty_hdel key field db :
  db_inv hasher db → no_empty db → no_empty (BlinkDB_hdel key field db).2.
Proof. unfold BlinkDB_hdel. no_empty_op. Qed.

Lemma no_empty_hlen key db :
  db_inv hasher db → no_empty db → no_empty (BlinkDB_hlen key db).2.
Proof. unfold BlinkDB_hlen. no_empty_op. Qed.

Lemma no_empty_hkeys key db :
  db_inv hasher db → no_empty db → no_empty (BlinkDB_hkeys key db).2.
Proof. unfold BlinkDB_hkeys. no_empty_op. Qed.

Lemma no_empty_hvals key db :
  db_inv hasher db → no_empty db → no_empty (BlinkDB_hvals key db).2.
Proof. unfold BlinkDB_hvals. no_empty_op. Qed.

Lemma no_empty_hgetall key db :
  db_inv hasher db → no_empty db → no_empty (BlinkDB_hgetall key db).2.
Proof. unfold BlinkDB_hgetall. no_empty_op. Qed.

Local Hint Resolve no_empty_set no_empty_get no_empty_del no_empty_lpush
  no_empty_rpush no_empty_lpop no_empty_rpop no_empty_lindex no_empty_llen
  no_empty_lrange no_empty_sadd no_empty_sismember no_empty_srem no_empty_scard
  no_empty_smembers no_empty_hset no_empty_hget no_empty_hexists no_empty_hdel
  no_empty_hlen no_empty_hkeys no_empty_hvals no_empty_hgetall : core.

Lemma no_empty_dispatch parts db r :
  db_inv hasher db → no_empty db → dispatch hasher parts db = Done r → no_empty r.2.
Proof.
  intros Hinv Hne. dispatch_cases; intros [= <-]; simpl; auto.
Qed.

Lemma no_empty_process_parts parts db :
  db_inv hasher db → no_empty db → no_empty (process_parts hasher parts db).2.
Proof.
  intros Hinv Hne. unfold process_parts. destruct parts as [|p parts]; [done |].
  destruct (dispatch _ _ _) eqn:Hd; [by eapply no_empty_dispatch | done].
Qed.

End Invariants.

(** ** [LRANGE] *)

Lemma to_int_small z : INT_MIN ≤ z ≤ INT_MAX → to_int z = z.
Proof.
  unfold INT_MIN, INT_MAX, to_int. intros H.
  rewrite Z.mod_small by lia. lia.
Qed.

Lemma ListType_lrange_nonempty start end_ elements :
  elements ≠ [] →
  ListType_lrange start end_ elements =
  let start' := Z.max 0 (if start <? 0
                         then to_int (Z.of_nat (length elements) + start) else start) in
  let end' := Z.min (to_int (ListType_llen elements - 1))
                (if end_ <? 0
                 then to_int (Z.of_nat (length elements) + end_) else end_) in
  if end' <? start' then []
  else take (Z.to_nat (end' + 1 - start')) (drop (Z.to_nat start') elements).
Proof. by destruct elements. Qed.




(** ** Arity *)

Local Close Scope Z_scope.

Lemma nth_take {A} (l : list A) (i n : nat) (d : A) :
  i < n → nth i (take n l) d = nth i l d.
Proof. intros H. by rewrite !nth_lookup, lookup_take_lt. Qed.

Ltac by_command H :=
  unfold commands in H;
  repeat (apply elem_of_cons in H as [H|H]; [injection H as -> -> |]);
  [.. | by apply elem_of_nil in H].

Ltac eval_tests :=
  lazy [String.eqb Ascii.eqb Bool.eqb andb Nat.leb].

Section Arity.

Variable hasher : string → N.

(** C8: a recognised command with fewer arguments than it needs is answered
    with the unknown-command error, which names the command (in lower case),
    and nothing is done; a line without any token is answered with an error
    too. *)
Theorem too_few_arguments_is_unknown_command (line : string) db cmd n :
  command_name (tokenize line) = cmd →
  (cmd, n) ∈ commands →
  0 < length (tokenize line) ≤ n →
  process_command hasher line db
  = ("-ERR unknown command '" +:+ cmd +:+ "'" +:+ CRLF, db)
  ∧ process_parts hasher [] db = ("-ERR empty command" +:+ CRLF, db)
  ∧ process_command hasher "" db = ("-ERR empty command" +:+ CRLF, db).
Proof.
  unfold process_command, process_parts, command_name.
  intros Hcmd Hin [Hpos Hlen]. split; [|done].
  destruct (tokenize line) as [|p parts] eqn:Hparts; [simpl in Hpos; lia |].
  rewrite <- Hparts in *. clear Hparts.
  unfold dispatch. cbv zeta. rewrite Hcmd.
  by_command Hin; try lia;
    repeat match goal with
           | |- context [(?k <=? length ?l)] =>
               rewrite (leb_correct_conv (length l) k) by lia
           end;
    eval_tests; reflexivity.
Qed.

(** C10: the tokens after the arguments a command needs are ignored: a line
    with more tokens is answered, and changes the state, as the line cut
    after the arguments the command needs; [SET k v extra] is answered
    [+OK]. *)
Theorem extra_tokens_are_ignored (line line' : string) db cmd n :
  command_name (tokenize line) = cmd →
  (cmd, n) ∈ commands →
  n < length (tokenize line) →
  tokenize line' = take (S n) (tokenize line) →
  process_command hasher line db = process_command hasher line' db
  ∧ ∀ k v extra,
      is_token k → is_token v → Forall is_token extra →
      process_command hasher (request ("SET" :: k :: v :: extra)) db
      = process_command hasher (request ["SET"; k; v]) db
      ∧ (process_command hasher (request ("SET" :: k :: v :: extra)) db).1
        = "+OK" +:+ CRLF.
Proof.
  intros Hcmd Hin Hlen Hline'. split.
  - unfold process_command, process_parts, command_name in *. rewrite Hline'.
    destruct (tokenize line) as [|p parts] eqn:Hparts; [simpl in Hlen; lia |].
    rewrite <- Hparts in *. clear Hparts.
    assert (take (S n) (tokenize line) ≠ []) as Hne.
    { intros H0. apply (f_equal length) in H0.
      rewrite length_take_le in H0 by lia. done. }
    destruct (take (S n) (tokenize line)) as [|p' parts'] eqn:Htake; [done |].
    rewrite <- Htake in *. clear Htake Hne.
    assert (dispatch hasher (take (S n) (tokenize line)) db
            = dispatch hasher (tokenize line) db) as ->; [|done].
    unfold dispatch. cbv zeta.
    rewrite length_take_le by lia.
    by_command Hin;
      rewrite ?nth_take by lia; rewrite Hcmd;
      repeat match goal with
             | |- context [(?k <=? length ?l)] =>
                 rewrite (leb_correct k (length l)) by lia
             end;
      eval_tests; reflexivity.
  - intros k v extra Hk Hv Hextra.
    assert (is_token "SET") as HSET by (split; [done | reflexivity]).
    rewrite !process_command_request by (repeat apply Forall_cons_2; done).
    split; reflexivity.
Qed.

End Arity.

Lemma in_commands_lrange : ("lrange", 3) ∈ commands.
Proof. unfold commands. repeat (apply elem_of_cons; first [by left | right]). Defined.

Lemma too_few_arguments_is_unknown_command_witness :
  command_name (tokenize "LRANGE mylist 0") = "lrange"
  ∧ ("lrange", 3) ∈ commands
  ∧ 0 < length (tokenize "LRANGE mylist 0") ≤ 3
  ∧ process_command (λ _, 0%N) "LRANGE mylist 0" BlinkDB_new
    = ("-ERR unknown command 'lrange'" +:+ CRLF, BlinkDB_new).
Proof.
  assert (H1 : command_name (tokenize "LRANGE mylist 0") = "lrange") by reflexivity.
  assert (H3 : 0 < length (tokenize "LRANGE mylist 0") ≤ 3) by (simpl; lia).
  split; [exact H1 | split; [exact in_commands_lrange | split; [exact H3 |]]].
  exact (proj1 (too_few_arguments_is_unknown_command (λ _, 0%N)
                  "LRANGE mylist 0" BlinkDB_new "lrange" 3
                  H1 in_commands_lrange H3)).
Defined.

Lemma extra_tokens_are_ignored_witness :
  command_name (tokenize "LPUSH mylist a b c") = "lpush"
  ∧ ("lpush", 2) ∈ commands
  ∧ 2 < length (tokenize "LPUSH mylist a b c")
  ∧ tokenize "LPUSH mylist a" = take 3 (tokenize "LPUSH mylist a b c")
  ∧ is_token "k" ∧ is_token "v" ∧ Forall is_token ["extra"]
  ∧ process_command (λ _, 0%N) "LPUSH mylist a b c" BlinkDB_new
    = process_command (λ _, 0%N) "LPUSH mylist a" BlinkDB_new
  ∧ process_command (λ _, 0%N) "SET k v extra" BlinkDB_new
    = process_command (λ _, 0%N) "SET k v" BlinkDB_new
  ∧ (process_command (λ _, 0%N) "SET k v extra" BlinkDB_new).1 = "+OK" +:+ CRLF.
Proof.
  assert (H1 : command_name (tokenize "LPUSH mylist a b c") = "lpush") by reflexivity.
  assert (H2 : ("lpush", 2) ∈ commands).
  { unfold commands. repeat (apply elem_of_cons; first [by left | right]). }
  assert (H3 : 2 < length (tokenize "LPUSH mylist a b c")) by (simpl; lia).
  assert (H4 : tokenize "LPUSH mylist a" = take 3 (tokenize "LPUSH mylist a b c"))
    by reflexivity.
  assert (H5 : is_token "k") by (split; [discriminate | reflexivity]).
  assert (H6 : is_token "v") by (split; [discriminate | reflexivity]).
  assert (H7 : Forall is_token ["extra"]).
  { apply Forall_cons_2; [split; [discriminate | reflexivity] | apply Forall_nil_2]. }
  destruct (extra_tokens_are_ignored (λ _, 0%N)
              "LPUSH mylist a b c" "LPUSH mylist a" BlinkDB_new "lpush" 2
              H1 H2 H3 H4) as [E1 E2].
  destruct (E2 "k" "v" ["extra"] H5 H6 H7) as [E3 E4].
  split; [exact H1 | split; [exact H2 | split; [exact H3 | split; [exact H4 |]]]].
  split; [exact H5 | split; [exact H6 | split; [exact H7 |]]].
  split; [exact E1 | split; [exact E3 | exact E4]].
Defined.

(** ** [SET] and [GET] *)

Section Strings.

Variable hasher : string → N.

Lemma process_parts_SET key value rest db :
  process_parts hasher ("SET" :: key :: value :: rest) db
  = ("+OK" +:+ CRLF, BlinkDB_set hasher key value db).
Proof. reflexivity. Qed.

Lemma process_parts_GET key rest db :
  process_parts hasher ("GET" :: key :: rest) db
  = (bulk_reply (BlinkDB_get hasher key db).1, (BlinkDB_get hasher key db).2).
Proof. reflexivity. Qed.

Lemma is_token_SET : is_token "SET".
Proof. split; [done | reflexivity]. Qed.

Lemma is_token_GET : is_token "GET".
Proof. split; [done | reflexivity]. Qed.

Lemma BlinkDB_set_store key value db :
  db_inv hasher db →
  store (BlinkDB_set hasher key value db) = <[key := StringType value]> (store db).
Proof.
  intros (Hok & Hmax & _). unfold BlinkDB_set.
  by rewrite evict_if_needed_touch.
Qed.

(** A [SET] of a key the store does not hold makes the store one key larger,
    however many keys it holds already. *)
Lemma BlinkDB_set_grows key value db :
  db_inv hasher db → store db !! key = None →
  base.size (store (BlinkDB_set hasher key value db)) = S (base.size (store db)).
Proof.
  intros Hinv Hkey. rewrite BlinkDB_set_store by done.
  by apply map_size_insert_None.
Qed.

Lemma BlinkDB_get_string key value db :
  db_inv hasher db → store db !! key = Some (StringType value) →
  BlinkDB_get hasher key db = (value, with_cache (LRUCache_access key) db).
Proof.
  intros (_ & _ & Hcov) Hkey. unfold BlinkDB_get.
  rewrite (Hcov key) by (by rewrite Hkey).
  rewrite bool_decide_eq_false_2 by (by rewrite Hkey).
  simpl. by rewrite Hkey.
Qed.

Lemma error_reply_is_not_bulk result : error_reply result ≠ bulk result.
Proof. unfold error_reply, bulk. rewrite !append_cons. discriminate. Qed.

(** C4, as written, fails for the value [NULL]: [GET] answers the null bulk
    string, not the bulk string of the value. *)
Lemma set_then_get_NULL :
  (process_commands (λ _, 0%N) ["SET k NULL"; "GET k"] BlinkDB_new).1
  = ["+OK" +:+ CRLF; "$-1" +:+ CRLF]
  ∧ "$-1" +:+ CRLF ≠ bulk "NULL"
  ∧ ¬ (∀ k v, is_token k → is_token v →
         (process_command (λ _, 0%N) (request ["GET"; k])
            (process_command (λ _, 0%N) (request ["SET"; k; v]) BlinkDB_new).2).1
         = bulk v).
Proof.
  split; [reflexivity | split; [discriminate |]].
  intros H. specialize (H "k" "NULL").
  assert (is_token "k") as Hk by (split; [done | reflexivity]).
  assert (is_token "NULL") as Hv by (split; [done | reflexivity]).
  specialize (H Hk Hv). vm_compute in H. discriminate.
Qed.

(** C4 (amended): for all tokens [k] and [v], where [v] is not the word
    [NULL] and does not begin with [WRONGTYPE], [SET k v] is answered [+OK]
    and the [GET k] after it the bulk string of [v]; inside the store [get]
    returns [v] after [set] whatever [k] and [v] are. For the tokens left
    out the reply is given too: the null bulk string for [NULL], and [v] as
    an error for a [v] that begins with [WRONGTYPE]. *)
Theorem set_then_get (k v : string) db :
  db_inv hasher db →
  (BlinkDB_get hasher k (BlinkDB_set hasher k v db)).1 = v
  ∧ (is_token k → is_token v →
     let r1 := process_command hasher (request ["SET"; k; v]) db in
     let r2 := process_command hasher (request ["GET"; k]) r1.2 in
     r1.1 = "+OK" +:+ CRLF
     ∧ (v ≠ "NULL" → is_WRONGTYPE v = false → r2.1 = bulk v)
     ∧ (v = "NULL" → r2.1 = "$-1" +:+ CRLF)
     ∧ (is_WRONGTYPE v = true → r2.1 = "-" +:+ v +:+ CRLF)).
Proof.
  intros Hinv.
  assert (BlinkDB_get hasher k (BlinkDB_set hasher k v db)
          = (v, with_cache (LRUCache_access k) (BlinkDB_set hasher k v db)))
    as Hget.
  { apply BlinkDB_get_string; [by apply db_inv_set |].
    rewrite BlinkDB_set_store by done. apply lookup_insert_eq. }
  split; [by rewrite Hget |].
  intros Hk Hv r1 r2. subst r1 r2.
  rewrite !process_command_request
    by (repeat apply Forall_cons_2; auto using is_token_SET, is_token_GET).
  rewrite process_parts_SET, process_parts_GET. cbn [fst snd].
  rewrite Hget. cbn [fst]. unfold bulk_reply.
  split; [done | split; [| split]].
  - intros HNULL HWRONG.
    rewrite (proj2 (String.eqb_neq v "NULL")) by done. by rewrite HWRONG.
  - by intros ->.
  - intros HWRONG. rewrite HWRONG.
    destruct (String.eqb_spec v "NULL") as [-> |]; [discriminate HWRONG | done].
Qed.

(** C9: when [k] holds a string that begins with [WRONGTYPE], [GET k] is
    answered with that string as a protocol error, and not with its bulk
    string. *)
Theorem get_of_a_WRONGTYPE_string (k v : string) db :
  db_inv hasher db →
  is_token k →
  store db !! k = Some (StringType v) →
  prefix_of 9 v = "WRONGTYPE" →
  (process_command hasher (request ["GET"; k]) db).1 = "-" +:+ v +:+ CRLF
  ∧ (process_command hasher (request ["GET"; k]) db).1 ≠ bulk v.
Proof.
  intros Hinv Hk Hkey Hv.
  rewrite !process_command_request
    by (repeat apply Forall_cons_2; auto using is_token_GET).
  rewrite process_parts_GET. simpl.
  rewrite (BlinkDB_get_string k v) by done. simpl.
  assert (bulk_reply v = error_reply v) as ->.
  { unfold bulk_reply, is_WRONGTYPE. rewrite Hv. simpl.
    destruct (String.eqb_spec v "NULL") as [->|]; [done | done]. }
  split; [done | apply error_reply_is_not_bulk].
Qed.

End Strings.

Lemma set_then_get_witness :
  db_inv (λ _, 0%N) BlinkDB_new
  ∧ is_token "foo" ∧ is_token "bar"
  ∧ "bar" ≠ "NULL" ∧ is_WRONGTYPE "bar" = false
  ∧ (BlinkDB_get (λ _, 0%N) "foo" (BlinkDB_set (λ _, 0%N) "foo" "bar" BlinkDB_new)).1
    = "bar"
  ∧ (process_command (λ _, 0%N) "GET foo"
       (process_command (λ _, 0%N) "SET foo bar" BlinkDB_new).2).1
    = "$3" +:+ CRLF +:+ "bar" +:+ CRLF.
Proof.
  assert (H1 : is_token "foo") by (split; [discriminate | reflexivity]).
  assert (H2 : is_token "bar") by (split; [discriminate | reflexivity]).
  assert (H3 : "bar" ≠ "NULL") by discriminate.
  assert (H4 : is_WRONGTYPE "bar" = false) by reflexivity.
  destruct (set_then_get (λ _, 0%N) "foo" "bar" BlinkDB_new (BlinkDB_new_inv _))
    as [E1 E2].
  destruct (E2 H1 H2) as (_ & E3 & _).
  split; [apply BlinkDB_new_inv |].
  split; [exact H1 | split; [exact H2 | split; [exact H3 | split; [exact H4 |]]]].
  split; [exact E1 | exact (E3 H3 H4)].
Defined.

Lemma get_of_a_WRONGTYPE_string_witness :
  let db := BlinkDB_set (λ _, 0%N) "k" "WRONGTYPEfoo" BlinkDB_new in
  db_inv (λ _, 0%N) db
  ∧ is_token "k"
  ∧ store db !! "k" = Some (StringType "WRONGTYPEfoo")
  ∧ prefix_of 9 "WRONGTYPEfoo" = "WRONGTYPE"
  ∧ (process_command (λ _, 0%N) "GET k" db).1 = "-WRONGTYPEfoo" +:+ CRLF.
Proof.
  intros db.
  assert (H0 : db_inv (λ _, 0%N) db) by apply db_inv_set, BlinkDB_new_inv.
  assert (H1 : is_token "k") by (split; [discriminate | reflexivity]).
  assert (H2 : store db !! "k" = Some (StringType "WRONGTYPEfoo")) by reflexivity.
  assert (H3 : prefix_of 9 "WRONGTYPEfoo" = "WRONGTYPE") by reflexivity.
  split; [exact H0 | split; [exact H1 | split; [exact H2 | split; [exact H3 |]]]].
  exact (proj1 (get_of_a_WRONGTYPE_string (λ _, 0%N) "k" "WRONGTYPEfoo" db
                  H0 H1 H2 H3)).
Defined.

(** ** Commands on a key of another kind *)

Local Open Scope nat_scope.

Section WrongKind.

Variable hasher : string → N.

Lemma process_parts_nonempty (parts : list string) db :
  parts ≠ [] →
  process_parts hasher parts db
  = match dispatch hasher parts db with
    | Done r => r
    | Threw e => ("-ERR " +:+ what e +:+ CRLF, db)
    end.
Proof. by destruct parts. Qed.

Lemma wrong_kind_reply (parts : list string) db cmd n kind key value :
  db_inv hasher db →
  command_name parts = cmd →
  (cmd, n) ∈ commands →
  required_kind cmd = Some kind →
  n < length parts →
  numbers_ok parts →
  nth 1 parts "" = key →
  store db !! key = Some value →
  get_type value ≠ kind →
  process_parts hasher parts db
  = ("-" +:+ WRONGTYPE +:+ CRLF,
     if String.eqb cmd "get" then with_cache (LRUCache_access key) db else db).
Proof.
  intros Hinv Hcmd Hin Hkind Hlen [Hlindex Hlrange] Hnth Hkey Hty.
  unfold command_name in *.
  rewrite process_parts_nonempty by (intros ->; simpl in Hlen; lia).
  destruct Hinv as (_ & _ & Hcov).
  by_command Hin; vm_compute in Hkind; try discriminate Hkind;
    injection Hkind as <-;
    try (destruct (Hlindex Hcmd) as [i Hi]);
    try (destruct (Hlrange Hcmd) as [[i Hi] [j Hj]]);
    unfold dispatch; cbv zeta; rewrite Hcmd;
    repeat match goal with
           | |- context [(?k <=? length ?l)] =>
               rewrite (leb_correct k (length l)) by lia
           end;
    eval_tests;
    rewrite ?Hi, ?Hj; unfold obind, reply;
    rewrite Hnth;
    unfold BlinkDB_get, BlinkDB_lpush, BlinkDB_rpush, BlinkDB_lpop,
      BlinkDB_rpop, BlinkDB_lindex, BlinkDB_llen, BlinkDB_lrange,
      BlinkDB_sadd, BlinkDB_sismember, BlinkDB_srem, BlinkDB_scard,
      BlinkDB_smembers, BlinkDB_hset, BlinkDB_hget, BlinkDB_hexists,
      BlinkDB_hdel, BlinkDB_hlen, BlinkDB_hkeys, BlinkDB_hvals,
      BlinkDB_hgetall, create_list_if_needed, create_set_if_needed,
      create_hash_if_needed;
    rewrite ?(Hcov key) by (by rewrite Hkey);
    rewrite ?bool_decide_eq_false_2 by (by rewrite Hkey);
    simpl; rewrite Hkey;
    destruct value; try (exfalso; by apply Hty); reflexivity.
Qed.

(** The reply of the same commands when the key is absent is no error. *)
Lemma absent_key_reply (parts : list string) db cmd n kind key :
  command_name parts = cmd →
  (cmd, n) ∈ commands →
  required_kind cmd = Some kind →
  n < length parts →
  numbers_ok parts →
  nth 1 parts "" = key →
  store db !! key = None →
  ∃ c rest, (process_parts hasher parts db).1 = String c rest ∧ c ≠ "-"%char.
Proof.
  intros Hcmd Hin Hkind Hlen [Hlindex Hlrange] Hnth Hkey.
  unfold command_name in *.
  rewrite process_parts_nonempty by (intros ->; simpl in Hlen; lia).
  by_command Hin; vm_compute in Hkind; try discriminate Hkind;
    injection Hkind as <-;
    try (destruct (Hlindex Hcmd) as [i Hi]);
    try (destruct (Hlrange Hcmd) as [[i Hi] [j Hj]]);
    unfold dispatch; cbv zeta; rewrite Hcmd;
    repeat match goal with
           | |- context [(?k <=? length ?l)] =>
               rewrite (leb_correct k (length l)) by lia
           end;
    eval_tests;
    rewrite ?Hi, ?Hj; unfold obind, reply;
    rewrite Hnth;
    unfold BlinkDB_get, BlinkDB_lpush, BlinkDB_rpush, BlinkDB_lpop,
      BlinkDB_rpop, BlinkDB_lindex, BlinkDB_llen, BlinkDB_lrange,
      BlinkDB_sadd, BlinkDB_sismember, BlinkDB_srem, BlinkDB_scard,
      BlinkDB_smembers, BlinkDB_hset, BlinkDB_hget, BlinkDB_hexists,
      BlinkDB_hdel, BlinkDB_hlen, BlinkDB_hkeys, BlinkDB_hvals,
      BlinkDB_hgetall, create_list_if_needed, create_set_if_needed,
      create_hash_if_needed;
    rewrite ?Hkey; simpl; rewrite ?lookup_insert_eq;
    rewrite ?bool_decide_eq_true_2 by done;
    rewrite ?orb_true_r; simpl;
    repeat match goal with
           | |- context [bit ?b] => destruct b
           end;
    eexists _, _; (split; [reflexivity | discriminate]).
Qed.

(** The replies depend on the store and the filter only, and so do the store
    and the filter after a command: the tracker is never consulted. *)
Lemma evict_if_needed_mk s c b key :
  cache_ok c → max_size c = CACHE_SIZE →
  evict_if_needed (mkBlinkDB s (LRUCache_access key c) b)
  = mkBlinkDB s (LRUCache_access key c) b.
Proof.
  intros Hok Hmax. apply evict_if_needed_id. simpl.
  rewrite <- Hmax. by apply LRUCache_access_size.
Qed.

Ltac same_data_op :=
  intros db1 db2 (Hok1 & Hmax1 & _) (Hok2 & Hmax2 & _) [Hs Hb];
  destruct db1 as [s1 c1 b1], db2 as [s2 c2 b2];
  simpl in Hs, Hb, Hok1, Hok2, Hmax1, Hmax2; subst s2 b2;
  unfold same_data; simpl;
  repeat match goal with
         | |- context [s1 !! ?k] => destruct (s1 !! k) as [[]|] eqn:?; simpl
         end;
  simpl; rewrite ?lookup_insert_eq; simpl;
  repeat case_match; simpl;
  unfold with_store, with_cache, with_bloom_filter, erase_key; simpl;
  rewrite ?evict_if_needed_mk by assumption;
  simpl; auto.

Lemma same_data_set key value :
  ∀ db1 db2, db_inv hasher db1 → db_inv hasher db2 → same_data db1 db2 →
  same_data (BlinkDB_set hasher key value db1) (BlinkDB_set hasher key value db2).
Proof. unfold BlinkDB_set, with_store, with_cache, with_bloom_filter. same_data_op. Qed.

Lemma same_data_del key :
  ∀ db1 db2, db_inv hasher db1 → db_inv hasher db2 → same_data db1 db2 →
  same_data (BlinkDB_del key db1) (BlinkDB_del key db2).
Proof. unfold BlinkDB_del. same_data_op. Qed.

Lemma same_data_type key :
  ∀ db1 db2, db_inv hasher db1 → db_inv hasher db2 → same_data db1 db2 →
  BlinkDB_type hasher key db1 = BlinkDB_type hasher key db2.
Proof. intros db1 db2 _ _ [Hs Hb]. unfold BlinkDB_type. by rewrite Hs, Hb. Qed.

Lemma same_data_get key :
  ∀ db1 db2, db_inv hasher db1 → db_inv hasher db2 → same_data db1 db2 →
  same_result (BlinkDB_get hasher key db1) (BlinkDB_get hasher key db2).
Proof. unfold same_result, BlinkDB_get. same_data_op. Qed.

Lemma same_data_lpush key value :
  ∀ db1 db2, db_inv hasher db1 → db_inv hasher db2 → same_data db1 db2 →
  same_result (BlinkDB_lpush hasher key value db1) (BlinkDB_lpush hasher key value db2).
Proof. unfold same_result, BlinkDB_lpush, create_list_if_needed. same_data_op. Qed.

Lemma same_data_rpush key value :
  ∀ db1 db2, db_inv hasher db1 → db_inv hasher db2 → same_data db1 db2 →
  same_result (BlinkDB_rpush hasher key value db1) (BlinkDB_rpush hasher key value db2).
Proof. unfold same_result, BlinkDB_rpush, create_list_if_needed. same_data_op. Qed.

Lemma same_data_lpop key :
  ∀ db1 db2, db_inv hasher db1 → db_inv hasher db2 → same_data db1 db2 →
  same_result (BlinkDB_lpop key db1) (BlinkDB_lpop key db2).
Proof. unfold same_result, BlinkDB_lpop, ListType_lpop. same_data_op. Qed.

Lemma same_data_rpop key :
  ∀ db1 db2, db_inv hasher db1 → db_inv hasher db2 → same_data db1 db2 →
  same_result (BlinkDB_rpop key db1) (BlinkDB_rpop key db2).
Proof. unfold same_result, BlinkDB_rpop, ListType_rpop. same_data_op. Qed.

Lemma same_data_lindex key index :
  ∀ db1 db2, db_inv hasher db1 → db_inv hasher db2 → same_data db1 db2 →
  same_result (BlinkDB_lindex key index db1) (BlinkDB_lindex key index db2).
Proof. unfold same_result, BlinkDB_lindex. same_data_op. Qed.

Lemma same_data_llen key :
  ∀ db1 db2, db_inv hasher db1 → db_inv hasher db2 → same_data db1 db2 →
  same_result (BlinkDB_llen key db1) (BlinkDB_llen key db2).
Proof. unfold same_result, BlinkDB_llen. same_data_op. Qed.

Lemma same_data_lrange key start end_ :
  ∀ db1 db2, db_inv hasher db1 → db_inv hasher db2 → same_data db1 db2 →
  same_result (BlinkDB_lrange key start end_ db1) (BlinkDB_lrange key start end_ db2).
Proof. unfold same_result, BlinkDB_lrange. same_data_op. Qed.

Lemma same_data_sadd key value :
  ∀ db1 db2, db_inv hasher db1 → db_inv hasher db2 → same_data db1 db2 →
  same_result (BlinkDB_sadd hasher key value db1) (BlinkDB_sadd hasher key value db2).
Proof. unfold same_result, BlinkDB_sadd, create_set_if_needed. same_data_op. Qed.

Lemma same_data_sismember key value :
  ∀ db1 db2, db_inv hasher db1 → db_inv hasher db2 → same_data db1 db2 →
  same_result (BlinkDB_sismember key value db1) (BlinkDB_sismember key value db2).
Proof. unfold same_result, BlinkDB_sismember. same_data_op. Qed.

Lemma same_data_srem key value :
  ∀ db1 db2, db_inv hasher db1 → db_inv hasher db2 → same_data db1 db2 →
  same_result (BlinkDB_srem key value db1) (BlinkDB_srem key value db2).
Proof. unfold same_result, BlinkDB_srem. same_data_op. Qed.

Lemma same_data_scard key :
  ∀ db1 db2, db_inv hasher db1 → db_inv hasher db2 → same_data db1 db2 →
  same_result (BlinkDB_scard key db1) (BlinkDB_scard key db2).
Proof. unfold same_result, BlinkDB_scard. same_data_op. Qed.

Lemma same_data_smembers key :
  ∀ db1 db2, db_inv hasher db1 → db_inv hasher db2 → same_data db1 db2 →
  same_result (BlinkDB_smembers key db1) (BlinkDB_smembers key db2).
Proof. unfold same_result, BlinkDB_smembers. same_data_op. Qed.

Lemma same_data_hset key field value :
  ∀ db1 db2, db_inv hasher db1 → db_inv hasher db2 → same_data db1 db2 →
  same_result (BlinkDB_hset hasher key field value db1) (BlinkDB_hset hasher key field value db2).
Proof. unfold same_result, BlinkDB_hset, create_hash_if_needed. same_data_op. Qed.

Lemma same_data_hget key field :
  ∀ db1 db2, db_inv hasher db1 → db_inv hasher db2 → same_data db1 db2 →
  same_result (BlinkDB_hget key field db1) (BlinkDB_hget key field db2).
Proof. unfold same_result, BlinkDB_hget. same_data_op. Qed.

Lemma same_data_hexists key field :
  ∀ db1 db2, db_inv hasher db1 → db_inv hasher db2 → same_data db1 db2 →
  same_result (BlinkDB_hexists key field db1) (BlinkDB_hexists key field db2).
Proof. unfold same_result, BlinkDB_hexists. same_data_op. Qed.

Lemma same_data_hdel key field :
  ∀ db1 db2, db_inv hasher db1 → db_inv hasher db2 → same_data db1 db2 →
  same_result (BlinkDB_hdel key field db1) (BlinkDB_hdel key field db2).
Proof. unfold same_result, BlinkDB_hdel. same_data_op. Qed.

Lemma same_data_hlen key :
  ∀ db1 db2, db_inv hasher db1 → db_inv hasher db2 → same_data db1 db2 →
  same_result (BlinkDB_hlen key db1) (BlinkDB_hlen key db2).
Proof. unfold same_result, BlinkDB_hlen. same_data_op. Qed.

Lemma same_data_hkeys key :
  ∀ db1 db2, db_inv hasher db1 → db_inv hasher db2 → same_data db1 db2 →
  same_result (BlinkDB_hkeys key db1) (BlinkDB_hkeys key db2).
Proof. unfold same_result, BlinkDB_hkeys. same_data_op. Qed.

Lemma same_data_hvals key :
  ∀ db1 db2, db_inv hasher db1 → db_inv hasher db2 → same_data db1 db2 →
  same_result (BlinkDB_hvals key db1) (BlinkDB_hvals key db2).
Proof. unfold same_result, BlinkDB_hvals. same_data_op. Qed.

Lemma same_data_hgetall key :
  ∀ db1 db2, db_inv hasher db1 → db_inv hasher db2 → same_data db1 db2 →
  same_result (BlinkDB_hgetall key db1) (BlinkDB_hgetall key db2).
Proof. unfold same_result, BlinkDB_hgetall. same_data_op. Qed.

Lemma same_result_reply (encode : string → string) r1 r2 :
  same_result r1 r2 → same_result (encode r1.1, r1.2) (encode r2.1, r2.2).
Proof. intros [H1 H2]. split; simpl; [by rewrite H1 | done]. Qed.

Lemma dispatch_same_data (parts : list string) db1 db2 :
  db_inv hasher db1 → db_inv hasher db2 → same_data db1 db2 →
  match dispatch hasher parts db1, dispatch hasher parts db2 with
  | Done r1, Done r2 => same_result r1 r2
  | Threw _, Threw _ => True
  | _, _ => False
  end.
Proof.
  intros Hinv1 Hinv2 Hsame. unfold dispatch, reply.
  repeat match goal with
         | |- context [if ?c then _ else _] =>
             match type of c with bool => destruct c end
         | |- context [obind ?m _] => destruct m; simpl
         end;
    try done;
    try (by apply same_result_reply;
         auto using
           same_data_get, same_data_lpush, same_data_rpush,
           same_data_lpop, same_data_rpop, same_data_lindex,
           same_data_llen, same_data_lrange, same_data_sadd,
           same_data_sismember, same_data_srem, same_data_scard,
           same_data_smembers, same_data_hset, same_data_hget,
           same_data_hexists, same_data_hdel, same_data_hlen,
           same_data_hkeys, same_data_hvals, same_data_hgetall);
    (unfold same_result; split; simpl;
     [| by auto using same_data_set, same_data_del]);
    by rewrite ?(same_data_type _ db1 db2).
Qed.

Lemma process_parts_same_data (parts : list string) db1 db2 :
  db_inv hasher db1 → db_inv hasher db2 → same_data db1 db2 →
  same_result (process_parts hasher parts db1) (process_parts hasher parts db2).
Proof.
  intros Hinv1 Hinv2 Hsame. unfold process_parts.
  destruct parts as [|p parts]; [done |].
  pose proof (dispatch_same_data (p :: parts) db1 db2 Hinv1 Hinv2 Hsame) as H.
  destruct (dispatch hasher (p :: parts) db1), (dispatch hasher (p :: parts) db2);
    done.
Qed.

Lemma process_commands_same_data (lines : list string) db1 db2 :
  db_inv hasher db1 → db_inv hasher db2 → same_data db1 db2 →
  (process_commands hasher lines db1).1 = (process_commands hasher lines db2).1.
Proof.
  revert db1 db2. induction lines as [|line lines IH]; intros db1 db2 H1 H2 Hs; [done |].
  simpl.
  pose proof (process_parts_same_data (tokenize line) db1 db2 H1 H2 Hs) as [Hr Hd].
  pose proof (db_inv_process_command hasher line db1 H1) as H1'.
  pose proof (db_inv_process_command hasher line db2 H2) as H2'.
  unfold process_command in *.
  destruct (process_parts hasher (tokenize line) db1) as [r1 db1'].
  destruct (process_parts hasher (tokenize line) db2) as [r2 db2'].
  simpl in *. specialize (IH db1' db2' H1' H2' Hd).
  destruct (process_commands hasher lines db1') as [rs1 ?].
  destruct (process_commands hasher lines db2') as [rs2 ?].
  simpl in *. by rewrite Hr, IH.
Qed.

(** The numeric arguments of a command are all numbers, or one of them is
    rejected. *)
Lemma numbers_ok_or_bad (parts : list string) : numbers_ok parts ∨ bad_number parts.
Proof.
  unfold numbers_ok, bad_number, numeric, rejected.
  destruct (stoi (nth 2 parts "")) as [i|e2] eqn:H2,
           (stoi (nth 3 parts "")) as [j|e3] eqn:H3,
           (String.eqb_spec (command_name parts) "lindex") as [Hlindex|Hlindex],
           (String.eqb_spec (command_name parts) "lrange") as [Hlrange|Hlrange];
    try (rewrite Hlindex in Hlrange; discriminate Hlrange);
    first
      [ left; split; [intros _; by eexists |];
        intros ?; first [done | split; by eexists]
      | left; split; intros ?; done
      | right; left; split; [done | by eexists]
      | right; right; split; [done |]; first [left; by eexists | right; by eexists] ].
Qed.

(** [std::stoi] runs before the command looks at the key: a rejected number
    is answered with the text of the exception, whatever the key holds. *)
Lemma bad_number_reply (parts : list string) db cmd n :
  command_name parts = cmd →
  (cmd, n) ∈ commands →
  n < length parts →
  bad_number parts →
  process_parts hasher parts db = ("-ERR stoi" +:+ CRLF, db).
Proof.
  intros Hcmd Hin Hlen Hbad.
  unfold bad_number, rejected, command_name in *.
  rewrite process_parts_nonempty by (intros ->; simpl in Hlen; lia).
  by_command Hin;
    (destruct Hbad as [[Hname Hbad] | [Hname Hbad]];
     rewrite Hcmd in Hname; try discriminate Hname);
    unfold dispatch; cbv zeta; rewrite Hcmd;
    repeat match goal with
           | |- context [(?k <=? length ?l)] =>
               rewrite (leb_correct k (length l)) by lia
           end;
    eval_tests.
  - destruct Hbad as [e He]. by rewrite He.
  - destruct Hbad as [[e He] | [e He]]; rewrite He; [done |].
    by destruct (stoi (nth 2 parts "")).
Qed.



End WrongKind.


(** ** Emptied collections *)

Lemma no_space_snoc cur c :
  no_space cur = true → isspace c = false → no_space (cur +:+ String c "") = true.
Proof.
  intros Hcur Hc. induction cur as [|x cur IH].
  - rewrite append_nil. simpl. by rewrite Hc.
  - rewrite append_cons. simpl in *.
    apply andb_prop in Hcur as [-> Hcur]. by apply IH.
Qed.

Lemma split_tokens_tokens s cur :
  no_space cur = true → Forall is_token (split_tokens s cur).
Proof.
  revert cur. induction s as [|c s IH]; intros cur Hcur; simpl.
  - destruct (String.eqb_spec cur ""); [constructor |].
    by repeat constructor.
  - destruct (isspace c) eqn:Hc.
    + destruct (String.eqb_spec cur ""); [by apply IH |].
      constructor; [done | by apply IH].
    + by apply IH, no_space_snoc.
Qed.

Lemma tokenize_tokens line : Forall is_token (tokenize line).
Proof. by apply split_tokens_tokens. Qed.

Lemma LRUCache_access_head key c :
  cache_ok c → 1 ≤ max_size c →
  head (lru_cache (LRUCache_access key c)) = Some key.
Proof.
  intros [Hnd Hlen] Hmax. unfold LRUCache_access. cbn [lru_cache max_size].
  set (l := if LRUCache_contains key c then erase key (lru_cache c) else lru_cache c).
  destruct (Nat.ltb_spec (max_size c) (length (key :: l))) as [Hlt|Hge]; [|done].
  destruct l as [|x l']; [simpl in Hlt; lia | done].
Qed.

Section Emptied.

Variable hasher : string → N.

Lemma BlinkDB_type_kind key db :
  covered hasher db →
  BlinkDB_type hasher key db
  = match store db !! key with Some value => kind_name value | None => "none" end.
Proof.
  intros Hcov. unfold BlinkDB_type.
  destruct (store db !! key) as [value|] eqn:Hkey.
  - rewrite (Hcov key) by (by rewrite Hkey).
    rewrite bool_decide_eq_false_2 by done. by destruct value.
  - rewrite bool_decide_eq_true_2 by done. by rewrite orb_true_r.
Qed.

Lemma to_int_of_nat_0 n :
  (Z.of_nat n ≤ INT_MAX)%Z → (to_int (Z.of_nat n) =? 0)%Z = bool_decide (n = 0).
Proof.
  intros Hn. rewrite to_int_small by (unfold INT_MIN, INT_MAX in *; lia).
  case_bool_decide; [apply Z.eqb_eq | apply Z.eqb_neq]; lia.
Qed.

Lemma removal_step key value' db :
  db_inv hasher db →
  is_Some (store db !! key) →
  (Z.of_nat (count value') ≤ INT_MAX)%Z →
  let db1 := with_cache (LRUCache_access key) (with_store <[key := value']> db) in
  let db' := if (to_int (Z.of_nat (count value')) =? 0)%Z
             then erase_key key db1 else db1 in
  (store db' !! key = None ↔ count value' = 0)
  ∧ (count value' = 0 →
     (key ∉ lru_cache (cache db')) ∧ BlinkDB_type hasher key db' = "none")
  ∧ (count value' ≠ 0 →
     store db' !! key = Some value'
     ∧ head (lru_cache (cache db')) = Some key
     ∧ BlinkDB_type hasher key db' = kind_name value').
Proof.
  intros (Hok & Hmax & Hcov) Hstored Hfit db1 db'. subst db' db1.
  rewrite to_int_of_nat_0 by done. case_bool_decide as H0; simpl.
  - rewrite lookup_delete_eq. split; [done | split; [|done]].
    intros _. split.
    + by apply LRUCache_remove_not_elem, LRUCache_access_ok.
    + unfold BlinkDB_type. simpl. rewrite lookup_delete_eq.
      rewrite bool_decide_eq_true_2 by done. by rewrite orb_true_r.
  - rewrite lookup_insert_eq. split; [done | split; [done |]].
    intros _. split; [done | split].
    + apply LRUCache_access_head; [done |]. rewrite Hmax. unfold CACHE_SIZE. lia.
    + rewrite BlinkDB_type_kind.
      * cbn [store with_store with_cache]. by rewrite lookup_insert_eq.
      * intros k. cbn [store bloom_filter with_store with_cache].
        rewrite lookup_insert. case_decide as Hk; [subst k | apply Hcov].
        intros _. by apply Hcov.
Qed.

Lemma removal_result (parts : list string) db cmd n key value value' :
  command_name parts = cmd →
  (cmd, n) ∈ commands →
  n < length parts →
  nth 1 parts "" = key →
  store db !! key = Some value →
  nonempty value →
  removal cmd (nth 2 parts "") value = Some value' →
  (process_parts hasher parts db).2
  = let db1 := with_cache (LRUCache_access key)
                 (with_store <[key := value']> db) in
    if (to_int (Z.of_nat (count value')) =? 0)%Z then erase_key key db1 else db1.
Proof.
  intros Hcmd Hin Hlen Hnth Hkey Hne Hrem.
  unfold command_name in *.
  rewrite process_parts_nonempty by (intros ->; simpl in Hlen; lia).
  by_command Hin; destruct value as [v|l|s|m]; simpl in Hrem;
    try discriminate Hrem; injection Hrem as <-;
    unfold dispatch; cbv zeta; rewrite Hcmd;
    repeat match goal with
           | |- context [(?k <=? length ?l)] =>
               rewrite (leb_correct k (length l)) by lia
           end;
    eval_tests;
    unfold reply, BlinkDB_lpop, BlinkDB_rpop, BlinkDB_srem, BlinkDB_hdel;
    rewrite Hnth, Hkey; try (destruct l; [done |]); reflexivity.
Qed.

Lemma process_parts_TYPE key rest db :
  process_parts hasher ("TYPE" :: key :: rest) db
  = ("+" +:+ BlinkDB_type hasher key db +:+ CRLF, db).
Proof. reflexivity. Qed.

Lemma count_removal cmd arg value value' :
  removal cmd arg value = Some value' → count value' ≤ count value.
Proof.
  destruct value as [v|l|s|m]; simpl; [done | | |].
  - destruct (String.eqb cmd "lpop"); [intros [= <-] |].
    { destruct l; simpl; lia. }
    destruct (String.eqb cmd "rpop"); [intros [= <-] | done].
    simpl. rewrite removelast_length. lia.
  - destruct (String.eqb cmd "srem"); [intros [= <-] | done].
    simpl. apply subseteq_size. intros x Hx.
    by apply elem_of_difference in Hx as [Hx _].
  - destruct (String.eqb cmd "hdel"); [intros [= <-] | done].
    simpl. apply map_subseteq_size, delete_subseteq.
Qed.

Lemma kind_name_removal cmd arg value value' :
  removal cmd arg value = Some value' → kind_name value' = kind_name value.
Proof.
  destruct value as [v|l|s|m]; simpl; [done | | |].
  - destruct (String.eqb cmd "lpop"); [by intros [= <-] |].
    destruct (String.eqb cmd "rpop"); [by intros [= <-] | done].
  - destruct (String.eqb cmd "srem"); [by intros [= <-] | done].
  - destruct (String.eqb cmd "hdel"); [by intros [= <-] | done].
Qed.

Lemma type_reply_none value :
  "+" +:+ kind_name value +:+ CRLF ≠ "+none" +:+ CRLF.
Proof. by destruct value. Qed.


End Emptied.


(** ** The capacity bound *)

Section Defects.

Variable hasher : string → N.

(** C1 fails on the code: after [SET]s of [CACHE_SIZE + 1] distinct keys
    the store holds [CACHE_SIZE + 1] keys. [LRUCache::access] has already
    dropped the oldest key from the tracker when [evict_if_needed] looks at
    its size, so nothing is ever erased from the store: the first key is
    still stored and no longer tracked. *)
Theorem store_outgrows_the_cache :
  let db := (process_commands hasher overflow_session BlinkDB_new).2 in
  length overflow_keys = S CACHE_SIZE
  ∧ NoDup overflow_keys
  ∧ base.size (store db) = S CACHE_SIZE
  ∧ LRUCache_size (cache db) = CACHE_SIZE
  ∧ store db !! "0" = Some (StringType "v")
  ∧ "0" ∉ lru_cache (cache db).
Proof.
  intros db.
  split; [reflexivity |].
  split; [apply (bool_decide_unpack _); vm_compute; exact I |].
  split; [vm_compute; reflexivity |].
  split; [vm_compute; reflexivity |].
  split; [vm_compute; reflexivity |].
  apply (bool_decide_unpack _). vm_compute. exact I.
Qed.

(** ** Persistence *)

(** C2 fails on the code: the file written for a store with one hash does
    not load. [HashType::deserialize] looks for the second colon from the
    position of that very colon, so the digits of the value length are the
    empty string and [std::stoi] throws; lists, sets and strings do come
    back. *)
Theorem saved_hash_does_not_load :
  let db := (process_command hasher "HSET h f v" BlinkDB_new).2 in
  store db !! "h" = Some (HashType {["f" := "v"]})
  ∧ save_to_disk db = "H h H1:f:1:v," +:+ String LF ""
  ∧ (∀ fuel,
       load_from_disk hasher (S fuel) (Some (save_to_disk db)) BlinkDB_new
       = Some (Threw invalid_argument))
  ∧ (∀ fuel db',
       load_from_disk hasher fuel (Some (save_to_disk db)) BlinkDB_new
       ≠ Some (Done db'))
  ∧ (let db := (process_commands hasher
                  ["RPUSH l a"; "RPUSH l bc"; "SADD s x"; "SET k v"] BlinkDB_new).2 in
     ∃ db', load_from_disk hasher 3 (Some (save_to_disk db)) BlinkDB_new
            = Some (Done db')
            ∧ store db' = store db).
Proof.
  intros db.
  split; [reflexivity |]. split; [reflexivity |].
  assert (∀ fuel,
            load_from_disk hasher (S fuel) (Some (save_to_disk db)) BlinkDB_new
            = Some (Threw invalid_argument)) as Hthrow by (intros fuel; reflexivity).
  split; [exact Hthrow |]. split.
  - intros [|fuel] db'; [discriminate | by rewrite Hthrow].
  - eexists. split; reflexivity.
Qed.

Lemma ListType_deserialize_loop_forever fuel elements :
  ListType_deserialize_loop fuel "L-4:" 1 elements = None.
Proof.
  revert elements. induction fuel as [|fuel IH]; intros elements; [done |].
  change (ListType_deserialize_loop (S fuel) "L-4:" 1 elements)
    with (ListType_deserialize_loop fuel "L-4:" 1 (elements ++ [""])).
  apply IH.
Qed.

(** The lines [load_from_disk] does skip: those shorter than three
    characters and those without two blanks. *)
Lemma load_line_skips fuel line db :
  (string_size line < 3)%Z
  ∨ find line " " 0 = npos
  ∨ find line " " (size_t (find line " " 0 + 1)) = npos →
  load_line hasher fuel line db = Some (Done db).
Proof.
  intros H. unfold load_line.
  destruct (Z.ltb_spec (string_size line) 3) as [|Hge]; [done |].
  destruct H as [H | [H | H]]; [lia | |].
  - by rewrite H, Z.eqb_refl.
  - by rewrite H, Z.eqb_refl, orb_true_r.
Qed.

(** C3 fails on the code: a line whose element length is not a number makes
    [std::stoi] throw inside [load_from_disk], which has no handler: the
    load stops there and the lines after it are not read. A line whose
    length is [-4] keeps the loop of [ListType::deserialize] at the same
    position for ever. A missing file does give the store the constructor
    started with, and short lines, lines without two blanks and lines of an
    unknown type are skipped. *)
Theorem corrupt_line_aborts_the_load :
  (∀ fuel,
     load_from_disk hasher (S fuel)
       (Some ("L k Lx:" +:+ String LF ("S a b" +:+ String LF ""))) BlinkDB_new
     = Some (Threw invalid_argument))
  ∧ (∀ fuel, load_from_disk hasher fuel (Some "L k L-4:") BlinkDB_new = None)
  ∧ (∀ fuel db, load_from_disk hasher fuel None db = Some (Done db))
  ∧ (∃ db', load_from_disk hasher 1
              (Some ("xx" +:+ String LF
                       ("nothing" +:+ String LF
                          ("X k v" +:+ String LF ("S a b" +:+ String LF "")))))
              BlinkDB_new = Some (Done db')
            ∧ store db' = {["a" := StringType "b"]}).
Proof.
  split; [intros fuel; reflexivity |].
  split; [| split; [done | eexists; split; reflexivity]].
  intros fuel. unfold load_from_disk.
  change (getlines "L k L-4:") with ["L k L-4:"].
  unfold load_lines, load_line.
  change (string_size "L k L-4:" <? 3)%Z with false. cbv iota.
  change (find "L k L-4:" " " 0) with 1%Z.
  change (find "L k L-4:" " " (size_t (1 + 1))) with 3%Z.
  change ((1 =? npos)%Z || (3 =? npos)%Z) with false. cbv iota.
  change (substr "L k L-4:" (1 + 1) (size_t (3 - 1 - 1))) with (Done "k").
  change (substr "L k L-4:" (3 + 1) npos) with (Done "L-4:").
  unfold fbind at 3. unfold fbind at 2.
  unfold ListType_deserialize.
  by rewrite ListType_deserialize_loop_forever.
Qed.

End Defects.

(** * Further properties of the code *)

(** ** [BloomFilter] *)

Lemma BloomFilter_contains_adds hasher key keys filter :
  BloomFilter_contains hasher key filter = true →
  BloomFilter_contains hasher key (foldr (BloomFilter_add hasher) filter keys) = true.
Proof.
  intros H. induction keys as [|k keys IH]; [done |].
  simpl. by apply BloomFilter_contains_mono.
Qed.

(** X1: the filter has no false negative: once a key is added it is found,
    whatever keys are added after it. [add] sets the one bit of the key's
    hash: a key with the same hash (modulo the filter's size) is found too,
    and the answer for a key with another hash does not change. *)
Theorem filter_finds_what_was_added (hasher : string → N) key filter :
  (∀ keys,
     BloomFilter_contains hasher key
       (foldr (BloomFilter_add hasher) (BloomFilter_add hasher key filter) keys)
     = true)
  ∧ (∀ key',
       BloomFilter_hash hasher key' = BloomFilter_hash hasher key →
       BloomFilter_contains hasher key' (BloomFilter_add hasher key filter) = true)
  ∧ (∀ key',
       BloomFilter_hash hasher key' ≠ BloomFilter_hash hasher key →
       BloomFilter_contains hasher key' (BloomFilter_add hasher key filter)
       = BloomFilter_contains hasher key' filter).
Proof.
  split; [| split].
  - intros keys. apply BloomFilter_contains_adds, BloomFilter_contains_add.
  - intros key' H. unfold BloomFilter_contains, BloomFilter_add.
    rewrite H. apply N.setbit_eq.
  - intros key' H. unfold BloomFilter_contains, BloomFilter_add.
    apply N.setbit_neq. congruence.
Qed.

(** ** [LRUCache] *)

Lemma elem_of_erase key k l :
  NoDup l → k ∈ erase key l ↔ k ∈ l ∧ k ≠ key.
Proof.
  induction 1 as [|x l Hx Hl IH]; simpl.
  - split; [by intros ?%elem_of_nil | by intros [?%elem_of_nil _]].
  - destruct (String.eqb_spec x key) as [->|Hne].
    + rewrite elem_of_cons. split.
      * intros Hk. split; [by right | by intros ->].
      * intros [[->|Hk] Hne]; done.
    + rewrite !elem_of_cons, IH. split.
      * intros [->|[Hk Hne']]; [by split; [left |] | by split; [right |]].
      * intros [[->|Hk] Hne']; [by left | by right].
Qed.

(** X2: [access] on a well-formed tracker (no key twice, no more keys than
    its bound, a bound of at least one) puts the key first, once. A key that
    is tracked already moves to the front and no key is dropped; for a new
    key the oldest key is dropped exactly when the tracker is full, and the
    tracker stays well formed. *)
Theorem access_moves_to_front (key : string) (c : LRUCache) :
  cache_ok c →
  (1 ≤ max_size c)%nat →
  let l := lru_cache c in
  let l' := lru_cache (LRUCache_access key c) in
  cache_ok (LRUCache_access key c)
  ∧ (key ∈ l → l' = key :: erase key l ∧ length l' = length l)
  ∧ (key ∉ l → (length l < max_size c)%nat → l' = key :: l)
  ∧ (key ∉ l → length l = max_size c →
     l' = key :: removelast l
     ∧ ∀ oldest, LRUCache_get_oldest c = Some oldest → oldest ∉ l').
Proof.
  intros Hok Hmax l l'. split; [by apply LRUCache_access_ok |].
  destruct Hok as [Hnd Hlen]. subst l l'.
  unfold LRUCache_access, LRUCache_contains, LRUCache_get_oldest.
  cbn [lru_cache max_size].
  generalize dependent (lru_cache c). intros L Hnd Hlen.
  generalize dependent (max_size c). intros m Hmax Hlen.
  split; [| split].
  - intros Hin. rewrite bool_decide_eq_true_2 by done.
    pose proof (erase_length_elem key _ Hin) as He.
    assert (0 < length L) as Hpos.
    { destruct L; [by apply elem_of_nil in Hin | simpl; lia]. }
    assert (length (key :: erase key L) = length L) as Hlen'.
    { simpl. rewrite He. lia. }
    rewrite (proj2 (Nat.ltb_ge _ _)) by lia. done.
  - intros Hin Hroom. rewrite bool_decide_eq_false_2 by done.
    rewrite (proj2 (Nat.ltb_ge _ _)) by (simpl; lia). done.
  - intros Hin Hfull. rewrite bool_decide_eq_false_2 by done.
    rewrite (proj2 (Nat.ltb_lt _ _)) by (simpl; lia).
    assert (removelast (key :: L) = key :: removelast L) as ->.
    { destruct L; [simpl in *; lia | done]. }
    split; [done |].
    intros oldest Hold.
    apply last_Some in Hold as [l0 ->]. rewrite removelast_last.
    apply NoDup_app in Hnd as (_ & Hdisj & _).
    rewrite not_elem_of_cons. split.
    + intros ->. apply Hin. apply elem_of_app. right. by apply list_elem_of_singleton.
    + intros Hin0. apply (Hdisj oldest Hin0). by apply list_elem_of_singleton.
Qed.

Lemma access_moves_to_front_witness :
  let c := mkLRUCache ["a"; "b"; "c"] 3 in
  cache_ok c
  ∧ (1 ≤ max_size c)%nat
  ∧ "b" ∈ lru_cache c
  ∧ ("d" ∉ lru_cache c)
  ∧ length (lru_cache c) = max_size c
  ∧ lru_cache (LRUCache_access "b" c) = ["b"; "a"; "c"]
  ∧ lru_cache (LRUCache_access "d" c) = ["d"; "a"; "b"].
Proof.
  intros c.
  assert (H1 : cache_ok c).
  { split; [apply (bool_decide_unpack _); vm_compute; exact I | simpl; lia]. }
  assert (H2 : (1 ≤ max_size c)%nat) by (simpl; lia).
  assert (H3 : "b" ∈ lru_cache c) by (apply (bool_decide_unpack _); vm_compute; exact I).
  assert (H4 : "d" ∉ lru_cache c) by (apply (bool_decide_unpack _); vm_compute; exact I).
  assert (H5 : length (lru_cache c) = max_size c) by reflexivity.
  destruct (access_moves_to_front "b" c H1 H2) as (_ & Eb & _).
  destruct (access_moves_to_front "d" c H1 H2) as (_ & _ & _ & Ed).
  split; [exact H1 | split; [exact H2 | split; [exact H3 | split; [exact H4 |]]]].
  split; [exact H5 | split].
  - exact (proj1 (Eb H3)).
  - exact (proj1 (Ed H4 H5)).
Defined.

Lemma filter_other_keys key (l : list string) :
  key ∉ l → filter (λ k, k ≠ key) l = l.
Proof.
  induction l as [|x l IH]; [done |].
  rewrite not_elem_of_cons. intros [Hne Hin].
  rewrite filter_cons_True by done. by rewrite IH.
Qed.

Lemma erase_filter key (l : list string) :
  NoDup l → erase key l = filter (λ k, k ≠ key) l.
Proof.
  induction 1 as [|x l Hx Hnd IH]; [done |]. simpl.
  destruct (String.eqb_spec x key) as [->|Hne].
  - rewrite filter_cons_False by (by intros H; apply H).
    by rewrite filter_other_keys.
  - rewrite filter_cons_True by done. by rewrite IH.
Qed.

(** X3: [remove] takes exactly the given key out of a tracker that holds no
    key twice: the other keys stay, in their order, and removing a key that
    is not tracked changes nothing. *)
Theorem remove_takes_one_key_out (key : string) (c : LRUCache) :
  NoDup (lru_cache c) →
  (∀ k, k ∈ lru_cache (LRUCache_remove key c) ↔ k ∈ lru_cache c ∧ k ≠ key)
  ∧ lru_cache (LRUCache_remove key c) = filter (λ k, k ≠ key) (lru_cache c)
  ∧ max_size (LRUCache_remove key c) = max_size c
  ∧ (key ∉ lru_cache c → LRUCache_remove key c = c).
Proof.
  intros Hnd.
  assert (lru_cache (LRUCache_remove key c) = erase key (lru_cache c)) as Hl.
  { unfold LRUCache_remove, LRUCache_contains. case_bool_decide; [done |].
    by rewrite erase_not_elem. }
  split; [| split; [| split]].
  - intros k. rewrite Hl. by apply elem_of_erase.
  - rewrite Hl. by apply erase_filter.
  - unfold LRUCache_remove. by case_match.
  - intros Hin. unfold LRUCache_remove, LRUCache_contains.
    by rewrite bool_decide_eq_false_2.
Qed.

Lemma remove_takes_one_key_out_witness :
  let c := mkLRUCache ["a"; "b"; "c"] 3 in
  NoDup (lru_cache c)
  ∧ lru_cache (LRUCache_remove "b" c) = ["a"; "c"].
Proof.
  intros c.
  assert (H1 : NoDup (lru_cache c))
    by (apply (bool_decide_unpack _); vm_compute; exact I).
  split; [exact H1 |].
  rewrite (proj1 (proj2 (remove_takes_one_key_out "b" c H1))). reflexivity.
Defined.

(** ** The tracker and the store *)

Lemma elem_of_access key k c :
  k ∈ lru_cache (LRUCache_access key c) → k = key ∨ k ∈ lru_cache c.
Proof.
  unfold LRUCache_access, LRUCache_contains. cbn [lru_cache max_size].
  intros H.
  assert (k ∈ key :: (if bool_decide (key ∈ lru_cache c)
                      then erase key (lru_cache c) else lru_cache c)) as H'.
  { destruct (_ <? _); [by apply removelast_subseteq | done]. }
  apply elem_of_cons in H' as [->|H']; [by left | right].
  destruct (bool_decide _); [by apply (erase_subseteq key) | done].
Qed.

Section Tracked.

Variable hasher : string → N.

Lemma tracked_touch key db :
  tracked_stored db → is_Some (store db !! key) →
  tracked_stored (with_cache (LRUCache_access key) db).
Proof.
  intros Hts Hkey k Hk. simpl in *.
  apply elem_of_access in Hk as [->|Hk]; [done | by apply Hts].
Qed.

Lemma tracked_insert key value db :
  tracked_stored db → tracked_stored (with_store <[key := value]> db).
Proof.
  intros Hts k Hk. simpl in *. rewrite lookup_insert.
  case_decide; [done | by apply Hts].
Qed.

Lemma tracked_bloom f db :
  tracked_stored db → tracked_stored (with_bloom_filter f db).
Proof. done. Qed.

Lemma tracked_erase key db :
  cache_ok (cache db) → tracked_stored db → tracked_stored (erase_key key db).
Proof.
  intros [Hnd _] Hts k Hk. simpl in *.
  assert (k ∈ lru_cache (cache db) ∧ k ≠ key) as [Hin Hne].
  { unfold LRUCache_remove, LRUCache_contains in Hk.
    case_bool_decide as Hkey; simpl in Hk.
    - by apply elem_of_erase in Hk.
    - split; [done | by intros ->]. }
  rewrite lookup_delete_ne by done. by apply Hts.
Qed.

Ltac tracked_op :=
  intros (Hok & Hmax & Hcov) Hts;
  repeat match goal with
         | |- context [store ?db !! ?k] =>
             is_var db; destruct (store db !! k) as [[]|] eqn:?; simpl
         end;
  simpl; rewrite ?lookup_insert_eq; simpl;
  repeat case_match; simpl;
  try match goal with
      | H : _ || true = false |- _ => rewrite orb_true_r in H; discriminate H
      end;
  rewrite ?evict_if_needed_touch by (simpl; assumption);
  repeat first
    [ assumption
    | apply tracked_bloom
    | apply tracked_insert
    | apply tracked_erase; [simpl; by apply LRUCache_access_ok |]
    | apply tracked_touch; [| simpl; rewrite ?lookup_insert_eq; by eauto ] ].

Lemma tracked_set key value db :
  db_inv hasher db → tracked_stored db →
  tracked_stored (BlinkDB_set hasher key value db).
Proof. unfold BlinkDB_set. tracked_op. Qed.

Lemma tracked_get key db :
  db_inv hasher db → tracked_stored db →
  tracked_stored (BlinkDB_get hasher key db).2.
Proof. unfold BlinkDB_get. tracked_op. Qed.

Lemma tracked_del key db :
  db_inv hasher db → tracked_stored db → tracked_stored (BlinkDB_del key db).
Proof. intros (Hok & _) Hts. by apply tracked_erase. Qed.

Lemma tracked_lpush key value db :
  db_inv hasher db → tracked_stored db →
  tracked_stored (BlinkDB_lpush hasher key value db).2.
Proof. unfold BlinkDB_lpush, create_list_if_needed. tracked_op. Qed.

Lemma tracked_rpush key value db :
  db_inv hasher db → tracked_stored db →
  tracked_stored (BlinkDB_rpush hasher key value db).2.
Proof. unfold BlinkDB_rpush, create_list_if_needed. tracked_op. Qed.

Lemma tracked_lpop key db :
  db_inv hasher db → tracked_stored db →
  tracked_stored (BlinkDB_lpop key db).2.
Proof. unfold BlinkDB_lpop, ListType_lpop. tracked_op. Qed.

Lemma tracked_rpop key db :
  db_inv hasher db → tracked_stored db →
  tracked_stored (BlinkDB_rpop key db).2.
Proof. unfold BlinkDB_rpop, ListType_rpop. tracked_op. Qed.

Lemma tracked_lindex key index db :
  db_inv hasher db → tracked_stored db →
  tracked_stored (BlinkDB_lindex key index db).2.
Proof. unfold BlinkDB_lindex. tracked_op. Qed.

Lemma tracked_llen key db :
  db_inv hasher db → tracked_stored db →
  tracked_stored (BlinkDB_llen key db).2.
Proof. unfold BlinkDB_llen. tracked_op. Qed.

Lemma tracked_lrange key start end_ db :
  db_inv hasher db → tracked_stored db →
  tracked_stored (BlinkDB_lrange key start end_ db).2.
Proof. unfold BlinkDB_lrange. tracked_op. Qed.

Lemma tracked_sadd key value db :
  db_inv hasher db → tracked_stored db →
  tracked_stored (BlinkDB_sadd hasher key value db).2.
Proof. unfold BlinkDB_sadd, create_set_if_needed. tracked_op. Qed.

Lemma tracked_sismember key value db :
  db_inv hasher db → tracked_stored db →
  tracked_stored (BlinkDB_sismember key value db).2.
Proof. unfold BlinkDB_sismember. tracked_op. Qed.

Lemma tracked_srem key value db :
  db_inv hasher db → tracked_stored db →
  tracked_stored (BlinkDB_srem key value db).2.
Proof. unfold BlinkDB_srem. tracked_op. Qed.

Lemma tracked_scard key db :
  db_inv hasher db → tracked_stored db →
  tracked_stored (BlinkDB_scard key db).2.
Proof. unfold BlinkDB_scard. tracked_op. Qed.

Lemma tracked_smembers key db :
  db_inv hasher db → tracked_stored db →
  tracked_stored (BlinkDB_smembers key db).2.
Proof. unfold BlinkDB_smembers. tracked_op. Qed.

Lemma tracked_hset key field value db :
  db_inv hasher db → tracked_stored db →
  tracked_stored (BlinkDB_hset hasher key field value db).2.
Proof. unfold BlinkDB_hset, create_hash_if_needed. tracked_op. Qed.

Lemma tracked_hget key field db :
  db_inv hasher db → tracked_stored db →
  tracked_stored (BlinkDB_hget key field db).2.
Proof. unfold BlinkDB_hget. tracked_op. Qed.

Lemma tracked_hexists key field db :
  db_inv hasher db → tracked_stored db →
  tracked_stored (BlinkDB_hexists key field db).2.
Proof. unfold BlinkDB_hexists. tracked_op. Qed.

Lemma tracked_hdel key field db :
  db_inv hasher db → tracked_stored db →
  tracked_stored (BlinkDB_hdel key field db).2.
Proof. unfold BlinkDB_hdel. tracked_op. Qed.

Lemma tracked_hlen key db :
  db_inv hasher db → tracked_stored db →
  tracked_stored (BlinkDB_hlen key db).2.
Proof. unfold BlinkDB_hlen. tracked_op. Qed.

Lemma tracked_hkeys key db :
  db_inv hasher db → tracked_stored db →
  tracked_stored (BlinkDB_hkeys key db).2.
Proof. unfold BlinkDB_hkeys. tracked_op. Qed.

Lemma tracked_hvals key db :
  db_inv hasher db → tracked_stored db →
  tracked_stored (BlinkDB_hvals key db).2.
Proof. unfold BlinkDB_hvals. tracked_op. Qed.

Lemma tracked_hgetall key db :
  db_inv hasher db → tracked_stored db →
  tracked_stored (BlinkDB_hgetall key db).2.
Proof. unfold BlinkDB_hgetall. tracked_op. Qed.

Local Hint Resolve
  tracked_set tracked_get tracked_del tracked_lpush tracked_rpush
  tracked_lpop tracked_rpop tracked_lindex tracked_llen tracked_lrange
  tracked_sadd tracked_sismember tracked_srem tracked_scard tracked_smembers
  tracked_hset tracked_hget tracked_hexists tracked_hdel tracked_hlen
  tracked_hkeys tracked_hvals tracked_hgetall : core.

Lemma tracked_dispatch parts db r :
  db_inv hasher db → tracked_stored db →
  dispatch hasher parts db = Done r → tracked_stored r.2.
Proof.
  intros Hinv Hts. unfold dispatch, reply.
  repeat match goal with
         | |- context [if ?c then _ else _] =>
             match type of c with bool => destruct c end
         | |- context [obind ?m _] => destruct m; simpl
         end;
    intros [= <-]; simpl; auto.
Qed.

Lemma tracked_process_command line db :
  db_inv hasher db → tracked_stored db →
  tracked_stored (process_command hasher line db).2.
Proof.
  intros Hinv Hts. unfold process_command, process_parts.
  destruct (tokenize line) as [|p parts]; [done |].
  destruct (dispatch _ _ _) eqn:Hd; [by eapply tracked_dispatch | done].
Qed.

Lemma tracked_process_commands lines db :
  db_inv hasher db → tracked_stored db →
  tracked_stored (process_commands hasher lines db).2.
Proof.
  revert db. induction lines as [|line lines IH]; intros db Hinv Hts; [done |].
  simpl.
  pose proof (db_inv_process_command hasher line db Hinv) as Hinv1.
  pose proof (tracked_process_command line db Hinv Hts) as Hts1.
  destruct (process_command hasher line db) as [r db1].
  specialize (IH db1 Hinv1 Hts1).
  by destruct (process_commands hasher lines db1) as [rs db2].
Qed.

Lemma tracked_load_line fuel line db db' :
  tracked_stored db → load_line hasher fuel line db = Some (Done db') →
  tracked_stored db'.
Proof.
  intros Hts. unfold load_line, fbind.
  repeat case_match; intros [= <-]; try done;
    (apply tracked_bloom, tracked_touch;
     [by apply tracked_insert | simpl; rewrite lookup_insert_eq; by eexists]).
Qed.

Lemma tracked_load_lines fuel lines db db' :
  tracked_stored db → load_lines hasher fuel lines db = Some (Done db') →
  tracked_stored db'.
Proof.
  revert db. induction lines as [|line lines IH]; intros db Hts; simpl.
  - by intros [= <-].
  - destruct (load_line hasher fuel line db) as [[db1|e]|] eqn:Hline; simpl; [|done..].
    intros Hrest. eapply IH; [|done]. by eapply tracked_load_line.
Qed.

Lemma tracked_load_from_disk fuel file db' :
  load_from_disk hasher fuel file BlinkDB_new = Some (Done db') →
  tracked_stored db'.
Proof.
  assert (tracked_stored BlinkDB_new) as Hnew
    by (intros key Hkey; by apply elem_of_nil in Hkey).
  destruct file as [text|]; simpl.
  - by apply tracked_load_lines.
  - by intros [= <-].
Qed.

(** X4: the state the constructor builds, from whatever persistence file
    [load_from_disk] gets through or from none, and every state a session
    of requests reaches from it is well formed: the tracker holds no key
    twice and at most [CACHE_SIZE] keys, every tracked key is a key of the
    store, and every key of the store is found by the filter (so the filter
    test of [get] and [type] never hides a stored key). *)
Theorem sessions_keep_the_state_well_formed
    (fuel : nat) (file : option string) (db0 : BlinkDB) (lines : list string) :
  load_from_disk hasher fuel file BlinkDB_new = Some (Done db0) →
  let db := (process_commands hasher lines db0).2 in
  NoDup (lru_cache (cache db))
  ∧ LRUCache_size (cache db) ≤ CACHE_SIZE
  ∧ max_size (cache db) = CACHE_SIZE
  ∧ (∀ key, key ∈ lru_cache (cache db) → is_Some (store db !! key))
  ∧ (∀ key, is_Some (store db !! key) →
       BloomFilter_contains hasher key (bloom_filter db) = true).
Proof.
  intros Hload db.
  pose proof (db_inv_load_from_disk hasher fuel file db0 Hload) as Hinv0.
  pose proof (tracked_load_from_disk fuel file db0 Hload) as Hts0.
  pose proof (db_inv_process_commands hasher lines db0 Hinv0)
    as ([Hnd Hlen] & Hmax & Hcov).
  pose proof (tracked_process_commands lines db0 Hinv0 Hts0) as Hts.
  fold db in Hnd, Hlen, Hmax, Hcov, Hts.
  split; [done |]. split; [unfold LRUCache_size; lia |].
  split; [done |]. split; [exact Hts | exact Hcov].
Qed.

End Tracked.

Lemma sessions_keep_the_state_well_formed_witness :
  ∃ db0,
    load_from_disk (λ _, 0%N) 3 (Some ("S k v" +:+ String LF "L l L1:a,"))
      BlinkDB_new
    = Some (Done db0)
    ∧ store db0 !! "k" = Some (StringType "v")
    ∧ let db := (process_commands (λ _, 0%N) ["GET k"; "DEL l"] db0).2 in
      NoDup (lru_cache (cache db))
      ∧ ∀ key, key ∈ lru_cache (cache db) → is_Some (store db !! key).
Proof.
  eexists. split; [reflexivity |]. split; [reflexivity |].
  destruct (sessions_keep_the_state_well_formed (λ _, 0%N) 3
              (Some ("S k v" +:+ String LF "L l L1:a,")) _ ["GET k"; "DEL l"]
              eq_refl) as (E1 & _ & _ & E2 & _).
  split; [exact E1 | exact E2].
Defined.

(** ** Keys: [DEL], [SET], [TYPE] *)

Section Keys.

Variable hasher : string → N.

Lemma process_parts_DEL key rest db :
  process_parts hasher ("DEL" :: key :: rest) db
  = (":1" +:+ CRLF, BlinkDB_del key db).
Proof. reflexivity. Qed.

Lemma tokens2 a b : is_token a → is_token b → Forall is_token [a; b].
Proof. intros. by repeat apply Forall_cons_2. Qed.

Lemma tokens3 a b c :
  is_token a → is_token b → is_token c → Forall is_token [a; b; c].
Proof. intros. by repeat apply Forall_cons_2. Qed.

Lemma tokens4 a b c d :
  is_token a → is_token b → is_token c → is_token d →
  Forall is_token [a; b; c; d].
Proof. intros. by repeat apply Forall_cons_2. Qed.

Lemma is_token_literal s : s ≠ "" → no_space s = true → is_token s.
Proof. by split. Qed.

Lemma BlinkDB_get_absent key db :
  store db !! key = None → BlinkDB_get hasher key db = ("NULL", db).
Proof.
  intros H. unfold BlinkDB_get.
  rewrite bool_decide_eq_true_2 by done. by rewrite orb_true_r.
Qed.

(** X5: [DEL k] is answered [:1] whether the key exists or not; after it the
    key is in neither the store nor (in a well-formed tracker) the tracker,
    the other keys are as before, [GET k] is answered with the null bulk
    string and changes nothing, and [TYPE k] is answered [none]. *)
Theorem del_then_get (k : string) db :
  is_token k →
  let r1 := process_command hasher (request ["DEL"; k]) db in
  let r2 := process_command hasher (request ["GET"; k]) r1.2 in
  r1.1 = ":1" +:+ CRLF
  ∧ store r1.2 = delete k (store db)
  ∧ (NoDup (lru_cache (cache db)) → k ∉ lru_cache (cache r1.2))
  ∧ r2 = ("$-1" +:+ CRLF, r1.2)
  ∧ (process_command hasher (request ["TYPE"; k]) r1.2).1 = "+none" +:+ CRLF.
Proof.
  intros Hk r1 r2. subst r1 r2.
  rewrite !process_command_request
    by (apply tokens2; [by apply is_token_literal | done]).
  rewrite process_parts_DEL, process_parts_GET, process_parts_TYPE. simpl.
  split; [done | split; [done | split; [| split]]].
  - intros Hnd. unfold LRUCache_remove, LRUCache_contains.
    case_bool_decide as Hin; simpl; [by apply erase_NoDup | done].
  - rewrite BlinkDB_get_absent by (simpl; apply lookup_delete_eq). done.
  - unfold BlinkDB_type. simpl. rewrite lookup_delete_eq.
    rewrite bool_decide_eq_true_2 by done. by rewrite orb_true_r.
Qed.

End Keys.

Lemma del_then_get_witness :
  let db := BlinkDB_set (λ _, 0%N) "foo" "bar" BlinkDB_new in
  is_token "foo"
  ∧ (process_command (λ _, 0%N) "DEL foo" db).1 = ":1" +:+ CRLF
  ∧ (process_command (λ _, 0%N) "GET foo"
       (process_command (λ _, 0%N) "DEL foo" db).2).1 = "$-1" +:+ CRLF.
Proof.
  intros db.
  assert (H1 : is_token "foo") by (split; [discriminate | reflexivity]).
  destruct (del_then_get (λ _, 0%N) "foo" db H1) as (E1 & _ & _ & E2 & _).
  split; [exact H1 | split; [exact E1 |]].
  cbv zeta in E2. exact (f_equal fst E2).
Defined.

Section SetType.

Variable hasher : string → N.

(** X6: [SET k v] overwrites whatever [k] holds, of whatever kind: it is
    answered [+OK], afterwards [k] holds the string [v] and is the most
    recently used key, [TYPE k] is answered [string] and every other key
    holds what it held. *)
Theorem set_overwrites_any_value (k v : string) db :
  db_inv hasher db →
  is_token k → is_token v →
  let r := process_command hasher (request ["SET"; k; v]) db in
  r.1 = "+OK" +:+ CRLF
  ∧ store r.2 = <[k := StringType v]> (store db)
  ∧ (∀ k', k' ≠ k → store r.2 !! k' = store db !! k')
  ∧ head (lru_cache (cache r.2)) = Some k
  ∧ process_command hasher (request ["TYPE"; k]) r.2 = ("+string" +:+ CRLF, r.2).
Proof.
  intros Hinv Hk Hv r. subst r.
  assert (is_token "SET") as HSET by (by apply is_token_literal).
  assert (is_token "TYPE") as HTYPE by (by apply is_token_literal).
  rewrite !process_command_request by (by repeat apply Forall_cons_2).
  rewrite process_parts_SET, process_parts_TYPE. cbn [fst snd].
  pose proof (db_inv_set hasher k v db Hinv) as (Hok' & Hmax' & Hcov').
  assert (store (BlinkDB_set hasher k v db) = <[k := StringType v]> (store db)) as Hs.
  { destruct Hinv as (Hok & Hmax & _). unfold BlinkDB_set.
    by rewrite evict_if_needed_touch. }
  split; [done | split; [done | split; [| split]]].
  - intros k' Hne. rewrite Hs. by apply lookup_insert_ne.
  - destruct Hinv as (Hok & Hmax & _). unfold BlinkDB_set.
    rewrite evict_if_needed_touch by done. simpl.
    apply LRUCache_access_head; [done |]. rewrite Hmax. unfold CACHE_SIZE. lia.
  - rewrite BlinkDB_type_kind by done. rewrite Hs, lookup_insert_eq. done.
Qed.

(** X7: [TYPE k] is answered with the name of the kind of the value [k]
    holds, or [none] when the store has no such key, and changes nothing,
    the tracker included. *)
Theorem type_names_the_kind (k : string) db :
  db_inv hasher db →
  is_token k →
  process_command hasher (request ["TYPE"; k]) db
  = ("+" +:+ match store db !! k with
             | Some value => kind_name value
             | None => "none"
             end +:+ CRLF, db).
Proof.
  intros (_ & _ & Hcov) Hk.
  assert (is_token "TYPE") as HTYPE by (by apply is_token_literal).
  rewrite process_command_request by (by repeat apply Forall_cons_2).
  rewrite process_parts_TYPE. by rewrite BlinkDB_type_kind.
Qed.

End SetType.

Lemma set_overwrites_any_value_witness :
  let db := (process_command (λ _, 0%N) "RPUSH k a" BlinkDB_new).2 in
  db_inv (λ _, 0%N) db
  ∧ is_token "k" ∧ is_token "v"
  ∧ store db !! "k" = Some (ListType ["a"])
  ∧ store (process_command (λ _, 0%N) "SET k v" db).2 !! "k" = Some (StringType "v").
Proof.
  intros db.
  assert (H0 : db_inv (λ _, 0%N) db)
    by apply db_inv_process_command, BlinkDB_new_inv.
  assert (H1 : is_token "k") by (split; [discriminate | reflexivity]).
  assert (H2 : is_token "v") by (split; [discriminate | reflexivity]).
  destruct (set_overwrites_any_value (λ _, 0%N) "k" "v" db H0 H1 H2)
    as (_ & E & _).
  split; [exact H0 | split; [exact H1 | split; [exact H2 | split; [reflexivity |]]]].
  cbv zeta in E.
  change (store (process_command (λ _, 0%N) (request ["SET"; "k"; "v"]) db).2 !! "k"
          = Some (StringType "v")).
  rewrite E. apply lookup_insert_eq.
Defined.

Lemma type_names_the_kind_witness :
  let db := (process_command (λ _, 0%N) "SADD k a" BlinkDB_new).2 in
  db_inv (λ _, 0%N) db
  ∧ is_token "k"
  ∧ process_command (λ _, 0%N) "TYPE k" db = ("+set" +:+ CRLF, db).
Proof.
  intros db.
  assert (H0 : db_inv (λ _, 0%N) db)
    by apply db_inv_process_command, BlinkDB_new_inv.
  assert (H1 : is_token "k") by (split; [discriminate | reflexivity]).
  split; [exact H0 | split; [exact H1 |]].
  exact (type_names_the_kind (λ _, 0%N) "k" db H0 H1).
Defined.

(** ** Numbers as text *)

Local Open Scope Z_scope.

Lemma string_size_append a b : string_size (a +:+ b) = string_size a + string_size b.
Proof.
  unfold string_size. induction a as [|c a IH]; [rewrite append_nil; simpl; lia |].
  rewrite append_cons. simpl String.length. lia.
Qed.

Lemma string_size_nonneg s : 0 ≤ string_size s.
Proof. unfold string_size. lia. Qed.

Lemma to_string_nonneg z :
  0 ≤ z →
  ∃ d, d ≠ Decimal.Nil
       ∧ to_string z = NilEmpty.string_of_uint d
       ∧ Z.of_N (Pos.of_uint d) = z.
Proof.
  intros Hz. unfold to_string. destruct z as [|p|p]; [| |lia].
  - exists (Decimal.D0 Decimal.Nil). by repeat split.
  - exists (Pos.to_uint p). split; [apply DecimalPos.Unsigned.to_uint_nonnil |].
    split.
    + simpl. unfold NilZero.string_of_uint.
      pose proof (DecimalPos.Unsigned.to_uint_nonnil p).
      by destruct (Pos.to_uint p).
    + by rewrite DecimalPos.Unsigned.of_to.
Qed.

Lemma read_digits_stop rest acc :
  match rest with
  | EmptyString => True
  | String c _ => isdigit c = false
  end →
  read_digits rest acc = acc.
Proof. destruct rest as [|c rest]; [done |]. simpl. by intros ->. Qed.

Lemma read_digits_digit c s acc :
  isdigit c = true →
  read_digits (String c s) acc
  = read_digits s (Some (10 * default 0 acc + (Z.of_N (N_of_ascii c) - 48))).
Proof. simpl. by intros ->. Qed.

Ltac eval_digit :=
  match goal with
  | |- context [Z.of_N (N_of_ascii ?c) - 48] =>
      let v := eval vm_compute in (Z.of_N (N_of_ascii c) - 48) in
      change (Z.of_N (N_of_ascii c) - 48) with v
  end.

Lemma read_digits_uint_acc d rest p :
  read_digits (NilEmpty.string_of_uint d +:+ rest) (Some (Z.pos p))
  = read_digits rest (Some (Z.pos (Pos.of_uint_acc d p))).
Proof.
  revert p. induction d as [|d IH|d IH|d IH|d IH|d IH|d IH|d IH|d IH|d IH|d IH];
    intros p; [done | ..];
    cbn [NilEmpty.string_of_uint]; rewrite append_cons;
    rewrite read_digits_digit by reflexivity;
    cbn [Pos.of_uint_acc]; rewrite <- IH; do 2 f_equal;
    eval_digit; change (default 0 (Some (Z.pos p))) with (Z.pos p); lia.
Qed.

Lemma read_digits_uint d rest acc :
  default 0 acc = 0 →
  d ≠ Decimal.Nil →
  read_digits (NilEmpty.string_of_uint d +:+ rest) acc
  = read_digits rest (Some (Z.of_N (Pos.of_uint d))).
Proof.
  intros Hacc. revert acc Hacc.
  induction d as [|d IH|d IH|d IH|d IH|d IH|d IH|d IH|d IH|d IH|d IH];
    intros acc Hacc Hd; [done | ..];
    cbn [NilEmpty.string_of_uint]; rewrite append_cons;
    rewrite read_digits_digit by reflexivity; rewrite Hacc; eval_digit;
    cbn [Pos.of_uint];
    [ assert (d = Decimal.Nil ∨ d ≠ Decimal.Nil) as [-> | Hnil]
        by (destruct d; first [by left | by right]);
      [ reflexivity | by apply IH ]
    | exact (read_digits_uint_acc d rest _) .. ].
Qed.

Lemma stoi_uint d :
  d ≠ Decimal.Nil →
  Z.of_N (Pos.of_uint d) ≤ INT_MAX →
  stoi (NilEmpty.string_of_uint d) = Done (Z.of_N (Pos.of_uint d)).
Proof.
  intros Hd Hmax.
  assert (read_digits (NilEmpty.string_of_uint d) None
          = Some (Z.of_N (Pos.of_uint d))) as Hread.
  { rewrite <- (append_empty_r (NilEmpty.string_of_uint d)).
    by rewrite read_digits_uint. }
  assert (0 ≤ Z.of_N (Pos.of_uint d)) as Hpos by lia.
  unfold stoi.
  assert (skip_space (NilEmpty.string_of_uint d) = NilEmpty.string_of_uint d) as ->.
  { destruct d; reflexivity. }
  assert (match NilEmpty.string_of_uint d with
          | String "-"%char s' => (true, s')
          | String "+"%char s' => (false, s')
          | _ => (false, NilEmpty.string_of_uint d)
          end = (false, NilEmpty.string_of_uint d)) as ->.
  { destruct d; reflexivity. }
  rewrite Hread.
  rewrite (proj2 (Z.leb_le _ _)) by (unfold INT_MIN; lia).
  by rewrite (proj2 (Z.leb_le _ _)).
Qed.

(** The text [std::to_string] writes for a size is read back by [std::stoi]. *)
Lemma stoi_to_string z :
  0 ≤ z ≤ INT_MAX → stoi (to_string z) = Done z.
Proof.
  intros [Hz Hmax]. destruct (to_string_nonneg z Hz) as (d & Hd & -> & Hv).
  rewrite stoi_uint by (done || lia). by rewrite Hv.
Qed.

Lemma uint_first_char d :
  d ≠ Decimal.Nil →
  ∃ c rest, NilEmpty.string_of_uint d = String c rest ∧ isdigit c = true.
Proof.
  destruct d; [done | ..]; intros _; eexists _, _; split; reflexivity.
Qed.

Lemma to_string_is_no_error z : 0 ≤ z → is_WRONGTYPE (to_string z) = false.
Proof.
  intros Hz. destruct (to_string_nonneg z Hz) as (d & Hd & -> & _).
  destruct d; [done | ..]; reflexivity.
Qed.

Local Close Scope Z_scope.

(** ** The persistence text of a value *)

Local Open Scope Z_scope.

Lemma string_size_cons c s : string_size (String c s) = 1 + string_size s.
Proof. unfold string_size. simpl String.length. lia. Qed.

Lemma string_drop_append a b : string_drop (String.length a) (a +:+ b) = b.
Proof. induction a as [|c a IH]; [done |]. by rewrite append_cons. Qed.

Lemma string_take_append a b : string_take (String.length a) (a +:+ b) = a.
Proof.
  induction a as [|c a IH]; [by destruct b |].
  rewrite append_cons. simpl. by rewrite IH.
Qed.

Lemma size_t_small z : 0 ≤ z < 2 ^ 64 → size_t z = z.
Proof. intros. unfold size_t. by apply Z.mod_small. Qed.

Lemma substr_at a b c pos len :
  pos = string_size a → len = string_size b →
  substr (a +:+ (b +:+ c)) pos len = Done b.
Proof.
  intros -> ->. unfold substr. rewrite !string_size_append.
  pose proof (string_size_nonneg b). pose proof (string_size_nonneg c).
  rewrite (proj2 (Z.ltb_ge _ _)) by lia.
  rewrite Z.min_l by lia. unfold string_size. rewrite !Nat2Z.id.
  by rewrite string_drop_append, string_take_append.
Qed.

Lemma index_from_uint d rest i :
  index_from ":" (NilEmpty.string_of_uint d +:+ String ":" rest) i
  = i + string_size (NilEmpty.string_of_uint d).
Proof.
  revert i. unfold string_size.
  induction d as [|d IH|d IH|d IH|d IH|d IH|d IH|d IH|d IH|d IH|d IH];
    intros i; [simpl; lia | ..];
    cbn [NilEmpty.string_of_uint]; rewrite append_cons;
    cbn [index_from String.length];
    match goal with
    | |- context [Ascii.eqb ?a ?b] => change (Ascii.eqb a b) with false
    end; cbv iota; rewrite IH; lia.
Qed.

(** [find] meets the colon that ends a length. *)
Lemma find_colon a z rest pos :
  0 ≤ z → pos = string_size a →
  find (a +:+ (to_string z +:+ String ":" rest)) ":" pos
  = pos + string_size (to_string z).
Proof.
  intros Hz ->. destruct (to_string_nonneg z Hz) as (d & _ & -> & _).
  unfold find. rewrite !string_size_append.
  pose proof (string_size_nonneg (NilEmpty.string_of_uint d)).
  assert (0 < string_size (String ":" rest))
    by (rewrite string_size_cons; pose proof (string_size_nonneg rest); lia).
  rewrite (proj2 (Z.leb_gt _ _)) by lia.
  unfold string_size at 1. rewrite Nat2Z.id, string_drop_append.
  apply index_from_uint.
Qed.

(** [find] started on a colon stays there. *)
Lemma find_here a rest pos :
  pos = string_size a → find (a +:+ String ":" rest) ":" pos = pos.
Proof.
  intros ->. unfold find. rewrite string_size_append.
  assert (0 < string_size (String ":" rest))
    by (rewrite string_size_cons; pose proof (string_size_nonneg rest); lia).
  rewrite (proj2 (Z.leb_gt _ _)) by lia.
  unfold string_size at 1. by rewrite Nat2Z.id, string_drop_append.
Qed.

Lemma sized_eq element :
  sized element
  = to_string (string_size element) +:+ String ":" (element +:+ ",").
Proof. reflexivity. Qed.

Lemma string_size_sized element :
  string_size (sized element)
  = string_size (to_string (string_size element)) + string_size element + 2.
Proof.
  rewrite sized_eq, string_size_append, string_size_cons, string_size_append.
  rewrite string_size_cons. change (string_size "") with 0. lia.
Qed.

(** What the deserialisers do at the start of a length-prefixed text: the
    length is read up to its colon and the text is cut out, whatever
    characters it holds. *)
Lemma length_and_text_are_read pre text rest :
  string_size text ≤ INT_MAX →
  let data := pre +:+ to_string (string_size text) +:+ String ":" (text +:+ rest) in
  string_size data < npos →
  let colon_pos := find data ":" (string_size pre) in
  colon_pos = string_size pre + string_size (to_string (string_size text))
  ∧ (string_size pre <? string_size data) = true
  ∧ (colon_pos =? npos) = false
  ∧ substr data (string_size pre) (colon_pos - string_size pre)
    = Done (to_string (string_size text))
  ∧ substr data (colon_pos + 1) (size_t (string_size text)) = Done text.
Proof.
  intros Hmax data Hsize colon_pos.
  pose proof (string_size_nonneg pre) as Hpre.
  pose proof (string_size_nonneg text) as Htext.
  pose proof (string_size_nonneg rest) as Hrest.
  pose proof (string_size_nonneg (to_string (string_size text))) as Hdigits.
  assert (string_size data
          = string_size pre + string_size (to_string (string_size text)) + 1
            + string_size text + string_size rest)
    as Hdata
    by (unfold data; rewrite !string_size_append, string_size_cons,
          string_size_append; lia).
  assert (colon_pos
          = string_size pre + string_size (to_string (string_size text)))
    as Hcolon by (by apply find_colon).
  unfold npos in *.
  repeat split.
  - done.
  - apply Z.ltb_lt. lia.
  - apply Z.eqb_neq. lia.
  - apply substr_at; [done | lia].
  - rewrite size_t_small by (unfold INT_MAX in Hmax; lia).
    replace data
      with ((pre +:+ to_string (string_size text) +:+ ":") +:+ (text +:+ rest)).
    + apply substr_at; [| done].
      rewrite !string_size_append, string_size_cons.
      change (string_size "") with 0. lia.
    + unfold data. by rewrite !append_assoc, !append_cons, !append_nil.
Qed.

(** One round of the loop that [ListType::deserialize] and
    [SetType::deserialize] share: the position moves from the start of a
    saved element to the start of the next one. *)
Lemma sized_element_is_read pre element rest :
  string_size element ≤ INT_MAX →
  string_size (pre +:+ sized element +:+ rest) < npos →
  let data := pre +:+ sized element +:+ rest in
  let colon_pos := find data ":" (string_size pre) in
  (string_size pre <? string_size data) = true
  ∧ (colon_pos =? npos) = false
  ∧ substr data (string_size pre) (colon_pos - string_size pre)
    = Done (to_string (string_size element))
  ∧ substr data (colon_pos + 1) (size_t (string_size element)) = Done element
  ∧ size_t (colon_pos + string_size element + 2)
    = string_size (pre +:+ sized element).
Proof.
  intros Hmax Hsize data colon_pos.
  assert (data = pre +:+ to_string (string_size element)
                   +:+ String ":" (element +:+ ("," +:+ rest))) as Hdata.
  { unfold data. rewrite sized_eq.
    by rewrite !append_assoc, !append_cons, !append_assoc. }
  fold data in Hsize. unfold colon_pos. clearbody data. subst data.
  destruct (length_and_text_are_read pre element ("," +:+ rest) Hmax Hsize)
    as (Hcolon & Hpos & Hnpos & Hdigits & Hcut).
  repeat split; try done.
  rewrite Hcolon.
  pose proof (string_size_nonneg pre).
  pose proof (string_size_nonneg element).
  pose proof (string_size_nonneg (to_string (string_size element))).
  pose proof (string_size_nonneg rest).
  rewrite !string_size_append, string_size_cons, !string_size_append in Hsize.
  change (string_size ",") with 1 in Hsize. unfold npos in Hsize.
  rewrite string_size_append, string_size_sized.
  rewrite size_t_small by lia. lia.
Qed.

Lemma ListType_deserialize_loop_sized rest :
  ∀ pre elements fuel,
    (length rest < fuel)%nat →
    Forall (λ element, string_size element ≤ INT_MAX) rest →
    string_size (pre +:+ string_concat (map sized rest)) < npos →
    ListType_deserialize_loop fuel (pre +:+ string_concat (map sized rest))
      (string_size pre) elements
    = Some (Done (elements ++ rest)).
Proof.
  induction rest as [|element rest IH]; intros pre elements fuel Hfuel Hmax Hsize.
  - destruct fuel as [|fuel]; [simpl in Hfuel; lia |].
    simpl. rewrite append_empty_r, Z.ltb_irrefl. by rewrite app_nil_r.
  - destruct fuel as [|fuel]; [simpl in Hfuel; lia |].
    cbn [map string_concat foldr] in *. fold (string_concat (map sized rest)) in *.
    inversion Hmax as [|? ? Helement Hrest]; subst.
    destruct (sized_element_is_read pre element _ Helement Hsize)
      as (Hpos & Hcolon & Hdigits & Hcut & Hnext).
    cbn [ListType_deserialize_loop]. rewrite Hpos. cbv zeta.
    rewrite Hcolon, Hdigits. cbn [fbind].
    rewrite stoi_to_string by (pose proof (string_size_nonneg element); lia).
    cbn [fbind]. rewrite Hcut. cbn [fbind]. rewrite Hnext.
    rewrite <- append_assoc. rewrite IH;
      [| simpl in Hfuel; lia | done | by rewrite append_assoc].
    by rewrite <- app_assoc.
Qed.

Lemma SetType_deserialize_loop_sized rest :
  ∀ pre elements fuel,
    (length rest < fuel)%nat →
    Forall (λ element, string_size element ≤ INT_MAX) rest →
    string_size (pre +:+ string_concat (map sized rest)) < npos →
    SetType_deserialize_loop fuel (pre +:+ string_concat (map sized rest))
      (string_size pre) elements
    = Some (Done (list_to_set rest ∪ elements)).
Proof.
  induction rest as [|element rest IH]; intros pre elements fuel Hfuel Hmax Hsize.
  - destruct fuel as [|fuel]; [simpl in Hfuel; lia |].
    simpl. rewrite append_empty_r, Z.ltb_irrefl. do 2 f_equal.
    by rewrite (left_id_L ∅ (∪)).
  - destruct fuel as [|fuel]; [simpl in Hfuel; lia |].
    cbn [map string_concat foldr] in *. fold (string_concat (map sized rest)) in *.
    inversion Hmax as [|? ? Helement Hrest]; subst.
    destruct (sized_element_is_read pre element _ Helement Hsize)
      as (Hpos & Hcolon & Hdigits & Hcut & Hnext).
    cbn [SetType_deserialize_loop]. rewrite Hpos. cbv zeta.
    rewrite Hcolon, Hdigits. cbn [fbind].
    rewrite stoi_to_string by (pose proof (string_size_nonneg element); lia).
    cbn [fbind]. rewrite Hcut. cbn [fbind]. rewrite Hnext.
    rewrite <- append_assoc. rewrite IH;
      [| simpl in Hfuel; lia | done | by rewrite append_assoc].
    do 2 f_equal. cbn [list_to_set foldr].
    rewrite (assoc_L (∪)). f_equal. apply (comm_L (∪)).
Qed.

Lemma ListType_deserialize_tagged fuel body :
  ListType_deserialize fuel ("L" +:+ body)
  = ListType_deserialize_loop fuel ("L" +:+ body) (string_size "L") [].
Proof. reflexivity. Qed.

Lemma SetType_deserialize_tagged fuel body :
  SetType_deserialize fuel ("S" +:+ body)
  = SetType_deserialize_loop fuel ("S" +:+ body) (string_size "S") ∅.
Proof. reflexivity. Qed.

(** X8. A list written by [ListType::serialize] is read back unchanged by
    [ListType::deserialize], whatever characters its elements hold
    (colons, commas, digits, blanks), as long as every element is at most
    [INT_MAX] characters long and the text fits a [size_t]; the loop ends
    within one round per element. *)
Theorem saved_list_is_read_back (elements : list string) (fuel : nat) :
  Forall (λ element, string_size element ≤ INT_MAX) elements →
  string_size (ListType_serialize elements) < npos →
  (length elements < fuel)%nat →
  ListType_deserialize fuel (ListType_serialize elements) = Some (Done elements).
Proof.
  intros Hmax Hsize Hfuel. unfold ListType_serialize in *.
  rewrite ListType_deserialize_tagged.
  by rewrite ListType_deserialize_loop_sized.
Qed.

Lemma saved_list_is_read_back_witness :
  ListType_deserialize 3 (ListType_serialize ["a:b,"; ""])
  = Some (Done ["a:b,"; ""]).
Proof.
  apply (saved_list_is_read_back ["a:b,"; ""] 3).
  - repeat constructor; by vm_compute.
  - by vm_compute.
  - simpl; lia.
Defined.

(** X9. A set written by [SetType::serialize] is read back unchanged by
    [SetType::deserialize], under the same bounds. *)
Theorem saved_set_is_read_back (elements : gset string) (fuel : nat) :
  set_Forall (λ element, string_size element ≤ INT_MAX) elements →
  string_size (SetType_serialize elements) < npos →
  (base.size elements < fuel)%nat →
  SetType_deserialize fuel (SetType_serialize elements) = Some (Done elements).
Proof.
  intros Hmax Hsize Hfuel. unfold SetType_serialize in *.
  rewrite SetType_deserialize_tagged, SetType_deserialize_loop_sized.
  - do 2 f_equal. rewrite (right_id_L ∅ (∪)). apply list_to_set_elements_L.
  - done.
  - apply Forall_forall. intros element Helement. apply Hmax.
    by apply elem_of_elements.
  - done.
Qed.

Lemma saved_set_is_read_back_witness :
  SetType_deserialize 3 (SetType_serialize {["a:b,"; "c"]})
  = Some (Done {["a:b,"; "c"]}).
Proof.
  apply (saved_set_is_read_back {["a:b,"; "c"]} 3).
  - intros element Helement. apply elem_of_union in Helement as [H | H];
      apply elem_of_singleton in H; subst; by vm_compute.
  - by vm_compute.
  - by vm_compute.
Defined.

(** X10. No hash with a field comes back from its own saved text:
    [HashType::deserialize] looks for the length of the first value one
    character too early, on the colon that ends the field, hands
    [std::stoi] an empty text, and the exception leaves the function. *)
Theorem saved_hash_is_never_read_back (fields : gmap string string) (fuel : nat) :
  fields ≠ ∅ →
  map_Forall (λ field _, string_size field ≤ INT_MAX) fields →
  string_size (HashType_serialize fields) < npos →
  HashType_deserialize (S fuel) (HashType_serialize fields)
  = Some (Threw invalid_argument).
Proof.
  intros Hfields Hmax Hsize. unfold HashType_serialize in *.
  destruct (map_to_list fields) as [|[field value] more] eqn:Hlist.
  { by apply map_to_list_empty_iff in Hlist. }
  assert (string_size field ≤ INT_MAX) as Hfield.
  { apply (Hmax field value). apply elem_of_map_to_list. rewrite Hlist. by left. }
  cbn [map string_concat foldr] in *.
  match goal with
  | |- context [foldr append "" (map ?f more)] =>
      set (rest := foldr append "" (map f more)) in *
  end.
  set (tail := ":" +:+ to_string (string_size value) +:+ ":" +:+ value +:+ "," +:+ rest).
  assert ("H" +:+ (to_string (string_size field) +:+ ":" +:+ field +:+ ":" +:+
                   to_string (string_size value) +:+ ":" +:+ value +:+ ",") +:+ rest
          = "H" +:+ to_string (string_size field) +:+ String ":" (field +:+ tail))
    as Hdata.
  { unfold tail. by rewrite !append_assoc, !append_cons, !append_nil. }
  rewrite Hdata in *.
  destruct (length_and_text_are_read "H" field tail Hfield Hsize)
    as (Hcolon & Hpos & Hnpos & Hdigits & Hcut).
  set (data := "H" +:+ to_string (string_size field) +:+ String ":" (field +:+ tail)) in *.
  change data with (String "H" (to_string (string_size field) +:+ String ":" (field +:+ tail))) at 1.
  cbn [HashType_deserialize HashType_deserialize_loop].
  change (String "H" (to_string (string_size field) +:+ String ":" (field +:+ tail)))
    with data.
  change (string_size "H") with 1 in Hcolon, Hpos, Hnpos, Hdigits, Hcut.
  rewrite Hpos. cbv zeta.
  rewrite Hnpos, Hdigits. cbn [fbind].
  rewrite stoi_to_string by (pose proof (string_size_nonneg field); lia).
  cbn [fbind]. rewrite Hcut. cbn [fbind].
  set (before := "H" +:+ to_string (string_size field) +:+ ":" +:+ field).
  assert (data = before +:+ tail) as Hdata'.
  { unfold data, before. by rewrite !append_assoc, !append_cons, !append_nil. }
  pose proof (string_size_nonneg field).
  pose proof (string_size_nonneg (to_string (string_size field))).
  pose proof (string_size_nonneg tail).
  assert (string_size before
          = 1 + string_size (to_string (string_size field)) + 1 + string_size field)
    as Hbefore.
  { unfold before. rewrite !string_size_append.
    change (string_size "H") with 1. change (string_size ":") with 1. lia. }
  assert (string_size data = string_size before + string_size tail) as Hlen
    by (by rewrite Hdata', string_size_append).
  unfold npos in Hsize.
  assert (size_t (find data ":" 1 + string_size field + 1)
          = string_size before) as ->.
  { rewrite Hcolon, size_t_small; lia. }
  assert (find data ":" (string_size before) = string_size before) as ->.
  { rewrite Hdata'. unfold tail. rewrite append_cons, append_nil.
    by apply find_here. }
  rewrite (proj2 (Z.eqb_neq _ _)) by (unfold npos; lia).
  rewrite Z.sub_diag. change (size_t 0) with 0.
  rewrite Hdata'. rewrite <- (append_nil tail) at 1.
  rewrite (substr_at before "" tail) by done.
  reflexivity.
Qed.

Lemma saved_hash_is_never_read_back_witness :
  HashType_deserialize 1 (HashType_serialize {["f" := "v"]})
  = Some (Threw invalid_argument).
Proof.
  apply (saved_hash_is_never_read_back {["f" := "v"]} 0).
  - apply insert_non_empty.
  - intros field value Hfield. apply lookup_singleton_Some in Hfield as [<- _].
    by vm_compute.
  - by vm_compute.
Defined.

(** ** The persistence file *)

Lemma lacks_append c a b : lacks c (a +:+ b) = lacks c a && lacks c b.
Proof.
  induction a as [|x a IH]; [done |].
  rewrite append_cons. simpl. rewrite IH. by rewrite andb_assoc.
Qed.

Lemma lacks_uint d : lacks LF (NilEmpty.string_of_uint d) = true.
Proof. induction d; simpl; try done. Qed.

Lemma lacks_to_string z : 0 ≤ z → lacks LF (to_string z) = true.
Proof.
  intros Hz. destruct (to_string_nonneg z Hz) as (d & _ & -> & _).
  apply lacks_uint.
Qed.

Lemma lacks_sized element :
  lacks LF element = true → lacks LF (sized element) = true.
Proof.
  intros Helement. unfold sized. rewrite !lacks_append, Helement.
  by rewrite lacks_to_string by apply string_size_nonneg.
Qed.

Lemma lacks_sized_all elements :
  Forall text_ok elements →
  lacks LF (string_concat (map sized elements)) = true.
Proof.
  induction 1 as [|element elements [Helement _] _ IH]; [done |].
  cbn [map string_concat foldr]. fold (string_concat (map sized elements)).
  by rewrite lacks_append, lacks_sized, IH.
Qed.

Lemma lacks_entry_line key value :
  savable key value → lacks LF (entry_line key value) = true.
Proof.
  intros (_ & Hkey & _ & Hvalue). unfold entry_line.
  rewrite !lacks_append, Hkey.
  assert (lacks LF (type_char value) = true) as -> by by destruct value.
  assert (lacks LF (serialize value) = true) as ->; [| done].
  destruct value as [value|elements|elements|fields]; cbn [serialize].
  - done.
  - unfold ListType_serialize. rewrite lacks_append. by rewrite lacks_sized_all.
  - unfold SetType_serialize. rewrite lacks_append. rewrite lacks_sized_all; [done |].
    apply Forall_forall. intros element Helement. apply Hvalue.
    by apply elem_of_elements.
  - done.
Qed.

Lemma split_lines_line line rest cur :
  lacks LF line = true →
  split_lines (line +:+ String LF rest) cur
  = (cur +:+ line) :: split_lines rest "".
Proof.
  revert cur. induction line as [|c line IH]; intros cur Hline.
  - rewrite append_nil. cbn [split_lines]. rewrite Ascii.eqb_refl.
    by rewrite append_empty_r.
  - simpl in Hline. apply andb_prop in Hline as [Hc Hline].
    rewrite append_cons. cbn [split_lines].
    apply negb_true_iff in Hc. rewrite Hc, IH by done.
    by rewrite append_assoc.
Qed.

Lemma getlines_lines lines :
  Forall (λ line, lacks LF line = true) lines →
  getlines (string_concat (map (λ line, line +:+ String LF "") lines)) = lines.
Proof.
  unfold getlines. induction 1 as [|line lines Hline _ IH]; [done |].
  cbn [map string_concat foldr].
  rewrite append_assoc, append_cons, append_nil.
  rewrite split_lines_line by done. rewrite append_nil. f_equal. exact IH.
Qed.

Lemma index_from_lacks c a rest i :
  lacks c a = true →
  index_from c (a +:+ String c rest) i = i + string_size a.
Proof.
  revert i. induction a as [|x a IH]; intros i Ha.
  - rewrite append_nil. cbn [index_from]. rewrite Ascii.eqb_refl.
    change (string_size "") with 0. lia.
  - simpl in Ha. apply andb_prop in Ha as [Hx Ha]. apply negb_true_iff in Hx.
    rewrite append_cons. cbn [index_from]. rewrite Hx, IH by done.
    rewrite string_size_cons. lia.
Qed.

Lemma find_char c a b rest pos :
  lacks c b = true → pos = string_size a →
  find (a +:+ (b +:+ String c rest)) c pos = pos + string_size b.
Proof.
  intros Hb ->. unfold find. rewrite !string_size_append, string_size_cons.
  pose proof (string_size_nonneg b). pose proof (string_size_nonneg rest).
  rewrite (proj2 (Z.leb_gt _ _)) by lia.
  unfold string_size at 1. rewrite Nat2Z.id, string_drop_append.
  by apply index_from_lacks.
Qed.

Lemma substr_rest a b :
  string_size (a +:+ b) ≤ npos →
  substr (a +:+ b) (string_size a) npos = Done b.
Proof.
  intros Hsize. unfold substr. rewrite string_size_append in *.
  pose proof (string_size_nonneg a). pose proof (string_size_nonneg b).
  rewrite (proj2 (Z.ltb_ge _ _)) by lia.
  rewrite Z.min_r by lia.
  replace (string_size a + string_size b - string_size a) with (string_size b) by lia.
  unfold string_size. rewrite !Nat2Z.id, string_drop_append.
  rewrite <- (append_empty_r b) at 2. by rewrite string_take_append.
Qed.

(** The parts of a saved line, as [load_from_disk] cuts them. *)
Lemma entry_line_is_cut key value :
  lacks " " key = true →
  string_size (entry_line key value) < npos →
  let line := entry_line key value in
  let first_space := find line " " 0 in
  let second_space := find line " " (size_t (first_space + 1)) in
  (string_size line <? 3) = false
  ∧ (first_space =? npos) || (second_space =? npos) = false
  ∧ substr line (first_space + 1) (size_t (second_space - first_space - 1))
    = Done key
  ∧ substr line (second_space + 1) npos = Done (serialize value).
Proof.
  intros Hkey Hsize line first_space second_space.
  pose proof (string_size_nonneg key).
  pose proof (string_size_nonneg (serialize value)).
  assert (string_size (type_char value) = 1) as Htype by by destruct value.
  assert (lacks " " (type_char value) = true) as Hlacks by by destruct value.
  assert (line = "" +:+ (type_char value
                           +:+ String " " (key +:+ " " +:+ serialize value)))
    as Hline1 by done.
  assert (line = (type_char value +:+ " ")
                   +:+ (key +:+ String " " (serialize value))) as Hline2.
  { unfold line, entry_line. by rewrite !append_assoc. }
  assert (line = (type_char value +:+ " " +:+ key +:+ " ") +:+ serialize value)
    as Hline3.
  { unfold line, entry_line. by rewrite !append_assoc. }
  assert (string_size line = 3 + string_size key + string_size (serialize value))
    as Hlen.
  { rewrite Hline2, !string_size_append, !string_size_cons, Htype.
    change (string_size "") with 0. lia. }
  fold line in Hsize. unfold npos in Hsize.
  assert (first_space = 1) as Hfirst.
  { unfold first_space. rewrite Hline1 at 1. rewrite find_char; [| done..].
    rewrite Htype. lia. }
  assert (second_space = 2 + string_size key) as Hsecond.
  { unfold second_space. rewrite Hfirst. change (size_t (1 + 1)) with 2.
    rewrite Hline2 at 1. rewrite find_char; [done | done |].
    rewrite string_size_append, Htype. by change (string_size " ") with 1. }
  repeat split.
  - apply Z.ltb_ge. lia.
  - rewrite Hfirst, Hsecond. apply orb_false_iff. split; apply Z.eqb_neq;
      unfold npos; lia.
  - rewrite Hfirst, Hsecond. rewrite size_t_small by lia.
    rewrite Hline2. apply substr_at; [| lia].
    rewrite string_size_append, Htype. by change (string_size " ") with 1.
  - rewrite Hsecond. rewrite Hline3.
    replace (2 + string_size key + 1)
      with (string_size (type_char value +:+ " " +:+ key +:+ " ")).
    + apply substr_rest. rewrite <- Hline3. unfold npos. lia.
    + rewrite !string_size_append, Htype. change (string_size " ") with 1. lia.
Qed.

Lemma foldl_insert_union (entries : list (string * DataType)) :
  ∀ m : gmap string DataType,
    NoDup entries.*1 →
    foldl (λ m entry, <[entry.1 := entry.2]> m) m entries
    = list_to_map entries ∪ m.
Proof.
  induction entries as [|[key value] entries IH]; intros m Hnodup.
  - simpl. by rewrite (left_id_L ∅ (∪)).
  - simpl in *. apply NoDup_cons in Hnodup as [Hkey Hnodup].
    rewrite IH by done.
    rewrite <- insert_union_l. symmetry. apply insert_union_r.
    by apply not_elem_of_list_to_map_1.
Qed.

Section Persistence.
Variable hasher : string → N.

Lemma load_line_entry fuel key value db :
  savable key value → (rounds value < fuel)%nat →
  load_line hasher fuel (entry_line key value) db
  = Some (Done (with_bloom_filter (BloomFilter_add hasher key)
                  (with_cache (LRUCache_access key)
                     (with_store <[key := value]> db)))).
Proof.
  intros (Hblank & Hnewline & Hsize & Hvalue) Hfuel.
  destruct (entry_line_is_cut key value Hblank Hsize)
    as (Hshort & Hspaces & Hkey & Hdata).
  unfold load_line. rewrite Hshort, Hspaces, Hkey, Hdata. cbn [fbind].
  assert (string_size (serialize value) < npos) as Hserialized.
  { revert Hsize. unfold entry_line. rewrite !string_size_append.
    pose proof (string_size_nonneg (type_char value)).
    pose proof (string_size_nonneg key).
    change (string_size " ") with 1. lia. }
  destruct value as [value|elements|elements|fields];
    cbn [serialize rounds] in *; [| | | done].
  - reflexivity.
  - change (entry_line key (ListType elements))
      with (String "L" (" " +:+ key +:+ " " +:+ ListType_serialize elements)).
    cbv iota. unfold ListType_serialize in *.
    rewrite ListType_deserialize_tagged, ListType_deserialize_loop_sized;
      [done | done | | done].
    eapply Forall_impl; [exact Hvalue |]. by intros element [_ ?].
  - change (entry_line key (SetType elements))
      with (String "E" (" " +:+ key +:+ " " +:+ SetType_serialize elements)).
    cbv iota. unfold SetType_serialize in *.
    rewrite SetType_deserialize_tagged, SetType_deserialize_loop_sized;
      [| done | | done].
    + cbn [fbind]. by rewrite (right_id_L ∅ (∪)), list_to_set_elements_L.
    + apply Forall_forall. intros element Helement.
      apply elem_of_elements in Helement. by destruct (Hvalue element Helement).
Qed.

Lemma load_lines_entries fuel entries :
  ∀ db,
    Forall (λ entry, savable entry.1 entry.2 ∧ (rounds entry.2 < fuel)%nat) entries →
    ∃ db', load_lines hasher fuel (map (λ entry, entry_line entry.1 entry.2) entries) db
           = Some (Done db')
           ∧ store db' = foldl (λ m entry, <[entry.1 := entry.2]> m) (store db) entries.
Proof.
  induction entries as [|[key value] entries IH]; intros db Hentries.
  - by exists db.
  - inversion Hentries as [|? ? [Hsavable Hfuel] Hrest]; subst.
    cbn [map load_lines fst snd] in *.
    rewrite load_line_entry by done. cbn [fbind].
    destruct (IH (with_bloom_filter (BloomFilter_add hasher key)
                    (with_cache (LRUCache_access key)
                       (with_store <[key := value]> db))) Hrest)
      as (db' & Hload & Hstore).
    exists db'. split; [done |]. by rewrite Hstore.
Qed.

Lemma save_to_disk_lines db :
  save_to_disk db
  = string_concat (map (λ line, line +:+ String LF "")
                     (map (λ entry, entry_line entry.1 entry.2)
                        (map_to_list (store db)))).
Proof.
  unfold save_to_disk. f_equal. rewrite map_map. apply map_ext.
  intros [key value]. unfold entry_line. cbn [fst snd].
  by rewrite !append_assoc.
Qed.

(** What [load_from_disk] makes of the file [save_to_disk] wrote. *)
Lemma load_of_save fuel db db0 :
  Forall (λ entry, savable entry.1 entry.2 ∧ (rounds entry.2 < fuel)%nat)
    (map_to_list (store db)) →
  ∃ db', load_from_disk hasher fuel (Some (save_to_disk db)) db0 = Some (Done db')
         ∧ store db' = store db ∪ store db0.
Proof.
  intros Hentries. cbn [load_from_disk].
  rewrite save_to_disk_lines, getlines_lines.
  - destruct (load_lines_entries fuel _ db0 Hentries) as (db' & Hload & Hdb').
    exists db'. split; [done |]. rewrite Hdb'.
    rewrite foldl_insert_union by apply NoDup_fst_map_to_list.
    by rewrite list_to_map_to_list.
  - apply Forall_map. eapply Forall_impl; [exact Hentries |].
    intros [key value] [Hsavable _]. by apply lacks_entry_line.
Qed.

End Persistence.

(** X11. Saving and loading restores the store: when no key holds a blank or
    a newline, no value a newline, no value is a hash, and the lengths fit,
    [load_from_disk] on the text of [save_to_disk] ends without an exception
    once the fuel exceeds the longest list or set, and the store it builds
    binds every saved key to its saved value (keys already in the loading
    state and not in the file keep theirs). *)
Theorem saved_state_is_loaded (hasher : string → N) (fuel : nat) (db db0 : BlinkDB) :
  map_Forall (λ key value, savable key value ∧ (rounds value < fuel)%nat) (store db) →
  ∃ db', load_from_disk hasher fuel (Some (save_to_disk db)) db0 = Some (Done db')
         ∧ store db' = store db ∪ store db0.
Proof.
  intros Hstore. apply load_of_save.
  apply Forall_forall. intros [key value] Hentry.
  apply elem_of_map_to_list in Hentry. by apply (Hstore key value).
Qed.

Lemma saved_state_is_loaded_witness :
  ∃ db', load_from_disk (λ _, 0%N) 3
           (Some (save_to_disk
                    (with_store (λ _, {["k" := StringType "a b"; "l" := ListType ["x"; "y"]]})
                       BlinkDB_new)))
           BlinkDB_new
         = Some (Done db')
         ∧ store db'
           = store (with_store (λ _, {["k" := StringType "a b"; "l" := ListType ["x"; "y"]]})
                      BlinkDB_new)
             ∪ store BlinkDB_new.
Proof.
  apply (saved_state_is_loaded (λ _, 0%N) 3
           (with_store (λ _, {["k" := StringType "a b"; "l" := ListType ["x"; "y"]]})
              BlinkDB_new)
           BlinkDB_new).
  intros key value Hentry. cbn [store with_store] in Hentry.
  apply lookup_insert_Some in Hentry as [[<- <-] | [_ Hentry]].
  - (split; [split; [reflexivity | split; [reflexivity | split]] |]).
    + by vm_compute.
    + reflexivity.
    + (simpl; lia).
  - apply lookup_singleton_Some in Hentry as [<- <-].
    (split; [split; [reflexivity | split; [reflexivity | split]] |]).
    + by vm_compute.
    + (repeat constructor).
      * by vm_compute.
      * by vm_compute.
    + (simpl; lia).
Defined.

Local Close Scope Z_scope.

(** ** List commands *)

Lemma integer_reply_number z :
  (0 ≤ z)%Z → integer_reply (to_string z) = ":" +:+ to_string z +:+ CRLF.
Proof. intros Hz. unfold integer_reply. by rewrite to_string_is_no_error. Qed.

Lemma ListType_llen_length (l : list string) :
  (Z.of_nat (length l) ≤ INT_MAX)%Z → ListType_llen l = Z.of_nat (length l).
Proof.
  intros H. unfold ListType_llen. apply to_int_small.
  unfold INT_MIN, INT_MAX in *. lia.
Qed.

Lemma ListType_rpop_snoc (l : list string) v : ListType_rpop (l ++ [v]) = (v, l).
Proof.
  unfold ListType_rpop. destruct (l ++ [v]) eqn:E; [by destruct l |].
  rewrite <- E. by rewrite last_snoc, removelast_last.
Qed.

Lemma or_NULL_token v : v ≠ "" → or_NULL v = v.
Proof. intros Hv. unfold or_NULL. by destruct (String.eqb_spec v ""). Qed.

Lemma bulk_reply_plain v : plain v → bulk_reply v = bulk v.
Proof.
  intros [HNULL HWRONG]. unfold bulk_reply.
  rewrite (proj2 (String.eqb_neq v "NULL")) by done. by rewrite HWRONG.
Qed.

Section Lists.

Variable hasher : string → N.

Lemma process_parts_LPUSH key value rest db :
  process_parts hasher ("LPUSH" :: key :: value :: rest) db
  = (integer_reply (BlinkDB_lpush hasher key value db).1,
     (BlinkDB_lpush hasher key value db).2).
Proof. reflexivity. Qed.

Lemma process_parts_RPUSH key value rest db :
  process_parts hasher ("RPUSH" :: key :: value :: rest) db
  = (integer_reply (BlinkDB_rpush hasher key value db).1,
     (BlinkDB_rpush hasher key value db).2).
Proof. reflexivity. Qed.

Lemma process_parts_LPOP key rest db :
  process_parts hasher ("LPOP" :: key :: rest) db
  = (bulk_reply (BlinkDB_lpop key db).1, (BlinkDB_lpop key db).2).
Proof. reflexivity. Qed.

Lemma process_parts_RPOP key rest db :
  process_parts hasher ("RPOP" :: key :: rest) db
  = (bulk_reply (BlinkDB_rpop key db).1, (BlinkDB_rpop key db).2).
Proof. reflexivity. Qed.

Lemma process_parts_LLEN key rest db :
  process_parts hasher ("LLEN" :: key :: rest) db
  = (integer_reply (BlinkDB_llen key db).1, (BlinkDB_llen key db).2).
Proof. reflexivity. Qed.

Lemma process_parts_LINDEX key index rest db :
  process_parts hasher ("LINDEX" :: key :: index :: rest) db
  = match stoi index with
    | Done i => (bulk_reply (BlinkDB_lindex key i db).1, (BlinkDB_lindex key i db).2)
    | Threw e => ("-ERR stoi" +:+ CRLF, db)
    end.
Proof.
  rewrite process_parts_nonempty by done. unfold dispatch.
  cbn [nth length]. eval_tests. by destruct (stoi index).
Qed.

Lemma process_parts_LRANGE key start end_ rest db :
  process_parts hasher ("LRANGE" :: key :: start :: end_ :: rest) db
  = match stoi start with
    | Done i =>
        match stoi end_ with
        | Done j => (array_reply (BlinkDB_lrange key i j db).1,
                     (BlinkDB_lrange key i j db).2)
        | Threw e => ("-ERR stoi" +:+ CRLF, db)
        end
    | Threw e => ("-ERR stoi" +:+ CRLF, db)
    end.
Proof.
  rewrite process_parts_nonempty by done. unfold dispatch.
  cbn [nth length]. eval_tests. by destruct (stoi start), (stoi end_).
Qed.

(** What a push does to a key that is absent or holds a list. *)
Lemma BlinkDB_lpush_list key value db l :
  db_inv hasher db → list_at db key = Some l →
  (BlinkDB_lpush hasher key value db).1 = to_string (ListType_llen (value :: l))
  ∧ store (BlinkDB_lpush hasher key value db).2
    = <[key := ListType (value :: l)]> (store db).
Proof.
  intros (Hok & Hmax & _) Hl. unfold list_at in Hl. unfold BlinkDB_lpush, create_list_if_needed.
  destruct (store db !! key) as [[| elements | |]|] eqn:Hkey; try done;
    injection Hl as <-; cbn [negb]; cbv iota.
  - rewrite Hkey. rewrite evict_if_needed_touch by done. done.
  - cbn [store with_store with_bloom_filter]. rewrite lookup_insert_eq.
    rewrite evict_if_needed_touch by done.
    cbn [fst snd store with_store with_cache with_bloom_filter].
    by rewrite insert_insert_eq.
Qed.

Lemma BlinkDB_rpush_list key value db l :
  db_inv hasher db → list_at db key = Some l →
  (BlinkDB_rpush hasher key value db).1 = to_string (ListType_llen (l ++ [value]))
  ∧ store (BlinkDB_rpush hasher key value db).2
    = <[key := ListType (l ++ [value])]> (store db).
Proof.
  intros (Hok & Hmax & _) Hl. unfold list_at in Hl. unfold BlinkDB_rpush, create_list_if_needed.
  destruct (store db !! key) as [[| elements | |]|] eqn:Hkey; try done;
    injection Hl as <-; cbn [negb]; cbv iota.
  - rewrite Hkey. rewrite evict_if_needed_touch by done. done.
  - cbn [store with_store with_bloom_filter]. rewrite lookup_insert_eq.
    rewrite evict_if_needed_touch by done.
    cbn [fst snd store with_store with_cache with_bloom_filter].
    by rewrite insert_insert_eq.
Qed.

(** What is left in the store once the elements [l] remain of the list at
    [key]. *)
Lemma store_after_pop key (l : list string) db :
  (Z.of_nat (length l) ≤ INT_MAX)%Z →
  store (if (ListType_llen l =? 0)%Z
         then erase_key key (with_cache (LRUCache_access key)
                               (with_store <[key := ListType l]> db))
         else with_cache (LRUCache_access key) (with_store <[key := ListType l]> db))
  = match l with
    | [] => delete key (store db)
    | _ => <[key := ListType l]> (store db)
    end.
Proof.
  intros Hlen. rewrite ListType_llen_length by done.
  destruct l as [|x l]; [simpl; by rewrite delete_insert_eq |].
  rewrite (proj2 (Z.eqb_neq _ _)) by (simpl length; lia). done.
Qed.

Lemma BlinkDB_lpop_list key x l db :
  store db !! key = Some (ListType (x :: l)) →
  (Z.of_nat (length l) ≤ INT_MAX)%Z →
  (BlinkDB_lpop key db).1 = or_NULL x
  ∧ store (BlinkDB_lpop key db).2
    = match l with
      | [] => delete key (store db)
      | _ => <[key := ListType l]> (store db)
      end.
Proof.
  intros Hkey Hlen. unfold BlinkDB_lpop. rewrite Hkey. cbn [ListType_lpop].
  split; [by destruct (ListType_llen l =? 0)%Z |].
  rewrite <- (store_after_pop key l db Hlen).
  by destruct (ListType_llen l =? 0)%Z.
Qed.

Lemma BlinkDB_rpop_list key x l db :
  store db !! key = Some (ListType (l ++ [x])) →
  (Z.of_nat (length l) ≤ INT_MAX)%Z →
  (BlinkDB_rpop key db).1 = or_NULL x
  ∧ store (BlinkDB_rpop key db).2
    = match l with
      | [] => delete key (store db)
      | _ => <[key := ListType l]> (store db)
      end.
Proof.
  intros Hkey Hlen. unfold BlinkDB_rpop. rewrite Hkey, ListType_rpop_snoc.
  split; [by destruct (ListType_llen l =? 0)%Z |].
  rewrite <- (store_after_pop key l db Hlen).
  by destruct (ListType_llen l =? 0)%Z.
Qed.

End Lists.

Lemma ListType_lindex_element (l : list string) (z : Z) :
  (Z.of_nat (length l) ≤ INT_MAX)%Z → (INT_MIN ≤ z ≤ INT_MAX)%Z →
  ListType_lindex z l
  = if ((0 <=? z) && (z <? Z.of_nat (length l)))%Z
    then nth (Z.to_nat z) l ""
    else if ((- Z.of_nat (length l) <=? z) && (z <? 0))%Z
         then nth (Z.to_nat (Z.of_nat (length l) + z)) l ""
         else "".
Proof.
  intros Hlen Hz. unfold ListType_lindex. rewrite ListType_llen_length by done.
  unfold INT_MIN, INT_MAX in *.
  destruct (Z.ltb_spec z 0) as [Hneg|Hpos];
    [rewrite to_int_small by (unfold INT_MIN, INT_MAX; lia) |];
    repeat match goal with
      | |- context [(?a <? ?b)%Z] => destruct (Z.ltb_spec a b)
      | |- context [(?a <=? ?b)%Z] => destruct (Z.leb_spec a b)
      end; cbn [andb orb]; first [done | lia].
Qed.

Lemma stoi_int text z : stoi text = Done z → (INT_MIN ≤ z ≤ INT_MAX)%Z.
Proof.
  unfold stoi. destruct (skip_space text) as [|c s]; [done |].
  set (sign := match c with "-"%char => _ | _ => _ end).
  destruct sign as [negative digits].
  destruct (read_digits digits None) as [n|]; [| done].
  destruct (andb _ _) eqn:Hrange; [| done].
  intros [= <-]. apply andb_prop in Hrange as [H1 H2].
  apply Z.leb_le in H1, H2. done.
Qed.

Lemma ListType_lrange_all (l : list string) :
  (Z.of_nat (length l) ≤ INT_MAX)%Z → ListType_lrange 0 (-1) l = l.
Proof.
  intros Hlen. destruct l as [|x l]; [done |].
  rewrite ListType_lrange_nonempty by done. cbv zeta.
  rewrite ListType_llen_length by done.
  change (0 <? 0)%Z with false. change (-1 <? 0)%Z with true. cbv iota.
  unfold INT_MAX in Hlen. simpl length in *.
  rewrite !to_int_small by (unfold INT_MIN, INT_MAX; lia).
  rewrite Z.max_id, Z.min_id.
  rewrite (proj2 (Z.ltb_ge _ _)) by lia.
  replace (Z.to_nat (Z.of_nat (S (length l)) + -1 + 1 - 0)%Z)
    with (S (length l)) by lia.
  change (Z.to_nat 0) with 0. rewrite drop_0.
  apply (firstn_all (x :: l)).
Qed.

Lemma array_of_is_no_error items : is_WRONGTYPE (array_of items) = false.
Proof. reflexivity. Qed.

Section ListCommands.

Variable hasher : string → N.


(** X13. A list is a queue between its two ends: after [RPUSH k v] on a list
    whose first element is [x], [LPOP k] is answered with the bulk string of
    [x] and leaves the other elements followed by [v]; after [LPUSH k v] on
    a list whose last element is [x], [RPOP k] is answered with the bulk
    string of [x] and leaves [v] followed by the other elements. The element
    [x] is not empty, not the word [NULL] and does not begin with
    [WRONGTYPE]. *)
Theorem pop_at_the_other_end (k v x : string) (l : list string) db :
  db_inv hasher db →
  is_token k → is_token v → x ≠ "" → plain x →
  (Z.of_nat (length l) + 1 < INT_MAX)%Z →
  (store db !! k = Some (ListType (x :: l)) →
   let pushed := process_command hasher (request ["RPUSH"; k; v]) db in
   let popped := process_command hasher (request ["LPOP"; k]) pushed.2 in
   popped.1 = bulk x
   ∧ store popped.2 = <[k := ListType (l ++ [v])]> (store db))
  ∧ (store db !! k = Some (ListType (l ++ [x])) →
     let pushed := process_command hasher (request ["LPUSH"; k; v]) db in
     let popped := process_command hasher (request ["RPOP"; k]) pushed.2 in
     popped.1 = bulk x
     ∧ store popped.2 = <[k := ListType (v :: l)]> (store db)).
Proof.
  intros Hinv Hk Hv Hx Hplain Hlen.
  assert (is_token "RPUSH") by (by apply is_token_literal).
  assert (is_token "RPOP") by (by apply is_token_literal).
  assert (is_token "LPUSH") by (by apply is_token_literal).
  assert (is_token "LPOP") by (by apply is_token_literal).
  split; intros Hkey pushed popped; subst pushed popped;
    rewrite !process_command_request by (by repeat apply Forall_cons_2).
  - rewrite process_parts_RPUSH, process_parts_LPOP. cbn [fst snd].
    destruct (BlinkDB_rpush_list hasher k v db (x :: l) Hinv) as [_ Hstore1];
      [unfold list_at; by rewrite Hkey |].
    destruct (BlinkDB_lpop_list k x (l ++ [v]) (BlinkDB_rpush hasher k v db).2)
      as [Hreply Hstore];
      [by rewrite Hstore1, lookup_insert_eq | rewrite length_app; simpl; lia |].
    rewrite Hreply, Hstore, Hstore1, or_NULL_token, bulk_reply_plain by done.
    split; [done |]. destruct (l ++ [v]) eqn:E; [by destruct l |].
    apply insert_insert_eq.
  - rewrite process_parts_LPUSH, process_parts_RPOP. cbn [fst snd].
    destruct (BlinkDB_lpush_list hasher k v db (l ++ [x]) Hinv) as [_ Hstore1];
      [unfold list_at; by rewrite Hkey |].
    destruct (BlinkDB_rpop_list k x (v :: l) (BlinkDB_lpush hasher k v db).2)
      as [Hreply Hstore];
      [by rewrite Hstore1, lookup_insert_eq | simpl length; lia |].
    rewrite Hreply, Hstore, Hstore1, or_NULL_token, bulk_reply_plain by done.
    split; [done |]. apply insert_insert_eq.
Qed.

Lemma bulk_reply_element (l : list string) (n : nat) :
  Forall (λ element, element ≠ "" ∧ plain element) l →
  n < length l →
  bulk_reply (or_NULL (nth n l "")) = bulk (nth n l "").
Proof.
  intros Hl Hn. destruct (lookup_lt_is_Some_2 l n Hn) as [element Helement].
  rewrite (nth_lookup_Some l n "" element Helement).
  destruct (Forall_lookup_1 _ l n element Hl Helement) as [Hempty Hplain].
  by rewrite or_NULL_token, bulk_reply_plain.
Qed.

(** X14. Reading a list: on a key that holds the list [l], whose elements
    are not empty, not the word [NULL] and do not begin with [WRONGTYPE],
    [LLEN k] is answered with the length, [LINDEX k i] with the bulk string
    of the element at [i] counted from the front when [i >= 0] and from the
    back when [i < 0], or with the null bulk string when [i] is outside the
    list, and [LRANGE k 0 -1] with the array of all the elements. None of
    them changes the store. *)
Theorem list_reads (k i : string) (z : Z) (l : list string) db :
  is_token k → is_token i →
  store db !! k = Some (ListType l) →
  Forall (λ element, element ≠ "" ∧ plain element) l →
  (Z.of_nat (length l) ≤ INT_MAX)%Z →
  stoi i = Done z →
  let len := Z.of_nat (length l) in
  let llen := process_command hasher (request ["LLEN"; k]) db in
  let lindex := process_command hasher (request ["LINDEX"; k; i]) db in
  let lrange := process_command hasher (request ["LRANGE"; k; "0"; "-1"]) db in
  llen.1 = ":" +:+ to_string len +:+ CRLF
  ∧ ((0 ≤ z < len)%Z → lindex.1 = bulk (nth (Z.to_nat z) l ""))
  ∧ ((- len ≤ z < 0)%Z → lindex.1 = bulk (nth (Z.to_nat (len + z)) l ""))
  ∧ ((z < - len ∨ len ≤ z)%Z → lindex.1 = "$-1" +:+ CRLF)
  ∧ lrange.1 = array_of l
  ∧ store llen.2 = store db ∧ store lindex.2 = store db
  ∧ store lrange.2 = store db.
Proof.
  intros Hk Hi Hkey Hplain Hlen Hz len llen lindex lrange.
  subst len llen lindex lrange.
  assert (is_token "LLEN") by (by apply is_token_literal).
  assert (is_token "LINDEX") by (by apply is_token_literal).
  assert (is_token "LRANGE") by (by apply is_token_literal).
  assert (is_token "0") by (by apply is_token_literal).
  assert (is_token "-1") by (by apply is_token_literal).
  rewrite !process_command_request by (by repeat apply Forall_cons_2).
  rewrite process_parts_LLEN, process_parts_LINDEX, process_parts_LRANGE, Hz.
  change (stoi "0") with (Done (A := Z) 0%Z).
  change (stoi "-1") with (Done (A := Z) (-1)%Z). cbv iota.
  unfold BlinkDB_llen, BlinkDB_lindex, BlinkDB_lrange. rewrite Hkey.
  cbn [fst snd store with_cache].
  rewrite ListType_llen_length, integer_reply_number by (done || lia).
  rewrite ListType_lrange_all by done.
  rewrite (ListType_lindex_element l z Hlen (stoi_int i z Hz)).
  unfold array_reply. rewrite array_of_is_no_error.
  repeat split; try done; intros Hz';
    repeat match goal with
      | |- context [(?a <? ?b)%Z] => destruct (Z.ltb_spec a b)
      | |- context [(?a <=? ?b)%Z] => destruct (Z.leb_spec a b)
      end; cbn [andb];
    first [done | lia | apply bulk_reply_element; [done | lia]].
Qed.

End ListCommands.


Lemma pop_at_the_other_end_witness :
  let db := (process_command (λ _, 0%N) "RPUSH k a" BlinkDB_new).2 in
  let pushed := process_command (λ _, 0%N) "RPUSH k b" db in
  let popped := process_command (λ _, 0%N) "LPOP k" pushed.2 in
  db_inv (λ _, 0%N) db
  ∧ store db !! "k" = Some (ListType ["a"])
  ∧ popped.1 = "$1" +:+ CRLF +:+ "a" +:+ CRLF
  ∧ store popped.2 = <["k" := ListType ["b"]]> (store db).
Proof.
  intros db pushed popped.
  assert (H0 : db_inv (λ _, 0%N) db)
    by apply db_inv_process_command, BlinkDB_new_inv.
  assert (H1 : is_token "k") by (split; [discriminate | reflexivity]).
  assert (H2 : is_token "b") by (split; [discriminate | reflexivity]).
  assert (H3 : "a" ≠ "") by discriminate.
  assert (H4 : (Z.of_nat (length (@nil string)) + 1 < INT_MAX)%Z) by reflexivity.
  assert (H5 : store db !! "k" = Some (ListType ["a"])) by reflexivity.
  assert (H6 : plain "a") by (split; [discriminate | reflexivity]).
  destruct (pop_at_the_other_end (λ _, 0%N) "k" "b" "a" [] db H0 H1 H2 H3 H6 H4)
    as [E _].
  destruct (E H5) as [E1 E2].
  split; [exact H0 | split; [exact H5 | split; [exact E1 | exact E2]]].
Defined.

Lemma list_reads_witness :
  let db := (process_commands (λ _, 0%N) ["RPUSH k a"; "RPUSH k b"] BlinkDB_new).2 in
  store db !! "k" = Some (ListType ["a"; "b"])
  ∧ stoi "-1" = Done (-1)%Z
  ∧ (process_command (λ _, 0%N) "LLEN k" db).1 = ":2" +:+ CRLF
  ∧ (process_command (λ _, 0%N) "LINDEX k -1" db).1 = "$1" +:+ CRLF +:+ "b" +:+ CRLF
  ∧ (process_command (λ _, 0%N) "LRANGE k 0 -1" db).1 = array_of ["a"; "b"].
Proof.
  intros db.
  assert (H1 : is_token "k") by (split; [discriminate | reflexivity]).
  assert (H2 : is_token "-1") by (split; [discriminate | reflexivity]).
  assert (H3 : store db !! "k" = Some (ListType ["a"; "b"])) by reflexivity.
  assert (H4 : (Z.of_nat (length ["a"; "b"]) ≤ INT_MAX)%Z) by discriminate.
  assert (H5 : stoi "-1" = Done (-1)%Z) by reflexivity.
  assert (H6 : Forall (λ element, element ≠ "" ∧ plain element) ["a"; "b"]).
  { repeat constructor; discriminate. }
  destruct (list_reads (λ _, 0%N) "k" "-1" (-1) ["a"; "b"] db H1 H2 H3 H6 H4 H5)
    as (E1 & _ & E2 & _ & E3 & _).
  split; [exact H3 | split; [exact H5 | split; [exact E1 | split; [| exact E3]]]].
  apply E2. split; [discriminate | reflexivity].
Defined.

(** ** Set commands *)

Lemma integer_reply_bit b : integer_reply (bit b) = ":" +:+ bit b +:+ CRLF.
Proof. by destruct b. Qed.

Lemma SetType_scard_size (s : gset string) :
  (Z.of_nat (base.size s) ≤ INT_MAX)%Z → SetType_scard s = Z.of_nat (base.size s).
Proof.
  intros H. unfold SetType_scard. apply to_int_small.
  unfold INT_MIN, INT_MAX in *. lia.
Qed.


Lemma size_remove_le (s : gset string) v : base.size (s ∖ {[v]}) ≤ base.size s.
Proof.
  apply subseteq_size. intros x Hx. by apply elem_of_difference in Hx as [? _].
Qed.

Lemma add_again (s : gset string) v : {[v]} ∪ ({[v]} ∪ s) = {[v]} ∪ s.
Proof. by rewrite (assoc_L (∪)), (idemp_L (∪)). Qed.

Lemma added_is_member (s : gset string) v : v ∈ {[v]} ∪ s.
Proof. by apply elem_of_union_l, elem_of_singleton. Qed.

Lemma remove_added (s : gset string) v : v ∉ s → ({[v]} ∪ s) ∖ {[v]} = s.
Proof.
  intros Hv. rewrite difference_union_distr_l_L, difference_diag_L.
  rewrite (left_id_L ∅ (∪)). apply difference_disjoint_L.
  by apply disjoint_singleton_r.
Qed.

Lemma remove_absent (s : gset string) v : v ∉ s → s ∖ {[v]} = s.
Proof. intros Hv. apply difference_disjoint_L. by apply disjoint_singleton_r. Qed.

Section Sets.

Variable hasher : string → N.

Lemma process_parts_SADD key value rest db :
  process_parts hasher ("SADD" :: key :: value :: rest) db
  = (integer_reply (BlinkDB_sadd hasher key value db).1,
     (BlinkDB_sadd hasher key value db).2).
Proof. reflexivity. Qed.

Lemma process_parts_SISMEMBER key value rest db :
  process_parts hasher ("SISMEMBER" :: key :: value :: rest) db
  = (integer_reply (BlinkDB_sismember key value db).1,
     (BlinkDB_sismember key value db).2).
Proof. reflexivity. Qed.

Lemma process_parts_SREM key value rest db :
  process_parts hasher ("SREM" :: key :: value :: rest) db
  = (integer_reply (BlinkDB_srem key value db).1, (BlinkDB_srem key value db).2).
Proof. reflexivity. Qed.

Lemma process_parts_SCARD key rest db :
  process_parts hasher ("SCARD" :: key :: rest) db
  = (integer_reply (BlinkDB_scard key db).1, (BlinkDB_scard key db).2).
Proof. reflexivity. Qed.

Lemma BlinkDB_sadd_set key value db s :
  db_inv hasher db → set_at db key = Some s →
  (BlinkDB_sadd hasher key value db).1 = bit (bool_decide (value ∉ s))
  ∧ store (BlinkDB_sadd hasher key value db).2
    = <[key := SetType ({[value]} ∪ s)]> (store db).
Proof.
  intros (Hok & Hmax & _) Hs. unfold set_at in Hs.
  unfold BlinkDB_sadd, create_set_if_needed.
  destruct (store db !! key) as [[| | elements |]|] eqn:Hkey; try done;
    injection Hs as <-; cbn [negb]; cbv iota.
  - rewrite Hkey. cbn [SetType_sadd]. rewrite evict_if_needed_touch by done. done.
  - cbn [store with_store with_bloom_filter]. rewrite lookup_insert_eq.
    cbn [SetType_sadd]. rewrite evict_if_needed_touch by done.
    cbn [fst snd store with_store with_cache with_bloom_filter].
    by rewrite insert_insert_eq.
Qed.

Lemma BlinkDB_srem_set key value db s :
  store db !! key = Some (SetType s) →
  (Z.of_nat (base.size s) ≤ INT_MAX)%Z →
  (BlinkDB_srem key value db).1 = bit (bool_decide (value ∈ s))
  ∧ store (BlinkDB_srem key value db).2
    = if decide (s ∖ {[value]} = ∅) then delete key (store db)
      else <[key := SetType (s ∖ {[value]})]> (store db).
Proof.
  intros Hkey Hsize. unfold BlinkDB_srem. rewrite Hkey. cbn [SetType_srem].
  pose proof (size_remove_le s value) as Hle.
  rewrite SetType_scard_size by lia.
  destruct (decide (s ∖ {[value]} = ∅)) as [Hempty|Hrest].
  - rewrite Hempty, size_empty. cbn [Z.of_nat Z.eqb fst snd].
    split; [done |]. cbn [erase_key store with_store with_cache].
    apply delete_insert_eq.
  - rewrite (proj2 (Z.eqb_neq _ _)); [done |].
    intros Hzero. apply Hrest. apply leibniz_equiv, size_empty_iff. lia.
Qed.

(** X15. On a key that is absent or holds a set, [SADD k v] is answered [:1]
    when [v] is new and [:0] when the set holds it already, and afterwards
    the key holds the set with [v]: a second [SADD k v] is answered [:0] and
    changes nothing in the store, [SISMEMBER k v] is answered [:1] and
    [SCARD k] with the number of elements. *)
Theorem sadd_then_ask (k v : string) (s : gset string) db :
  db_inv hasher db →
  is_token k → is_token v →
  set_at db k = Some s →
  (Z.of_nat (base.size s) < INT_MAX)%Z →
  let added := process_command hasher (request ["SADD"; k; v]) db in
  let again := process_command hasher (request ["SADD"; k; v]) added.2 in
  let member := process_command hasher (request ["SISMEMBER"; k; v]) added.2 in
  let card := process_command hasher (request ["SCARD"; k]) added.2 in
  added.1 = (if decide (v ∈ s) then ":0" else ":1") +:+ CRLF
  ∧ store added.2 = <[k := SetType ({[v]} ∪ s)]> (store db)
  ∧ again.1 = ":0" +:+ CRLF
  ∧ store again.2 = store added.2
  ∧ member.1 = ":1" +:+ CRLF
  ∧ card.1 = ":" +:+ to_string (Z.of_nat (base.size ({[v]} ∪ s))) +:+ CRLF.
Proof.
  intros Hinv Hk Hv Hs Hsize added again member card.
  subst added again member card.
  assert (is_token "SADD") by (by apply is_token_literal).
  assert (is_token "SISMEMBER") by (by apply is_token_literal).
  assert (is_token "SCARD") by (by apply is_token_literal).
  rewrite !process_command_request by (by repeat apply Forall_cons_2).
  rewrite !process_parts_SADD, process_parts_SISMEMBER, process_parts_SCARD.
  cbn [fst snd].
  destruct (BlinkDB_sadd_set k v db s Hinv Hs) as [Hreply1 Hstore1].
  set (db1 := (BlinkDB_sadd hasher k v db).2) in *.
  assert (db_inv hasher db1) as Hinv1 by apply db_inv_sadd, Hinv.
  assert (store db1 !! k = Some (SetType ({[v]} ∪ s))) as Hkey1
    by (by rewrite Hstore1, lookup_insert_eq).
  assert (set_at db1 k = Some ({[v]} ∪ s)) as Hs1
    by (unfold set_at; by rewrite Hkey1).
  destruct (BlinkDB_sadd_set k v db1 ({[v]} ∪ s) Hinv1 Hs1) as [Hreply2 Hstore2].
  rewrite Hreply1, Hreply2, Hstore2, !integer_reply_bit.
  unfold BlinkDB_sismember, BlinkDB_scard. rewrite Hkey1. cbn [fst snd].
  unfold SetType_sismember.
  assert (base.size ({[v]} ∪ s) ≤ S (base.size s)) as Hle.
  { rewrite size_union_alt, size_singleton.
    pose proof (size_remove_le s v). lia. }
  rewrite SetType_scard_size by lia.
  rewrite integer_reply_bit, integer_reply_number by lia.
  rewrite (bool_decide_eq_false_2 (v ∉ {[v]} ∪ s))
    by (intros Hnot; apply Hnot, added_is_member).
  rewrite (bool_decide_eq_true_2 (v ∈ {[v]} ∪ s)) by apply added_is_member.
  repeat split; try done.
  - destruct (decide (v ∈ s)) as [Hin|Hout].
    + by rewrite bool_decide_eq_false_2 by (by intros ?).
    + by rewrite bool_decide_eq_true_2.
  - by rewrite Hstore1, insert_insert_eq, add_again.
Qed.

(** X16. [SREM] undoes [SADD]: when [v] is not in the set at [k], [SADD k v]
    followed by [SREM k v] is answered [:1] and leaves the store as it was,
    the key being deleted again when it was absent. [SREM k v] on a set that
    does not hold [v] is answered [:0] and leaves the store as it is. *)
Theorem srem_undoes_sadd (k v : string) (s : gset string) db :
  db_inv hasher db →
  is_token k → is_token v →
  set_at db k = Some s →
  store db !! k ≠ Some (SetType ∅) →
  v ∉ s →
  (Z.of_nat (base.size s) < INT_MAX)%Z →
  let added := process_command hasher (request ["SADD"; k; v]) db in
  let removed := process_command hasher (request ["SREM"; k; v]) added.2 in
  let missed := process_command hasher (request ["SREM"; k; v]) db in
  removed.1 = ":1" +:+ CRLF
  ∧ store removed.2 = store db
  ∧ missed.1 = ":0" +:+ CRLF
  ∧ store missed.2 = store db.
Proof.
  intros Hinv Hk Hv Hs Hnonempty Hnew Hsize added removed missed.
  subst added removed missed.
  assert (is_token "SADD") by (by apply is_token_literal).
  assert (is_token "SREM") by (by apply is_token_literal).
  rewrite !process_command_request by (by repeat apply Forall_cons_2).
  rewrite process_parts_SADD, !process_parts_SREM. cbn [fst snd].
  destruct (BlinkDB_sadd_set k v db s Hinv Hs) as [_ Hstore1].
  set (db1 := (BlinkDB_sadd hasher k v db).2) in *.
  assert (store db1 !! k = Some (SetType ({[v]} ∪ s))) as Hkey1
    by (by rewrite Hstore1, lookup_insert_eq).
  assert (base.size ({[v]} ∪ s) = S (base.size s)) as Hsize1.
  { rewrite size_union by (by apply disjoint_singleton_l).
    by rewrite size_singleton. }
  destruct (BlinkDB_srem_set k v db1 ({[v]} ∪ s) Hkey1) as [Hreply2 Hstore2];
    [lia |].
  rewrite remove_added in Hstore2 by done.
  rewrite Hreply2, Hstore2, Hstore1, integer_reply_bit.
  rewrite bool_decide_eq_true_2 by apply added_is_member.
  unfold set_at in Hs.
  destruct (store db !! k) as [[| | elements |]|] eqn:Hkey; try done;
    injection Hs as <-.
  - (* the key holds the set [elements] *)
    assert (elements ≠ ∅) as Helements by (by intros ->).
    destruct (BlinkDB_srem_set k v db elements Hkey) as [Hreply3 Hstore3]; [lia |].
    rewrite remove_absent in Hstore3 by done. rewrite Hreply3, Hstore3, integer_reply_bit.
    rewrite bool_decide_eq_false_2 by done.
    destruct (decide (elements = ∅)) as [|_]; [done |].
    rewrite insert_insert_eq, insert_id by done. done.
  - (* the key is absent *)
    destruct (decide (∅ = ∅)) as [_|]; [| done].
    rewrite delete_insert_eq, delete_id by done.
    unfold BlinkDB_srem. rewrite Hkey. done.
Qed.

End Sets.

Lemma sadd_then_ask_witness :
  let db := BlinkDB_new in
  let added := process_command (λ _, 0%N) "SADD k v" db in
  db_inv (λ _, 0%N) db
  ∧ set_at db "k" = Some ∅
  ∧ added.1 = ":1" +:+ CRLF
  ∧ (process_command (λ _, 0%N) "SADD k v" added.2).1 = ":0" +:+ CRLF
  ∧ (process_command (λ _, 0%N) "SISMEMBER k v" added.2).1 = ":1" +:+ CRLF.
Proof.
  intros db added.
  assert (H0 : db_inv (λ _, 0%N) db) by apply BlinkDB_new_inv.
  assert (H1 : is_token "k") by (split; [discriminate | reflexivity]).
  assert (H2 : is_token "v") by (split; [discriminate | reflexivity]).
  assert (H3 : set_at db "k" = Some ∅) by reflexivity.
  assert (H4 : (Z.of_nat (base.size (∅ : gset string)) < INT_MAX)%Z) by reflexivity.
  destruct (sadd_then_ask (λ _, 0%N) "k" "v" ∅ db H0 H1 H2 H3 H4)
    as (E1 & _ & E2 & _ & E3 & _).
  split; [exact H0 | split; [exact H3 | split; [| split; [exact E2 | exact E3]]]].
  etrans; [exact E1 |]. reflexivity.
Defined.

Lemma srem_undoes_sadd_witness :
  let db := BlinkDB_new in
  let added := process_command (λ _, 0%N) "SADD k v" db in
  let removed := process_command (λ _, 0%N) "SREM k v" added.2 in
  db_inv (λ _, 0%N) db
  ∧ set_at db "k" = Some ∅
  ∧ removed.1 = ":1" +:+ CRLF
  ∧ store removed.2 = store db.
Proof.
  intros db added removed.
  assert (H0 : db_inv (λ _, 0%N) db) by apply BlinkDB_new_inv.
  assert (H1 : is_token "k") by (split; [discriminate | reflexivity]).
  assert (H2 : is_token "v") by (split; [discriminate | reflexivity]).
  assert (H3 : set_at db "k" = Some ∅) by reflexivity.
  assert (H4 : store db !! "k" ≠ Some (SetType ∅)) by discriminate.
  assert (H5 : "v" ∉ (∅ : gset string)) by apply not_elem_of_empty.
  assert (H6 : (Z.of_nat (base.size (∅ : gset string)) < INT_MAX)%Z) by reflexivity.
  destruct (srem_undoes_sadd (λ _, 0%N) "k" "v" ∅ db H0 H1 H2 H3 H4 H5 H6)
    as (E1 & E2 & _).
  split; [exact H0 | split; [exact H3 | split; [exact E1 | exact E2]]].
Defined.

(** ** Hash commands *)

Lemma HashType_hlen_size (h : gmap string string) :
  (Z.of_nat (base.size h) ≤ INT_MAX)%Z → HashType_hlen h = Z.of_nat (base.size h).
Proof.
  intros H. unfold HashType_hlen. apply to_int_small.
  unfold INT_MIN, INT_MAX in *. lia.
Qed.

Lemma size_insert_le (h : gmap string string) f v :
  base.size (<[f := v]> h) ≤ S (base.size h).
Proof.
  destruct (h !! f) eqn:Hf.
  - rewrite map_size_insert_Some by done. lia.
  - by rewrite map_size_insert_None.
Qed.

Lemma size_delete_le (h : gmap string string) f :
  base.size (delete f h) ≤ base.size h.
Proof.
  destruct (h !! f) eqn:Hf.
  - rewrite map_size_delete_Some by done. lia.
  - by rewrite map_size_delete_None.
Qed.

Section Hashes.

Variable hasher : string → N.

Lemma process_parts_HSET key field value rest db :
  process_parts hasher ("HSET" :: key :: field :: value :: rest) db
  = (integer_reply (BlinkDB_hset hasher key field value db).1,
     (BlinkDB_hset hasher key field value db).2).
Proof. reflexivity. Qed.

Lemma process_parts_HGET key field rest db :
  process_parts hasher ("HGET" :: key :: field :: rest) db
  = (bulk_reply (BlinkDB_hget key field db).1, (BlinkDB_hget key field db).2).
Proof. reflexivity. Qed.

Lemma process_parts_HEXISTS key field rest db :
  process_parts hasher ("HEXISTS" :: key :: field :: rest) db
  = (integer_reply (BlinkDB_hexists key field db).1,
     (BlinkDB_hexists key field db).2).
Proof. reflexivity. Qed.

Lemma process_parts_HDEL key field rest db :
  process_parts hasher ("HDEL" :: key :: field :: rest) db
  = (integer_reply (BlinkDB_hdel key field db).1, (BlinkDB_hdel key field db).2).
Proof. reflexivity. Qed.

Lemma process_parts_HLEN key rest db :
  process_parts hasher ("HLEN" :: key :: rest) db
  = (integer_reply (BlinkDB_hlen key db).1, (BlinkDB_hlen key db).2).
Proof. reflexivity. Qed.

Lemma BlinkDB_hset_hash key field value db h :
  db_inv hasher db → hash_at db key = Some h →
  (BlinkDB_hset hasher key field value db).1 = bit (bool_decide (h !! field = None))
  ∧ store (BlinkDB_hset hasher key field value db).2
    = <[key := HashType (<[field := value]> h)]> (store db).
Proof.
  intros (Hok & Hmax & _) Hh. unfold hash_at in Hh.
  unfold BlinkDB_hset, create_hash_if_needed.
  destruct (store db !! key) as [[| | | fields]|] eqn:Hkey; try done;
    injection Hh as <-; cbn [negb]; cbv iota.
  - rewrite Hkey. cbn [HashType_hset]. rewrite evict_if_needed_touch by done. done.
  - cbn [store with_store with_bloom_filter]. rewrite lookup_insert_eq.
    cbn [HashType_hset]. rewrite evict_if_needed_touch by done.
    cbn [fst snd store with_store with_cache with_bloom_filter].
    by rewrite insert_insert_eq.
Qed.

Lemma BlinkDB_hdel_hash key field db h :
  store db !! key = Some (HashType h) →
  (Z.of_nat (base.size h) ≤ INT_MAX)%Z →
  (BlinkDB_hdel key field db).1 = bit (bool_decide (is_Some (h !! field)))
  ∧ store (BlinkDB_hdel key field db).2
    = if decide (delete field h = ∅) then delete key (store db)
      else <[key := HashType (delete field h)]> (store db).
Proof.
  intros Hkey Hsize. unfold BlinkDB_hdel. rewrite Hkey. cbn [HashType_hdel].
  pose proof (size_delete_le h field) as Hle.
  rewrite HashType_hlen_size by lia.
  destruct (decide (delete field h = ∅)) as [Hempty|Hrest].
  - rewrite Hempty, map_size_empty. cbn [Z.of_nat Z.eqb fst snd].
    split; [done |]. cbn [erase_key store with_store with_cache].
    apply delete_insert_eq.
  - rewrite (proj2 (Z.eqb_neq _ _)); [done |].
    intros Hzero. apply Hrest. apply map_size_empty_iff. lia.
Qed.


(** X18. [HDEL] undoes [HSET]: when the hash at [k] has no field [f],
    [HSET k f v] followed by [HDEL k f] is answered [:1] and leaves the
    store as it was, the key being deleted again when it was absent.
    [HDEL k f] on a hash without the field is answered [:0] and leaves the
    store as it is. *)
Theorem hdel_undoes_hset (k f v : string) (h : gmap string string) db :
  db_inv hasher db →
  is_token k → is_token f → is_token v →
  hash_at db k = Some h →
  store db !! k ≠ Some (HashType ∅) →
  h !! f = None →
  (Z.of_nat (base.size h) < INT_MAX)%Z →
  let set := process_command hasher (request ["HSET"; k; f; v]) db in
  let removed := process_command hasher (request ["HDEL"; k; f]) set.2 in
  let missed := process_command hasher (request ["HDEL"; k; f]) db in
  removed.1 = ":1" +:+ CRLF
  ∧ store removed.2 = store db
  ∧ missed.1 = ":0" +:+ CRLF
  ∧ store missed.2 = store db.
Proof.
  intros Hinv Hk Hf Hv Hh Hnonempty Hnew Hsize set removed missed.
  subst set removed missed.
  assert (is_token "HSET") by (by apply is_token_literal).
  assert (is_token "HDEL") by (by apply is_token_literal).
  rewrite !process_command_request by (by repeat apply Forall_cons_2).
  rewrite process_parts_HSET, !process_parts_HDEL. cbn [fst snd].
  destruct (BlinkDB_hset_hash k f v db h Hinv Hh) as [_ Hstore1].
  set (db1 := (BlinkDB_hset hasher k f v db).2) in *.
  assert (store db1 !! k = Some (HashType (<[f := v]> h))) as Hkey1
    by (by rewrite Hstore1, lookup_insert_eq).
  pose proof (size_insert_le h f v) as Hle.
  destruct (BlinkDB_hdel_hash k f db1 (<[f := v]> h) Hkey1) as [Hreply2 Hstore2];
    [lia |].
  rewrite delete_insert_eq, (delete_id h f) in Hstore2 by done.
  rewrite Hreply2, Hstore2, Hstore1, integer_reply_bit.
  rewrite lookup_insert_eq.
  rewrite (bool_decide_eq_true_2 (is_Some (Some v))) by (by eexists).
  unfold hash_at in Hh.
  destruct (store db !! k) as [[| | | fields]|] eqn:Hkey; try done;
    injection Hh as <-.
  - (* the key holds the hash [fields] *)
    assert (fields ≠ ∅) as Hfields by (by intros ->).
    destruct (BlinkDB_hdel_hash k f db fields Hkey) as [Hreply3 Hstore3]; [lia |].
    rewrite (delete_id fields f) in Hstore3 by done.
    rewrite Hreply3, Hstore3, integer_reply_bit, Hnew.
    rewrite bool_decide_eq_false_2 by (by intros [? ?]).
    destruct (decide (fields = ∅)) as [|_]; [done |].
    rewrite insert_insert_eq, insert_id by done. done.
  - (* the key is absent *)
    destruct (decide (∅ = ∅)) as [_|]; [| done].
    rewrite delete_insert_eq, delete_id by done.
    unfold BlinkDB_hdel. rewrite Hkey. done.
Qed.

End Hashes.


Lemma hdel_undoes_hset_witness :
  let db := BlinkDB_new in
  let set := process_command (λ _, 0%N) "HSET k f v" db in
  let removed := process_command (λ _, 0%N) "HDEL k f" set.2 in
  db_inv (λ _, 0%N) db
  ∧ hash_at db "k" = Some ∅
  ∧ removed.1 = ":1" +:+ CRLF
  ∧ store removed.2 = store db.
Proof.
  intros db set removed.
  assert (H0 : db_inv (λ _, 0%N) db) by apply BlinkDB_new_inv.
  assert (H1 : is_token "k") by (split; [discriminate | reflexivity]).
  assert (H2 : is_token "f") by (split; [discriminate | reflexivity]).
  assert (H3 : is_token "v") by (split; [discriminate | reflexivity]).
  assert (H4 : hash_at db "k" = Some ∅) by reflexivity.
  assert (H5 : store db !! "k" ≠ Some (HashType ∅)) by discriminate.
  assert (H6 : (∅ : gmap string string) !! "f" = None) by reflexivity.
  assert (H7 : (Z.of_nat (base.size (∅ : gmap string string)) < INT_MAX)%Z)
    by reflexivity.
  destruct (hdel_undoes_hset (λ _, 0%N) "k" "f" "v" ∅ db H0 H1 H2 H3 H4 H5 H6 H7)
    as (E1 & E2 & _).
  split; [exact H0 | split; [exact H4 | split; [exact E1 | exact E2]]].
Defined.

(** ** The dispatcher *)

Section Dispatcher.

Variable hasher : string → N.

Lemma dispatch_lower_case c c' args db :
  transform tolower c = transform tolower c' →
  dispatch hasher (c :: args) db = dispatch hasher (c' :: args) db.
Proof.
  intros Hsame. unfold dispatch. cbn [nth length]. by rewrite Hsame.
Qed.

Ltac keeps_data op :=
  intros; unfold op; repeat case_match; by split.

Lemma get_keeps_data key db :
  store (BlinkDB_get hasher key db).2 = store db
  ∧ bloom_filter (BlinkDB_get hasher key db).2 = bloom_filter db.
Proof. keeps_data BlinkDB_get. Qed.

Lemma lindex_keeps_data key index db :
  store (BlinkDB_lindex key index db).2 = store db
  ∧ bloom_filter (BlinkDB_lindex key index db).2 = bloom_filter db.
Proof. keeps_data BlinkDB_lindex. Qed.

Lemma llen_keeps_data key db :
  store (BlinkDB_llen key db).2 = store db
  ∧ bloom_filter (BlinkDB_llen key db).2 = bloom_filter db.
Proof. keeps_data BlinkDB_llen. Qed.

Lemma lrange_keeps_data key start end_ db :
  store (BlinkDB_lrange key start end_ db).2 = store db
  ∧ bloom_filter (BlinkDB_lrange key start end_ db).2 = bloom_filter db.
Proof. keeps_data BlinkDB_lrange. Qed.

Lemma sismember_keeps_data key value db :
  store (BlinkDB_sismember key value db).2 = store db
  ∧ bloom_filter (BlinkDB_sismember key value db).2 = bloom_filter db.
Proof. keeps_data BlinkDB_sismember. Qed.

Lemma scard_keeps_data key db :
  store (BlinkDB_scard key db).2 = store db
  ∧ bloom_filter (BlinkDB_scard key db).2 = bloom_filter db.
Proof. keeps_data BlinkDB_scard. Qed.

Lemma smembers_keeps_data key db :
  store (BlinkDB_smembers key db).2 = store db
  ∧ bloom_filter (BlinkDB_smembers key db).2 = bloom_filter db.
Proof. keeps_data BlinkDB_smembers. Qed.

Lemma hget_keeps_data key field db :
  store (BlinkDB_hget key field db).2 = store db
  ∧ bloom_filter (BlinkDB_hget key field db).2 = bloom_filter db.
Proof. keeps_data BlinkDB_hget. Qed.

Lemma hexists_keeps_data key field db :
  store (BlinkDB_hexists key field db).2 = store db
  ∧ bloom_filter (BlinkDB_hexists key field db).2 = bloom_filter db.
Proof. keeps_data BlinkDB_hexists. Qed.

Lemma hlen_keeps_data key db :
  store (BlinkDB_hlen key db).2 = store db
  ∧ bloom_filter (BlinkDB_hlen key db).2 = bloom_filter db.
Proof. keeps_data BlinkDB_hlen. Qed.

Lemma hkeys_keeps_data key db :
  store (BlinkDB_hkeys key db).2 = store db
  ∧ bloom_filter (BlinkDB_hkeys key db).2 = bloom_filter db.
Proof. keeps_data BlinkDB_hkeys. Qed.

Lemma hvals_keeps_data key db :
  store (BlinkDB_hvals key db).2 = store db
  ∧ bloom_filter (BlinkDB_hvals key db).2 = bloom_filter db.
Proof. keeps_data BlinkDB_hvals. Qed.

Lemma hgetall_keeps_data key db :
  store (BlinkDB_hgetall key db).2 = store db
  ∧ bloom_filter (BlinkDB_hgetall key db).2 = bloom_filter db.
Proof. keeps_data BlinkDB_hgetall. Qed.

Lemma writer_test parts name n :
  command_name parts ∉ writers →
  name ∈ writers →
  String.eqb (transform tolower (nth 0 parts "")) name && (n <=? length parts) = true →
  False.
Proof.
  intros Hnot Hname Htest. apply andb_prop in Htest as [Hcmd _].
  apply String.eqb_eq in Hcmd. apply Hnot. unfold command_name. by rewrite Hcmd.
Qed.

Lemma dispatch_keeps_data parts db r :
  command_name parts ∉ writers →
  dispatch hasher parts db = Done r →
  store r.2 = store db ∧ bloom_filter r.2 = bloom_filter db.
Proof.
  intros Hnot. unfold dispatch, reply.
  repeat match goal with
         | |- context [if ?c then _ else _] =>
             match type of c with bool => destruct c eqn:? end
         | |- context [obind ?m _] => destruct m; cbn [obind]
         end;
    intros [= <-]; cbn [fst snd];
    first
      [ done
      | apply get_keeps_data | apply lindex_keeps_data | apply llen_keeps_data
      | apply lrange_keeps_data | apply sismember_keeps_data
      | apply scard_keeps_data | apply smembers_keeps_data
      | apply hget_keeps_data | apply hexists_keeps_data | apply hlen_keeps_data
      | apply hkeys_keeps_data | apply hvals_keeps_data | apply hgetall_keeps_data
      | exfalso; eapply (writer_test parts); [exact Hnot | | eassumption];
        unfold writers; repeat (apply elem_of_cons; first [by left | right]) ].
Qed.

(** X19. The name of a command is read without regard to case: two request
    lines that differ only in the case of the letters of the command name get
    the same reply and lead to the same state. The arguments keep their
    case. *)
Theorem command_names_ignore_case (c c' : string) (args : list string) db :
  is_token c → is_token c' → Forall is_token args →
  transform tolower c = transform tolower c' →
  process_command hasher (request (c :: args)) db
  = process_command hasher (request (c' :: args)) db.
Proof.
  intros Hc Hc' Hargs Hsame.
  rewrite !process_command_request by (by apply Forall_cons_2).
  rewrite !process_parts_nonempty by done.
  by rewrite (dispatch_lower_case c c').
Qed.

(** X20. An index or a bound that [std::stoi] rejects makes [LINDEX] and
    [LRANGE] answer [-ERR stoi]; the state is left exactly as it was, the
    tracker included, whether the key exists or not and whatever it
    holds. *)
Theorem bad_number_is_an_error (k i j : string) (e : exn) db :
  is_token k → is_token i → is_token j →
  stoi i = Threw e →
  process_command hasher (request ["LINDEX"; k; i]) db = ("-ERR stoi" +:+ CRLF, db)
  ∧ process_command hasher (request ["LRANGE"; k; i; j]) db
    = ("-ERR stoi" +:+ CRLF, db)
  ∧ process_command hasher (request ["LRANGE"; k; j; i]) db
    = ("-ERR stoi" +:+ CRLF, db).
Proof.
  intros Hk Hi Hj Hbad.
  assert (is_token "LINDEX") by (by apply is_token_literal).
  assert (is_token "LRANGE") by (by apply is_token_literal).
  rewrite !process_command_request by (by repeat apply Forall_cons_2).
  rewrite process_parts_LINDEX, !process_parts_LRANGE, Hbad.
  by destruct (stoi j).
Qed.


End Dispatcher.

Lemma command_names_ignore_case_witness :
  let db := BlinkDB_set (λ _, 0%N) "k" "v" BlinkDB_new in
  transform tolower "GET" = transform tolower "gEt"
  ∧ process_command (λ _, 0%N) "GET k" db = process_command (λ _, 0%N) "gEt k" db.
Proof.
  intros db.
  assert (H1 : is_token "GET") by (split; [discriminate | reflexivity]).
  assert (H2 : is_token "gEt") by (split; [discriminate | reflexivity]).
  assert (H3 : Forall is_token ["k"])
    by (repeat constructor; discriminate).
  assert (H4 : transform tolower "GET" = transform tolower "gEt") by reflexivity.
  split; [exact H4 |].
  exact (command_names_ignore_case (λ _, 0%N) "GET" "gEt" ["k"] db H1 H2 H3 H4).
Defined.

Lemma bad_number_is_an_error_witness :
  let db := (process_command (λ _, 0%N) "RPUSH k a" BlinkDB_new).2 in
  stoi "x1" = Threw invalid_argument
  ∧ process_command (λ _, 0%N) "LINDEX k x1" db = ("-ERR stoi" +:+ CRLF, db)
  ∧ process_command (λ _, 0%N) "LRANGE k 0 x1" db = ("-ERR stoi" +:+ CRLF, db).
Proof.
  intros db.
  assert (H1 : is_token "k") by (split; [discriminate | reflexivity]).
  assert (H2 : is_token "x1") by (split; [discriminate | reflexivity]).
  assert (H3 : is_token "0") by (split; [discriminate | reflexivity]).
  assert (H4 : stoi "x1" = Threw invalid_argument) by reflexivity.
  destruct (bad_number_is_an_error (λ _, 0%N) "k" "x1" "0" invalid_argument db
              H1 H2 H3 H4) as (E1 & _ & E2).
  split; [exact H4 | split; [exact E1 | exact E2]].
Defined.


(** ** The tokens of a request line *)

Lemma split_tokens_space a b c cur :
  isspace c = true →
  split_tokens (a +:+ String c b) cur = split_tokens a cur ++ split_tokens b "".
Proof.
  intros Hc. revert cur. induction a as [|x a IH]; intros cur.
  - rewrite append_nil. cbn [split_tokens]. rewrite Hc.
    by destruct (String.eqb cur "").
  - rewrite append_cons. cbn [split_tokens].
    destruct (isspace x); [| apply IH].
    destruct (String.eqb cur ""); [apply IH |].
    by rewrite IH.
Qed.

(** X22. [process_command] splits a request line at white space: every part
    it finds is non-empty and free of white space; a white-space character
    separates the parts before it from the parts after it, so that runs of
    blanks, tabs or carriage returns count as one separator and leading or
    trailing ones are dropped; and the parts of a line made of tokens with
    one blank between them are these tokens. *)
Theorem request_lines_split_at_white_space (line : string) :
  Forall is_token (tokenize line)
  ∧ (∀ before after c,
       isspace c = true →
       tokenize (before +:+ String c after) = tokenize before ++ tokenize after)
  ∧ (∀ parts, Forall is_token parts → tokenize (request parts) = parts).
Proof.
  split; [apply tokenize_tokens | split].
  - intros before after c Hc. by apply split_tokens_space.
  - apply tokenize_request.
Qed.

(** ** Lines [load_from_disk] passes over *)

Local Open Scope Z_scope.

Lemma index_from_bound c s i :
  index_from c s i = npos ∨ i ≤ index_from c s i < i + string_size s.
Proof.
  revert i. induction s as [|x s IH]; intros i; [by left |].
  cbn [index_from]. rewrite string_size_cons.
  pose proof (string_size_nonneg s).
  destruct (Ascii.eqb x c); [right; lia |].
  destruct (IH (i + 1)) as [-> | Hrest]; [by left | right; lia].
Qed.

Lemma string_size_drop n s :
  (n ≤ String.length s)%nat →
  string_size (string_drop n s) = string_size s - Z.of_nat n.
Proof.
  revert s. induction n as [|n IH]; intros s Hn; [simpl; lia |].
  destruct s as [|x s]; [simpl in Hn; lia |].
  cbn [string_drop]. rewrite string_size_cons, IH by (simpl in Hn; lia). lia.
Qed.

Lemma find_bound s c pos :
  0 ≤ pos →
  find s c pos = npos ∨ pos ≤ find s c pos < string_size s.
Proof.
  intros Hpos. unfold find.
  destruct (Z.leb_spec (string_size s) pos) as [|Hlt]; [by left |].
  destruct (index_from_bound c (string_drop (Z.to_nat pos) s) pos) as [-> | Hin];
    [by left | right].
  rewrite string_size_drop in Hin by (unfold string_size in Hlt; lia). lia.
Qed.

Section Skipped.

Variable hasher : string → N.

(** X23. [load_from_disk] passes over a line that is shorter than three
    characters, that lacks one of the two blanks, or whose first character
    is none of the four type letters: the state stays as it is and the load
    goes on with the next line. *)
Theorem unreadable_lines_are_skipped (fuel : nat) (line : string) db :
  string_size line < 3
  ∨ find line " " 0 = npos
  ∨ find line " " (size_t (find line " " 0 + 1)) = npos
  ∨ (∃ c rest, line = String c rest ∧ c ∉ ["S"; "L"; "E"; "H"]%char) →
  load_line hasher fuel line db = Some (Done db).
Proof.
  intros [Hshort | [Hnone | [Hnone | (c & rest & -> & Hc)]]];
    [apply load_line_skips; auto .. |].
  unfold load_line. cbv zeta.
  remember (String c rest) as line eqn:Hline.
  destruct (string_size line <? 3); [done |].
  set (first_space := find line " " 0).
  set (second_space := find line " " (size_t (first_space + 1))).
  destruct ((first_space =? npos) || (second_space =? npos)) eqn:Hspaces; [done |].
  apply orb_false_elim in Hspaces as [Hfirst Hsecond].
  apply Z.eqb_neq in Hfirst, Hsecond.
  destruct (find_bound line " " 0) as [? | Hbound1]; [lia | done |].
  destruct (find_bound line " " (size_t (first_space + 1))) as [? | Hbound2];
    [apply Z.mod_pos_bound; lia | done |].
  fold first_space in Hbound1. fold second_space in Hbound2.
  unfold substr.
  rewrite (proj2 (Z.ltb_ge (string_size line) (first_space + 1))) by lia.
  rewrite (proj2 (Z.ltb_ge (string_size line) (second_space + 1))) by lia.
  cbn [fbind].
  clearbody first_space second_space. clear Hbound1 Hbound2. subst line.
  destruct c as [[] [] [] [] [] [] [] []]; try reflexivity;
    exfalso; apply Hc; repeat (apply elem_of_cons; first [by left | right]).
Qed.

End Skipped.

Local Close Scope Z_scope.

Lemma unreadable_lines_are_skipped_witness :
  load_line (λ _, 0%N) 1 "X k v" BlinkDB_new = Some (Done BlinkDB_new).
Proof.
  apply (unreadable_lines_are_skipped (λ _, 0%N) 1 "X k v" BlinkDB_new).
  right; right; right. exists "X"%char, " k v". split; [reflexivity |].
  intros H. repeat (apply elem_of_cons in H as [H|H]; [discriminate H |]).
  by apply elem_of_nil in H.
Defined.

(** ** The buffer of a client *)

Lemma find_CRLF_line line rest :
  lacks LF line = true →
  find_CRLF (line +:+ CRLF +:+ rest) = Some (String.length line).
Proof.
  induction line as [|x line IH]; intros Hline; [done |].
  simpl in Hline. apply andb_prop in Hline as [_ Hline].
  specialize (IH Hline). destruct line as [|y line].
  - change (find_CRLF (String x (String CR (String LF rest))) = Some 1).
    cbn [find_CRLF]. change (Ascii.eqb CR LF) with false.
    rewrite andb_false_r. by rewrite !Ascii.eqb_refl.
  - rewrite !append_cons in *. simpl in Hline.
    apply andb_prop in Hline as [Hy _]. apply negb_true_iff in Hy.
    change (find_CRLF (String x (String y (line +:+ CRLF +:+ rest))))
      with (if Ascii.eqb x CR && Ascii.eqb y LF then Some 0
            else option_map S (find_CRLF (String y (line +:+ CRLF +:+ rest)))).
    rewrite Hy, andb_false_r, IH. done.
Qed.

Lemma string_drop_line line rest :
  string_drop (String.length line + 2) (line +:+ CRLF +:+ rest) = rest.
Proof.
  induction line as [|x line IH]; [done |].
  by rewrite append_cons.
Qed.

(** X24. What [main] does with the buffer of a client: when the buffer holds
    complete commands, each followed by ["\r\n"], and after them the start
    of a command whose end has not arrived, the complete commands are
    processed in their order, the empty ones passed over without a reply,
    the replies are those of [process_command] on each command in the state
    the one before it left, and the unfinished rest stays in the buffer. The
    loop ends within one round per command. *)
Theorem complete_commands_are_processed (hasher : string → N)
    (lines : list string) (rest : string) db (fuel : nat) :
  Forall (λ line, lacks LF line = true) lines →
  find_CRLF rest = None →
  length lines < fuel →
  drain hasher fuel (string_concat (map (λ line, line +:+ CRLF) lines) +:+ rest) db
  = Some ((process_commands hasher (filter (λ line, line ≠ "") lines) db).1,
          rest,
          (process_commands hasher (filter (λ line, line ≠ "") lines) db).2).
Proof.
  revert rest db fuel.
  induction lines as [|line lines IH]; intros rest db fuel Hlines Hrest Hfuel.
  - destruct fuel as [|fuel]; [simpl in Hfuel; lia |].
    cbn [map string_concat foldr drain]. rewrite append_nil, Hrest. done.
  - destruct fuel as [|fuel]; [simpl in Hfuel; lia |].
    inversion Hlines as [|? ? Hline Hlines']; subst.
    cbn [map string_concat foldr]. fold (string_concat (map (λ line, line +:+ CRLF) lines)).
    rewrite !append_assoc. cbn [drain].
    rewrite find_CRLF_line by done. cbv zeta.
    rewrite string_take_append, string_drop_line.
    rewrite filter_cons.
    destruct (String.eqb_spec line "") as [-> | Hcommand].
    + destruct (decide ("" ≠ "")) as [|_]; [done |].
      apply IH; [done | done | simpl in Hfuel; lia].
    + destruct (decide (line ≠ "")) as [_|]; [| done].
      cbn [process_commands].
      destruct (process_command hasher line db) as [response db1].
      rewrite IH; [| done | done | simpl in Hfuel; lia].
      by destruct (process_commands hasher (filter (λ line, line ≠ "") lines) db1).
Qed.

Lemma complete_commands_are_processed_witness :
  drain (λ _, 0%N) 4
    (string_concat (map (λ line, line +:+ CRLF) ["SET k v"; ""; "GET k"]) +:+ "GET")
    BlinkDB_new
  = Some ((process_commands (λ _, 0%N) ["SET k v"; "GET k"] BlinkDB_new).1,
          "GET",
          (process_commands (λ _, 0%N) ["SET k v"; "GET k"] BlinkDB_new).2).
Proof.
  apply (complete_commands_are_processed (λ _, 0%N)
           ["SET k v"; ""; "GET k"] "GET" BlinkDB_new 4).
  - repeat constructor.
  - reflexivity.
  - simpl; lia.
Defined.

(** ** The texts of the store *)

Lemma Forall_removelast {A} (P : A → Prop) (l : list A) :
  Forall P l → Forall P (removelast l).
Proof.
  induction 1 as [|x l Hx Hl IH]; [constructor |].
  destruct l as [|y l]; [constructor |].
  change (removelast (x :: y :: l)) with (x :: removelast (y :: l)).
  by constructor.
Qed.

Lemma nth_token parts i :
  Forall is_token parts → i < length parts → is_token (nth i parts "").
Proof.
  intros Hparts Hi. rewrite nth_lookup.
  destruct (lookup_lt_is_Some_2 parts i Hi) as [part Hpart].
  rewrite Hpart. by apply (Forall_lookup_1 _ parts i).
Qed.

Lemma nth_token_test parts cmd name n i :
  Forall is_token parts →
  String.eqb cmd name && (n <=? length parts) = true →
  i < n →
  is_token (nth i parts "").
Proof.
  intros Hparts Htest Hi. apply andb_prop in Htest as [_ Hn].
  apply Nat.leb_le in Hn. apply nth_token; [done | lia].
Qed.

Section Texts.

Variable hasher : string → N.

Lemma tokens_same db db' : store db' = store db → store_tokens db → store_tokens db'.
Proof. unfold store_tokens. by intros ->. Qed.

Lemma tokens_insert key value db :
  is_token key → texts_ok value → store_tokens db →
  store_tokens (with_store <[key := value]> db).
Proof. intros Hkey Hvalue Hdb. by apply map_Forall_insert_2. Qed.

Lemma tokens_delete key db :
  store_tokens db → store_tokens (with_store (delete key) db).
Proof. intros Hdb. by apply map_Forall_delete. Qed.

Lemma tokens_erase_key key db : store_tokens db → store_tokens (erase_key key db).
Proof. intros Hdb. by apply map_Forall_delete. Qed.

Lemma tokens_evict db : store_tokens db → store_tokens (evict_if_needed db).
Proof.
  intros Hdb. unfold evict_if_needed. repeat case_match; try done.
  by apply map_Forall_delete.
Qed.

Lemma tokens_at key value db :
  store_tokens db → store db !! key = Some value → texts_ok value.
Proof. intros Hdb Hkey. by destruct (Hdb key value Hkey). Qed.

Lemma tokens_set key value db :
  is_token key → is_token value → store_tokens db →
  store_tokens (BlinkDB_set hasher key value db).
Proof.
  intros Hkey Hvalue Hdb. unfold BlinkDB_set.
  apply (tokens_same (evict_if_needed
                        (with_cache (LRUCache_access key)
                           (with_store <[key := StringType value]> db))));
    [done |].
  apply tokens_evict. by apply map_Forall_insert_2.
Qed.

Lemma tokens_del key db : store_tokens db → store_tokens (BlinkDB_del key db).
Proof. intros Hdb. by apply map_Forall_delete. Qed.

Lemma tokens_lpush key value db :
  is_token key → is_token value → store_tokens db →
  store_tokens (BlinkDB_lpush hasher key value db).2.
Proof.
  intros Hkey Hvalue Hdb. unfold BlinkDB_lpush, create_list_if_needed.
  destruct (store db !! key) as [[| elements | |]|] eqn:Hlookup; cbn [negb];
    cbv iota; try done.
  - rewrite Hlookup. cbn [snd]. apply tokens_evict, map_Forall_insert_2; [| done].
    split; [done |]. constructor; [done |]. by apply (tokens_at key (ListType elements) db).
  - cbn [store with_store with_bloom_filter]. rewrite lookup_insert_eq. cbn [snd].
    apply tokens_evict.
    unfold store_tokens. cbn [store with_store with_cache with_bloom_filter].
    rewrite insert_insert_eq. apply map_Forall_insert_2; [| done].
    split; [done |]. constructor; [done | constructor].
Qed.

Lemma tokens_rpush key value db :
  is_token key → is_token value → store_tokens db →
  store_tokens (BlinkDB_rpush hasher key value db).2.
Proof.
  intros Hkey Hvalue Hdb. unfold BlinkDB_rpush, create_list_if_needed.
  destruct (store db !! key) as [[| elements | |]|] eqn:Hlookup; cbn [negb];
    cbv iota; try done.
  - rewrite Hlookup. cbn [snd]. apply tokens_evict, map_Forall_insert_2; [| done].
    split; [done |]. apply Forall_app. split; [| constructor; [done | constructor]].
    by apply (tokens_at key (ListType elements) db).
  - cbn [store with_store with_bloom_filter]. rewrite lookup_insert_eq. cbn [snd].
    apply tokens_evict.
    unfold store_tokens. cbn [store with_store with_cache with_bloom_filter].
    rewrite insert_insert_eq. apply map_Forall_insert_2; [| done].
    split; [done |]. constructor; [done | constructor].
Qed.

Lemma tokens_lpop key db :
  is_token key → store_tokens db → store_tokens (BlinkDB_lpop key db).2.
Proof.
  intros Hkey Hdb. unfold BlinkDB_lpop.
  destruct (store db !! key) as [[| elements | |]|] eqn:Hlookup; try done.
  pose proof (tokens_at key _ db Hdb Hlookup) as Helements.
  destruct (ListType_lpop elements) as [result rest] eqn:Hpop.
  assert (Forall is_token rest) as Hrest.
  { unfold ListType_lpop in Hpop. destruct elements as [|x elements].
    - by injection Hpop as <- <-.
    - injection Hpop as <- <-. by inversion Helements. }
  cbn [snd]. destruct (ListType_llen rest =? 0)%Z.
  - by apply tokens_erase_key, map_Forall_insert_2.
  - by apply map_Forall_insert_2.
Qed.

Lemma tokens_rpop key db :
  is_token key → store_tokens db → store_tokens (BlinkDB_rpop key db).2.
Proof.
  intros Hkey Hdb. unfold BlinkDB_rpop.
  destruct (store db !! key) as [[| elements | |]|] eqn:Hlookup; try done.
  pose proof (tokens_at key _ db Hdb Hlookup) as Helements.
  destruct (ListType_rpop elements) as [result rest] eqn:Hpop.
  assert (Forall is_token rest) as Hrest.
  { unfold ListType_rpop in Hpop. destruct elements as [|x elements].
    - by injection Hpop as <- <-.
    - injection Hpop as <- <-. by apply (Forall_removelast is_token (x :: elements)). }
  cbn [snd]. destruct (ListType_llen rest =? 0)%Z.
  - by apply tokens_erase_key, map_Forall_insert_2.
  - by apply map_Forall_insert_2.
Qed.

Lemma tokens_sadd key value db :
  is_token key → is_token value → store_tokens db →
  store_tokens (BlinkDB_sadd hasher key value db).2.
Proof.
  intros Hkey Hvalue Hdb. unfold BlinkDB_sadd, create_set_if_needed.
  destruct (store db !! key) as [[| | elements |]|] eqn:Hlookup; cbn [negb];
    cbv iota; try done.
  - rewrite Hlookup. cbn [SetType_sadd snd].
    apply tokens_evict, map_Forall_insert_2; [| done].
    split; [done |]. apply set_Forall_union; [by apply set_Forall_singleton |].
    by apply (tokens_at key (SetType elements) db).
  - cbn [store with_store with_bloom_filter]. rewrite lookup_insert_eq.
    cbn [SetType_sadd snd]. apply tokens_evict.
    unfold store_tokens. cbn [store with_store with_cache with_bloom_filter].
    rewrite insert_insert_eq. apply map_Forall_insert_2; [| done].
    split; [done |]. apply set_Forall_union; [by apply set_Forall_singleton |].
    apply set_Forall_empty.
Qed.

Lemma tokens_srem key value db :
  is_token key → store_tokens db → store_tokens (BlinkDB_srem key value db).2.
Proof.
  intros Hkey Hdb. unfold BlinkDB_srem.
  destruct (store db !! key) as [[| | elements |]|] eqn:Hlookup; try done.
  pose proof (tokens_at key _ db Hdb Hlookup) as Helements.
  cbn [SetType_srem snd].
  assert (set_Forall is_token (elements ∖ {[value]})) as Hrest.
  { intros x Hx. apply Helements. by apply elem_of_difference in Hx as [? _]. }
  destruct (SetType_scard (elements ∖ {[value]}) =? 0)%Z.
  - by apply tokens_erase_key, map_Forall_insert_2.
  - by apply map_Forall_insert_2.
Qed.

Lemma tokens_hset key field value db :
  is_token key → is_token field → is_token value → store_tokens db →
  store_tokens (BlinkDB_hset hasher key field value db).2.
Proof.
  intros Hkey Hfield Hvalue Hdb. unfold BlinkDB_hset, create_hash_if_needed.
  destruct (store db !! key) as [[| | | fields]|] eqn:Hlookup; cbn [negb];
    cbv iota; try done.
  - rewrite Hlookup. cbn [HashType_hset snd].
    apply tokens_evict, map_Forall_insert_2; [| done].
    split; [done |]. apply map_Forall_insert_2; [done |].
    by apply (tokens_at key (HashType fields) db).
  - cbn [store with_store with_bloom_filter]. rewrite lookup_insert_eq.
    cbn [HashType_hset snd]. apply tokens_evict.
    unfold store_tokens. cbn [store with_store with_cache with_bloom_filter].
    rewrite insert_insert_eq. apply map_Forall_insert_2; [| done].
    split; [done |]. apply map_Forall_insert_2; [done |]. apply map_Forall_empty.
Qed.

Lemma tokens_hdel key field db :
  is_token key → store_tokens db → store_tokens (BlinkDB_hdel key field db).2.
Proof.
  intros Hkey Hdb. unfold BlinkDB_hdel.
  destruct (store db !! key) as [[| | | fields]|] eqn:Hlookup; try done.
  pose proof (tokens_at key _ db Hdb Hlookup) as Hfields.
  cbn [HashType_hdel snd].
  assert (map_Forall (λ field value, is_token field ∧ is_token value)
            (delete field fields)) as Hrest by (by apply map_Forall_delete).
  destruct (HashType_hlen (delete field fields) =? 0)%Z.
  - by apply tokens_erase_key, map_Forall_insert_2.
  - by apply map_Forall_insert_2.
Qed.

Lemma tokens_dispatch parts db r :
  Forall is_token parts → store_tokens db →
  dispatch hasher parts db = Done r → store_tokens r.2.
Proof.
  intros Hparts Hdb. unfold dispatch, reply.
  repeat match goal with
         | |- context [if ?c then _ else _] =>
             match type of c with bool => destruct c eqn:? end
         | |- context [obind ?m _] => destruct m; cbn [obind]
         end;
    intros [= <-]; cbn [fst snd];
    first
      [ done
      | eapply tokens_same; [| exact Hdb]; eapply proj1;
        first
          [ apply get_keeps_data | apply lindex_keeps_data | apply llen_keeps_data
          | apply lrange_keeps_data | apply sismember_keeps_data
          | apply scard_keeps_data | apply smembers_keeps_data
          | apply hget_keeps_data | apply hexists_keeps_data
          | apply hlen_keeps_data | apply hkeys_keeps_data
          | apply hvals_keeps_data | apply hgetall_keeps_data ]
      | first
          [ apply tokens_set | apply tokens_del | apply tokens_lpush
          | apply tokens_rpush | apply tokens_lpop | apply tokens_rpop
          | apply tokens_sadd | apply tokens_srem | apply tokens_hset
          | apply tokens_hdel ];
        first
          [ exact Hdb
          | eapply nth_token_test; [exact Hparts | eassumption | lia] ] ].
Qed.

Lemma tokens_process_command line db :
  store_tokens db → store_tokens (process_command hasher line db).2.
Proof.
  intros Hdb. unfold process_command, process_parts.
  pose proof (tokenize_tokens line) as Hparts.
  destruct (tokenize line) as [|p parts]; [done |].
  destruct (dispatch hasher (p :: parts) db) as [r|e] eqn:Hdispatch; [| done].
  by apply (tokens_dispatch (p :: parts) db).
Qed.

Lemma tokens_process_commands lines :
  ∀ db, store_tokens db → store_tokens (process_commands hasher lines db).2.
Proof.
  induction lines as [|line lines IH]; intros db Hdb; [done |].
  cbn [process_commands].
  pose proof (tokens_process_command line db Hdb) as Hstep.
  destruct (process_command hasher line db) as [reply db1].
  specialize (IH db1 Hstep).
  by destruct (process_commands hasher lines db1).
Qed.

(** X25. The commands store tokens only: when every key of the store and
    every text stored under it (a string value, an element of a list or of
    a set, a field of a hash and its value) is a token, which is so in the
    empty state of a start without a persistence file, the same holds after
    any sequence of request lines. A token is not empty and holds no white
    space; [load_from_disk], which does not look at the texts it reads, may
    bring in others. *)
Theorem stored_texts_are_tokens (lines : list string) db :
  store_tokens db → store_tokens (process_commands hasher lines db).2.
Proof.
  revert db. induction lines as [|line lines IH]; intros db Hdb; [done |].
  cbn [process_commands].
  pose proof (tokens_process_command line db Hdb) as Hstep.
  destruct (process_command hasher line db) as [reply db1].
  specialize (IH db1 Hstep).
  by destruct (process_commands hasher lines db1).
Qed.

End Texts.

Lemma stored_texts_are_tokens_witness :
  store_tokens BlinkDB_new
  ∧ store_tokens
      (process_commands (λ _, 0%N) ["SET k v"; "HSET h f w"; "LPOP l"] BlinkDB_new).2.
Proof.
  assert (H0 : store_tokens BlinkDB_new).
  { intros key value Hkey. cbn [store BlinkDB_new] in Hkey.
    by rewrite lookup_empty in Hkey. }
  split; [exact H0 |].
  exact (stored_texts_are_tokens (λ _, 0%N)
           ["SET k v"; "HSET h f w"; "LPOP l"] BlinkDB_new H0).
Defined.

(** ** A session, saved and loaded *)

Lemma no_space_lacks c text :
  isspace c = true → no_space text = true → lacks c text = true.
Proof.
  intros Hc. induction text as [|x text IH]; [done |].
  simpl. intros Htext. apply andb_prop in Htext as [Hx Htext].
  rewrite IH, andb_true_r by done.
  destruct (Ascii.eqb_spec x c) as [-> | _]; [| done].
  by rewrite Hc in Hx.
Qed.

Lemma elem_of_map {A B} (f : A → B) (l : list A) (x : A) :
  x ∈ l → f x ∈ map f l.
Proof. intros Hx. apply list_elem_of_In, in_map. by apply list_elem_of_In. Qed.

Lemma string_size_concat_elem x l :
  x ∈ l → (string_size x ≤ string_size (string_concat l))%Z.
Proof.
  induction l as [|y l IH]; intros Hx; [by apply elem_of_nil in Hx |].
  cbn [string_concat foldr]. fold (string_concat l). rewrite string_size_append.
  pose proof (string_size_nonneg y). pose proof (string_size_nonneg (string_concat l)).
  apply elem_of_cons in Hx as [-> | Hx]; [lia |]. specialize (IH Hx). lia.
Qed.

Lemma length_le_sized l :
  (Z.of_nat (length l) ≤ string_size (string_concat (map sized l)))%Z.
Proof.
  induction l as [|x l IH]; [done |].
  cbn [map string_concat foldr length]. fold (string_concat (map sized l)).
  rewrite string_size_append, string_size_sized.
  pose proof (string_size_nonneg x).
  pose proof (string_size_nonneg (to_string (string_size x))). lia.
Qed.

Lemma element_le_sized x l :
  x ∈ l → (string_size x ≤ string_size (string_concat (map sized l)))%Z.
Proof.
  intros Hx. etrans; [| apply (string_size_concat_elem (sized x))].
  - rewrite string_size_sized.
    pose proof (string_size_nonneg (to_string (string_size x))). lia.
  - by apply elem_of_map.
Qed.

Lemma serialize_le_entry_line key value :
  (string_size (serialize value) ≤ string_size (entry_line key value))%Z.
Proof.
  unfold entry_line. rewrite !string_size_append.
  pose proof (string_size_nonneg (type_char value)).
  pose proof (string_size_nonneg key).
  change (string_size " ") with 1%Z. lia.
Qed.

Lemma entry_line_le_file key value db :
  store db !! key = Some value →
  (string_size (entry_line key value) ≤ string_size (save_to_disk db))%Z.
Proof.
  intros Hkey. rewrite save_to_disk_lines.
  etrans; [| apply (string_size_concat_elem (entry_line key value +:+ String LF ""))].
  - rewrite string_size_append. change (string_size (String LF "")) with 1%Z. lia.
  - apply (elem_of_map (λ line, line +:+ String LF "")).
    apply (elem_of_map (λ entry, entry_line entry.1 entry.2)
             (map_to_list (store db)) (key, value)).
    by apply elem_of_map_to_list.
Qed.

Section Reloaded.

Variable hasher : string → N.

Lemma tokens_are_savable key value db fuel :
  store db !! key = Some value →
  is_token key → texts_ok value →
  (∀ fields, value ≠ HashType fields) →
  (string_size (save_to_disk db) ≤ INT_MAX)%Z →
  (string_size (save_to_disk db) < Z.of_nat fuel)%Z →
  savable key value ∧ rounds value < fuel.
Proof.
  intros Hkey [_ Hspace] Htexts Hkind Hmax Hfuel.
  pose proof (entry_line_le_file key value db Hkey) as Hline.
  pose proof (serialize_le_entry_line key value) as Hserialized.
  pose proof (string_size_nonneg (serialize value)) as Hnonneg.
  assert (∀ text, is_token text → lacks LF text = true) as Hnewline
    by (intros text [_ ?]; by apply no_space_lacks).
  split; [split; [by apply no_space_lacks | split; [by apply no_space_lacks | split]] |].
  - unfold npos, INT_MAX in *. lia.
  - destruct value as [value|elements|elements|fields]; cbn [texts_ok] in Htexts.
    + by apply Hnewline.
    + apply Forall_forall. intros element Helement. split.
      * apply Hnewline. by apply (proj1 (Forall_forall _ _) Htexts).
      * pose proof (element_le_sized element elements Helement) as Hle.
        cbn [serialize] in Hserialized. unfold ListType_serialize in Hserialized.
        rewrite string_size_append in Hserialized.
        change (string_size "L") with 1%Z in Hserialized. lia.
    + intros element Helement. split.
      * apply Hnewline. by apply Htexts.
      * assert (element ∈ base.elements elements) as Hin
          by (by apply elem_of_elements).
        pose proof (element_le_sized element _ Hin) as Hle.
        cbn [serialize] in Hserialized. unfold SetType_serialize in Hserialized.
        rewrite string_size_append in Hserialized.
        change (string_size "S") with 1%Z in Hserialized. lia.
    + by destruct (Hkind fields).
  - destruct value as [value|elements|elements|fields]; cbn [rounds].
    + lia.
    + pose proof (length_le_sized elements) as Hle.
      cbn [serialize] in Hserialized. unfold ListType_serialize in Hserialized.
      rewrite string_size_append in Hserialized.
      change (string_size "L") with 1%Z in Hserialized. lia.
    + pose proof (length_le_sized (base.elements elements)) as Hle.
      cbn [serialize] in Hserialized. unfold SetType_serialize in Hserialized.
      rewrite string_size_append in Hserialized.
      change (string_size "S") with 1%Z in Hserialized.
      unfold base.size, set_size. cbn [compose]. lia.
    + by destruct (Hkind fields).
Qed.

(** X26. What the commands store, [save_to_disk] and [load_from_disk]
    carry over: take a state whose keys and texts are tokens and any
    sequence of request lines; if no key holds a hash afterwards and the
    text [save_to_disk] writes for that state is at most [INT_MAX]
    characters long, then [load_from_disk] on that text, started on any
    state with more fuel than the text has characters, ends without an
    exception, and its store binds every saved key to its saved value, the
    keys of the loading state that are not in the text keeping theirs. *)
Theorem stored_sessions_are_read_back
    (lines : list string) (fuel : nat) (db0 db1 : BlinkDB) :
  store_tokens db0 →
  let db := (process_commands hasher lines db0).2 in
  (∀ key fields, store db !! key ≠ Some (HashType fields)) →
  (string_size (save_to_disk db) ≤ INT_MAX)%Z →
  (string_size (save_to_disk db) < Z.of_nat fuel)%Z →
  ∃ db', load_from_disk hasher fuel (Some (save_to_disk db)) db1
         = Some (Done db')
         ∧ store db' = store db ∪ store db1.
Proof.
  intros Hdb0 db Hkinds Hmax Hfuel.
  pose proof (tokens_process_commands hasher lines db0 Hdb0) as Htokens.
  fold db in Htokens.
  apply load_of_save.
  apply Forall_forall. intros [key value] Hkey.
  apply elem_of_map_to_list in Hkey.
  destruct (Htokens key value Hkey) as [Htoken Htexts].
  apply (tokens_are_savable key value db fuel); try done.
  intros fields ->. by apply (Hkinds key fields).
Qed.

End Reloaded.

Lemma stored_sessions_are_read_back_witness :
  let db := (process_commands (λ _, 0%N) ["SET k v"; "RPUSH l x"; "SADD s y"]
               BlinkDB_new).2 in
  store_tokens BlinkDB_new
  ∧ ∃ db', load_from_disk (λ _, 0%N) 100 (Some (save_to_disk db)) BlinkDB_new
           = Some (Done db')
           ∧ store db' = store db ∪ store BlinkDB_new.
Proof.
  intros db.
  assert (H0 : store_tokens BlinkDB_new).
  { intros key value Hkey. cbn [store BlinkDB_new] in Hkey.
    by rewrite lookup_empty in Hkey. }
  split; [exact H0 |].
  apply (stored_sessions_are_read_back (λ _, 0%N)
           ["SET k v"; "RPUSH l x"; "SADD s y"] 100 BlinkDB_new BlinkDB_new H0).
  - assert (store db = <["s" := SetType {["y"]}]>
                         (<["l" := ListType ["x"]]> (<["k" := StringType "v"]> ∅)))
      as Hstore by reflexivity.
    fold db. rewrite Hstore. intros key fields Hkey.
    apply lookup_insert_Some in Hkey as [[_ Hkey] | [_ Hkey]]; [discriminate |].
    apply lookup_insert_Some in Hkey as [[_ Hkey] | [_ Hkey]]; [discriminate |].
    apply lookup_insert_Some in Hkey as [[_ Hkey] | [_ Hkey]]; [discriminate |].
    by rewrite lookup_empty in Hkey.
  - by vm_compute.
  - by vm_compute.
Defined.

(** ** Listing a set or a hash *)

Lemma hash_values_follow_keys (h : gmap string string) :
  (map_to_list h).*2 = map (λ field, default "" (h !! field)) (map_to_list h).*1.
Proof.
  assert (∀ entries : list (string * string),
            (∀ field value, (field, value) ∈ entries → h !! field = Some value) →
            entries.*2 = map (λ field, default "" (h !! field)) entries.*1) as Hall.
  { induction entries as [|[field value] entries IH]; intros Hentries; [done |].
    cbn [fmap list_fmap map fst snd].
    rewrite (Hentries field value) by (by left). cbn [default]. f_equal.
    apply IH. intros f v Hin. apply Hentries. by right. }
  apply Hall. intros field value Hin. by apply elem_of_map_to_list.
Qed.

Lemma array_header_is_no_error n rest :
  is_WRONGTYPE (array_header n +:+ rest) = false.
Proof. reflexivity. Qed.

Section Listings.

Variable hasher : string → N.

Lemma process_parts_SMEMBERS key rest db :
  process_parts hasher ("SMEMBERS" :: key :: rest) db
  = (array_reply (BlinkDB_smembers key db).1, (BlinkDB_smembers key db).2).
Proof. reflexivity. Qed.

Lemma process_parts_HKEYS key rest db :
  process_parts hasher ("HKEYS" :: key :: rest) db
  = (array_reply (BlinkDB_hkeys key db).1, (BlinkDB_hkeys key db).2).
Proof. reflexivity. Qed.

Lemma process_parts_HVALS key rest db :
  process_parts hasher ("HVALS" :: key :: rest) db
  = (array_reply (BlinkDB_hvals key db).1, (BlinkDB_hvals key db).2).
Proof. reflexivity. Qed.

Lemma process_parts_HGETALL key rest db :
  process_parts hasher ("HGETALL" :: key :: rest) db
  = (array_reply (BlinkDB_hgetall key db).1, (BlinkDB_hgetall key db).2).
Proof. reflexivity. Qed.

(** X27. The listing commands enumerate without omission or repetition.
    [SMEMBERS k] is answered with an array that holds every member of the
    set once and nothing else. [HKEYS k] is answered with an array that
    holds every field of the hash once and nothing else; [HVALS k] with the
    values of these fields in the same order; [HGETALL k] with every field
    once, each followed by its value, under a header that counts twice the
    number of fields. On an absent key all four are answered with the empty
    array. *)
Theorem listings_enumerate (k : string) db :
  is_token k →
  let smembers := process_command hasher (request ["SMEMBERS"; k]) db in
  let hkeys := process_command hasher (request ["HKEYS"; k]) db in
  let hvals := process_command hasher (request ["HVALS"; k]) db in
  let hgetall := process_command hasher (request ["HGETALL"; k]) db in
  (∀ s, store db !! k = Some (SetType s) →
        ∃ members, smembers.1 = array_of members
                   ∧ NoDup members ∧ ∀ x, x ∈ members ↔ x ∈ s)
  ∧ (∀ h, store db !! k = Some (HashType h) →
          ∃ fields,
            NoDup fields ∧ (∀ f, f ∈ fields ↔ is_Some (h !! f))
            ∧ hkeys.1 = array_of fields
            ∧ hvals.1 = array_of (map (λ f, default "" (h !! f)) fields)
            ∧ ∃ entries,
                NoDup entries.*1
                ∧ (∀ f v, (f, v) ∈ entries ↔ h !! f = Some v)
                ∧ hgetall.1
                  = array_header (size_t (Z.of_nat (length entries) * 2))
                      +:+ string_concat
                            (map (λ '(f, v), bulk f +:+ bulk v) entries))
  ∧ (store db !! k = None →
     smembers.1 = "*0" +:+ CRLF ∧ hkeys.1 = "*0" +:+ CRLF
     ∧ hvals.1 = "*0" +:+ CRLF ∧ hgetall.1 = "*0" +:+ CRLF).
Proof.
  intros Hk smembers hkeys hvals hgetall. subst smembers hkeys hvals hgetall.
  assert (is_token "SMEMBERS") by (by apply is_token_literal).
  assert (is_token "HKEYS") by (by apply is_token_literal).
  assert (is_token "HVALS") by (by apply is_token_literal).
  assert (is_token "HGETALL") by (by apply is_token_literal).
  rewrite !process_command_request by (by repeat apply Forall_cons_2).
  rewrite process_parts_SMEMBERS, process_parts_HKEYS, process_parts_HVALS,
    process_parts_HGETALL.
  unfold BlinkDB_smembers, BlinkDB_hkeys, BlinkDB_hvals, BlinkDB_hgetall.
  split; [| split].
  - intros s ->. cbn [fst]. unfold array_reply. rewrite array_of_is_no_error.
    exists (base.elements s). split; [done |]. split; [apply NoDup_elements |].
    intros x. apply elem_of_elements.
  - intros h ->. cbn [fst]. unfold array_reply. rewrite !array_of_is_no_error.
    exists (map_to_list h).*1. split; [apply NoDup_fst_map_to_list |].
    split; [| split; [done | split]].
    + intros f. rewrite list_elem_of_fmap. split.
      * intros ([f' v] & -> & Hin). exists v. by apply elem_of_map_to_list.
      * intros [v Hv]. exists (f, v). split; [done |]. by apply elem_of_map_to_list.
    + unfold HashType_hvals, HashType_hkeys. by rewrite hash_values_follow_keys.
    + exists (map_to_list h). split; [apply NoDup_fst_map_to_list |].
      split; [intros f v; apply elem_of_map_to_list |].
      unfold HashType_hgetall. by rewrite array_header_is_no_error.
  - by intros ->.
Qed.

End Listings.

Lemma listings_enumerate_witness :
  let db := (process_commands (λ _, 0%N) ["HSET h f v"; "SADD s a"] BlinkDB_new).2 in
  is_token "h"
  ∧ store db !! "h" = Some (HashType {["f" := "v"]})
  ∧ ∃ fields,
      (process_command (λ _, 0%N) "HKEYS h" db).1 = array_of fields
      ∧ (process_command (λ _, 0%N) "HVALS h" db).1
        = array_of (map (λ f, default "" (({["f" := "v"]} : gmap string string) !! f))
                      fields).
Proof.
  intros db.
  assert (H1 : is_token "h") by (split; [discriminate | reflexivity]).
  assert (H2 : store db !! "h" = Some (HashType {["f" := "v"]})) by reflexivity.
  destruct (listings_enumerate (λ _, 0%N) "h" db H1) as (_ & E & _).
  destruct (E {["f" := "v"]} H2) as (fields & _ & _ & E1 & E2 & _).
  split; [exact H1 | split; [exact H2 |]].
  exists fields. split; [exact E1 | exact E2].
Defined.
